(** * ThreadMeister: the geometric reasoning engine of the heat-set insert add-in

    A shallow embedding of [src/ThreadMeister.py]: the profile resolver
    ([findProfileForCircle]), the direction inferencer
    ([findExtrudeDirectionFromSketch]), the through-bore distance calculator
    ([findDistanceThroughBody]), the two feature edge locators
    ([findChamferEdge], [addBottomRadiusToBlindHole]), the per-point loop of
    [CommandExecuteHandler.notify], the text of the dialog ([updateInfoText]),
    the configuration loader ([load_config]) and the insert dropdown of
    [CommandCreatedHandler.notify].

    Numbers.  The add-in computes on Python floats; they are modelled here by
    exact rationals ([Q]), so every constant of the source ([0.03], [0.00003],
    [1.01], [0.1], ...) is the decimal fraction it is written as, and
    [float('inf')] is the absence of a value.  Comparisons are the boolean
    ones of [QArith]; rounding is not modelled.

    The host kernel.  Everything the add-in asks of Fusion 360 (profile areas,
    centroids and bounding boxes, point containment, the edges of a body,
    vector lengths) is data of the model or a parameter of the section that
    uses it. *)

From Stdlib Require Import QArith Qabs Lqa List Bool ZArith Lia Ascii.
From stdpp Require Import gmap strings.
Import ListNotations.
Open Scope Q_scope.

(* ===================================================================== *)
(** * Part I: the model *)
(* ===================================================================== *)

(** ** Float comparisons *)

Module Num.

Definition Qleb (x y : Q) : bool := Qle_bool x y.
Definition Qltb (x y : Q) : bool := negb (Qle_bool y x).
Definition Qgtb (x y : Q) : bool := Qltb y x.
Definition Qgeb (x y : Q) : bool := Qleb y x.

(** [sum(...)] of Python: left to right, from [0]. *)
Definition Qsum (l : list Q) : Q := fold_left Qplus l 0.

(** An exact square root on the rationals that have one (numerator and
    denominator of the reduced fraction perfect squares); used to
    instantiate the kernel's [length], [distanceTo] and [math.sqrt] on
    concrete inputs. *)
Definition Qsqrt_exact (q : Q) : Q :=
  let r := Qred q in Z.sqrt (Qnum r) # Pos.sqrt (Qden r).

End Num.
Import Num.

(** ** [list.sort(key=..., reverse=...)]

    Python's sort is stable, also with [reverse=True]: elements with equal
    keys keep their order.  Insertion from the right gives the same list. *)

Module PySort.

Definition goesFirst (reverse : bool) (kx ky : Q) : bool :=
  if reverse then Qgeb kx ky else Qleb kx ky.

Fixpoint insertBy {A : Type} (key : A -> Q) (reverse : bool) (x : A) (l : list A)
  : list A :=
  match l with
  | [] => [x]
  | y :: l' =>
      if goesFirst reverse (key x) (key y) then x :: y :: l'
      else y :: insertBy key reverse x l'
  end.

Definition sortByKey {A : Type} (key : A -> Q) (reverse : bool) (l : list A)
  : list A :=
  fold_right (insertBy key reverse) [] l.

End PySort.
Import PySort.

(** ** Geometry supplied by the host *)

Module Geometry.

Record Point2D := mkPoint2D { x2 : Q; y2 : Q }.
Record Point3D := mkPoint3D { px : Q; py : Q; pz : Q }.
Record Vector3D := mkVector3D { vx : Q; vy : Q; vz : Q }.
Record BoundingBox3D := mkBoundingBox3D { minPoint : Point3D; maxPoint : Point3D }.

Inductive PointContainment :=
| PointInsidePointContainment
| PointOnPointContainment
| PointOutsidePointContainment.

Inductive ExtentDirections :=
| PositiveExtentDirection
| NegativeExtentDirection.

Definition isInside (c : PointContainment) : bool :=
  match c with PointInsidePointContainment => true | _ => false end.
Definition isOn (c : PointContainment) : bool :=
  match c with PointOnPointContainment => true | _ => false end.
Definition isOutside (c : PointContainment) : bool :=
  match c with PointOutsidePointContainment => true | _ => false end.

Definition dot (u v : Vector3D) : Q := vx u * vx v + vy u * vy v + vz u * vz v.

(** [sketch.transform]: the coordinate system of the sketch in world space,
    as [getAsCoordinateSystem] returns it. *)
Record Matrix3D := mkMatrix3D
  { origin : Point3D; xAxis : Vector3D; yAxis : Vector3D; zAxis : Vector3D }.

(** [Point3D.create(c.x, c.y, 0)] followed by [transformBy(sketchTransform)]. *)
Definition transformBy (m : Matrix3D) (c : Point2D) : Point3D :=
  {| px := px (origin m) + x2 c * vx (xAxis m) + y2 c * vx (yAxis m);
     py := py (origin m) + x2 c * vy (xAxis m) + y2 c * vy (yAxis m);
     pz := pz (origin m) + x2 c * vz (xAxis m) + y2 c * vz (yAxis m) |}.

(** The test point [center3D + zAxis * d]. *)
Definition offsetPoint (c : Point3D) (n : Vector3D) (d : Q) : Point3D :=
  {| px := px c + vx n * d; py := py c + vy n * d; pz := pz c + vz n * d |}.

Definition offsetPointNeg (c : Point3D) (n : Vector3D) (d : Q) : Point3D :=
  {| px := px c - vx n * d; py := py c - vy n * d; pz := pz c - vz n * d |}.

(** A profile of a sketch with the values [areaProperties] and
    [boundingBox] report for it. *)
Record Profile := mkProfile
  { prof_id : nat;
    prof_area : Q;
    prof_centroid : Point3D;
    prof_boundingBox : BoundingBox3D }.

Record Sketch := mkSketch
  { sketch_id : nat;
    transform : Matrix3D;
    profiles : list Profile }.

Record SketchCircle := mkSketchCircle
  { circle_id : nat;
    parentSketch : nat;
    centerSketchPoint : Point3D;
    radius : Q;
    area : Q }.

(** The exact kernel on inputs whose distances are rational. *)
Definition exactDistanceTo (p q : Point3D) : Q :=
  let dx := px p - px q in
  let dy := py p - py q in
  let dz := pz p - pz q in
  Qsqrt_exact (dx * dx + dy * dy + dz * dz).

Definition exactLength (v : Vector3D) : Q := Qsqrt_exact (dot v v).

End Geometry.
Import Geometry.

(** A call either returns or raises. *)
Inductive Result (A : Type) :=
| Ok (a : A)
| Raised (what : string).
Arguments Ok {A} a.
Arguments Raised {A} what.

(** ** 4.1 Profile resolver: [findProfileForCircle] *)

Module ProfileResolver.

(** What [findProfileForCircle] returns when it finds something: the profile
    itself for one profile, an [ObjectCollection] otherwise. *)
Inductive ProfileSelection :=
| SingleProfile (p : Profile)
| ProfileCollection (ps : list Profile).

(** [best_profiles[0]] when [len(best_profiles) == 1], the collection of
    all of them otherwise. *)
Definition asSelection (best_profiles : list Profile) : ProfileSelection :=
  match best_profiles with
  | [p] => SingleProfile p
  | _ => ProfileCollection best_profiles
  end.

(** The tuples [(prof, props.area, distance)] of [candidates]. *)
Definition Candidate : Type := Profile * Q * Q.
Definition cand_prof (c : Candidate) : Profile := fst (fst c).
Definition cand_area (c : Candidate) : Q := snd (fst c).

(** [itertools.combinations(l, r)]: the [r]-element subsequences of [l] in
    lexicographic order of their positions. *)
Fixpoint combinations {A : Type} (l : list A) (r : nat) : list (list A) :=
  match r with
  | O => [[]]
  | S r' =>
      match l with
      | [] => []
      | x :: l' => map (cons x) (combinations l' r') ++ combinations l' r
      end
  end.

(** [candidates.sort(key=lambda x: x[1], reverse=True)]: largest area first. *)
Definition sortByAreaDesc (l : list Candidate) : list Candidate :=
  sortByKey cand_area true l.

(** The state of the search loops.  [best = None] stands for
    [best_profiles = None], [best_difference = inf].  [tried] is ghost
    state: the combinations evaluated so far, latest first (the source
    counts them in [combinations_tried]). *)
Record SearchState := mkSearchState
  { best : option (list Profile * Q);
    tried : list (list Candidate) }.

Definition initialSearch : SearchState := {| best := None; tried := [] |}.

Definition comboDifference (target_area : Q) (combo : list Candidate) : Q :=
  Qabs (Qsum (map cand_area combo) - target_area).

(** The body of the inner loop up to the early-exit test. *)
Definition tryCombo (target_area : Q) (st : SearchState) (combo : list Candidate)
  : SearchState :=
  let difference := comboDifference target_area combo in
  let improved :=
    match best st with
    | None => true
    | Some (_, best_difference) => Qltb difference best_difference
    end in
  {| best := if improved then Some (map cand_prof combo, difference) else best st;
     tried := combo :: tried st |}.

(** [best_difference <= target_area * 0.00003]. *)
Definition nearPerfect (target_area : Q) (st : SearchState) : bool :=
  match best st with
  | None => false
  | Some (_, best_difference) => Qleb best_difference (target_area * 0.00003)
  end.

Fixpoint innerLoop (target_area : Q) (st : SearchState)
  (combos : list (list Candidate)) : SearchState :=
  match combos with
  | [] => st
  | combo :: rest =>
      let st' := tryCombo target_area st combo in
      if nearPerfect target_area st' then st'
      else innerLoop target_area st' rest
  end.

Fixpoint outerLoop (target_area : Q) (candidates : list Candidate)
  (st : SearchState) (sizes : list nat) : SearchState :=
  match sizes with
  | [] => st
  | r :: rest =>
      let st' := innerLoop target_area st (combinations candidates r) in
      if nearPerfect target_area st' then st'
      else outerLoop target_area candidates st' rest
  end.

Definition max_profiles (candidates : list Candidate) : nat :=
  Nat.min (length candidates) 15.

(** The search over the sorted candidates: [for r in range(1, max_profiles + 1)]. *)
Definition searchCombinations (target_area : Q) (candidates : list Candidate)
  : SearchState :=
  outerLoop target_area candidates initialSearch (seq 1 (max_profiles candidates)).

(** The combinations evaluated, in the order of evaluation. *)
Definition evaluated (st : SearchState) : list (list Candidate) :=
  rev_append (tried st) [].

Section WithKernel.

(** [Point3D.distanceTo] of the host. *)
Variable distanceTo : Point3D -> Point3D -> Q.

(** The three coarse filters on one profile; [Some] is [candidates.append]. *)
Definition coarseCandidate (target_circle : SketchCircle) (prof : Profile)
  : option Candidate :=
  let circle_center3d := centerSketchPoint target_circle in
  let circle_radius := radius target_circle in
  let target_area := area target_circle in
  let bbox_margin := circle_radius * 1.0 in
  let circle_bbox_min_x := px circle_center3d - circle_radius - bbox_margin in
  let circle_bbox_max_x := px circle_center3d + circle_radius + bbox_margin in
  let circle_bbox_min_y := py circle_center3d - circle_radius - bbox_margin in
  let circle_bbox_max_y := py circle_center3d + circle_radius + bbox_margin in
  if Qgtb (prof_area prof) (target_area * 1.01) then None
  else
    let distance := distanceTo circle_center3d (prof_centroid prof) in
    if Qgtb distance circle_radius then None
    else
      let prof_bbox := prof_boundingBox prof in
      let is_contained :=
        Qgeb (px (minPoint prof_bbox)) circle_bbox_min_x &&
        Qleb (px (maxPoint prof_bbox)) circle_bbox_max_x &&
        Qgeb (py (minPoint prof_bbox)) circle_bbox_min_y &&
        Qleb (py (maxPoint prof_bbox)) circle_bbox_max_y in
      if negb is_contained then None
      else Some (prof, prof_area prof, distance).

Fixpoint coarseFilter (target_circle : SketchCircle) (profs : list Profile)
  : list Candidate :=
  match profs with
  | [] => []
  | prof :: rest =>
      match coarseCandidate target_circle prof with
      | Some c => c :: coarseFilter target_circle rest
      | None => coarseFilter target_circle rest
      end
  end.

(** One run of [findProfileForCircle]: what it returns, the profiles whose
    [areaProperties] it asked for, and the combinations it evaluated. *)
Record Run := mkRun
  { returned : Result (option ProfileSelection);
    queried : list Profile;
    examined : list (list Candidate) }.

Definition acceptBest (target_area : Q) (st : SearchState)
  : Result (option ProfileSelection) :=
  match best st with
  | None => Raised "TypeError: object of type 'NoneType' has no len()"
  | Some (best_profiles, best_difference) =>
      let tolerance := target_area * 0.03 in
      if Qgtb best_difference tolerance then Ok None
      else Ok (Some (asSelection best_profiles))
  end.

Definition runFindProfileForCircle (sketch : Sketch) (target_circle : SketchCircle)
  : Run :=
  if negb (Nat.eqb (parentSketch target_circle) (sketch_id sketch)) then
    {| returned := Ok None; queried := []; examined := [] |}
  else
    let target_area := area target_circle in
    let candidates := coarseFilter target_circle (profiles sketch) in
    match candidates with
    | [] => {| returned := Ok None; queried := profiles sketch; examined := [] |}
    | _ =>
        let sorted := sortByAreaDesc candidates in
        let st := searchCombinations target_area sorted in
        {| returned := acceptBest target_area st;
           queried := profiles sketch;
           examined := evaluated st |}
    end.

Definition findProfileForCircle (sketch : Sketch) (target_circle : SketchCircle)
  : Result (option ProfileSelection) :=
  returned (runFindProfileForCircle sketch target_circle).

End WithKernel.

End ProfileResolver.

(** ** The target body as the host presents it *)

Module Body.

(** [edge.geometry]: a circle with its center, normal and radius, or a
    curve of any other [curveType]. *)
Inductive Curve3D :=
| Circle3D (center : Point3D) (normal : Vector3D) (circleRadius : Q)
| OtherCurve3D.

Record BRepEdge := mkBRepEdge { edge_id : nat; geometry : Curve3D }.

Record BRepBody := mkBRepBody
  { pointContainment : Point3D -> PointContainment;
    edges : list BRepEdge }.

End Body.
Import Body.

(** ** 4.2 Direction inferencer: [findExtrudeDirectionFromSketch] *)

Module DirectionInferencer.

(** In cm: 0.1mm, 0.5mm, 1mm, 2mm. *)
Definition testDistances : list Q := [0.01; 0.05; 0.1; 0.2].

(** In cm: 0.01mm. *)
Definition verySmallDistance : Q := 0.001.

(** One of the two sampling loops: [true] at the first sample that is
    inside or on the surface ([break]), [false] when the distances run out. *)
Fixpoint entersBody (targetBody : BRepBody) (pointAt : Q -> Point3D)
  (distances : list Q) : bool :=
  match distances with
  | [] => false
  | testDistance :: rest =>
      let containment := pointContainment targetBody (pointAt testDistance) in
      if isInside containment || isOn containment then true
      else entersBody targetBody pointAt rest
  end.

Definition findExtrudeDirectionFromSketch (sketch : Sketch) (circleCenter : Point2D)
  (targetBody : BRepBody) : option ExtentDirections :=
  let sketchTransform := transform sketch in
  let center3D := transformBy sketchTransform circleCenter in
  let zAxis := zAxis sketchTransform in
  let positiveIsInside :=
    entersBody targetBody (offsetPoint center3D zAxis) testDistances in
  let negativeIsInside :=
    entersBody targetBody (offsetPointNeg center3D zAxis) testDistances in
  if positiveIsInside && negb negativeIsInside then Some PositiveExtentDirection
  else if negativeIsInside && negb positiveIsInside then Some NegativeExtentDirection
  else if positiveIsInside && negativeIsInside then
    let veryClosePositive := offsetPoint center3D zAxis verySmallDistance in
    let veryCloseNegative := offsetPointNeg center3D zAxis verySmallDistance in
    let posContain := pointContainment targetBody veryClosePositive in
    let negContain := pointContainment targetBody veryCloseNegative in
    let posOut := isOutside posContain in
    let negOut := isOutside negContain in
    if posOut && negb negOut then Some NegativeExtentDirection
    else if negOut && negb posOut then Some PositiveExtentDirection
    else Some PositiveExtentDirection
  else None.

End DirectionInferencer.

(** ** 4.3 Through-bore distance: [findDistanceThroughBody] *)

Module ThroughBore.

Definition maxDistance : Q := 100.0.
Definition stepSize : Q := 0.1.

(** [int(q)]: truncation toward zero. *)
Definition int (q : Q) : Z := Z.quot (Qnum q) (Z.pos (Qden q)).

(** [range(1, int(maxDistance / stepSize) + 1)]. *)
Definition steps : list nat := seq 1 (Z.to_nat (int (maxDistance / stepSize) + 1) - 1).

Definition multiplierOf (direction : ExtentDirections) : Q :=
  match direction with
  | PositiveExtentDirection => 1.0
  | NegativeExtentDirection => -1.0
  end.

Definition testPointAt (center3D : Point3D) (zAxis : Vector3D) (multiplier distance : Q)
  : Point3D :=
  {| px := px center3D + vx zAxis * distance * multiplier;
     py := py center3D + vy zAxis * distance * multiplier;
     pz := pz center3D + vz zAxis * distance * multiplier |}.

(** The marching loop; [Some distance] is [exitDistance] at the [break]. *)
Fixpoint march (targetBody : BRepBody) (center3D : Point3D) (zAxis : Vector3D)
  (multiplier : Q) (insideBody : bool) (range : list nat) : option Q :=
  match range with
  | [] => None
  | i :: rest =>
      let distance := inject_Z (Z.of_nat i) * stepSize in
      let testPoint := testPointAt center3D zAxis multiplier distance in
      let containment := pointContainment targetBody testPoint in
      let insideBody := if isInside containment then true else insideBody in
      if insideBody && isOutside containment then Some distance
      else march targetBody center3D zAxis multiplier insideBody rest
  end.

Definition findDistanceThroughBody (sketch : Sketch) (circleCenter : Point2D)
  (targetBody : BRepBody) (direction : ExtentDirections) : Q :=
  let sketchTransform := transform sketch in
  let center3D := transformBy sketchTransform circleCenter in
  let zAxis := zAxis sketchTransform in
  let multiplier := multiplierOf direction in
  match march targetBody center3D zAxis multiplier false steps with
  | Some exitDistance => exitDistance + 0.2
  | None => 10.0
  end.

End ThroughBore.

(** ** 4.4 Feature edge locator: [findChamferEdge] and the search of
       [addBottomRadiusToBlindHole] *)

Module EdgeLocator.

(** The tuples [(edge, distance)] of [candidateEdges]. *)
Definition CandidateEdge : Type := BRepEdge * Q.
Definition cand_edge (c : CandidateEdge) : BRepEdge := fst c.
Definition cand_distance (c : CandidateEdge) : Q := snd c.

Definition vecBetween (from to : Point3D) : Vector3D :=
  {| vx := px to - px from; vy := py to - py from; vz := pz to - pz from |}.

(** [max(0, x)] of Python: the first argument unless the second is larger. *)
Definition max0 (x : Q) : Q := if Qgtb x 0 then x else 0.

(** [candidateEdges[0][0]] after the sort, [None] for no candidate. *)
Definition firstEdge (sorted : list CandidateEdge) : option BRepEdge :=
  match sorted with
  | [] => None
  | c :: _ => Some (cand_edge c)
  end.

Section WithKernel.

(** [Vector3D.length] of the host and [math.sqrt]. *)
Variable vecLength : Vector3D -> Q.
Variable sqrt : Q -> Q.

(** The body of the loop of [findChamferEdge] on one edge. *)
Definition chamferCandidate (center3D : Point3D) (zAxis : Vector3D)
  (expectedRadius : Q) (edge : BRepEdge) : option CandidateEdge :=
  match geometry edge with
  | Circle3D edgeCenter edgeNormal edgeRadius =>
      if Qgtb (Qabs (edgeRadius - expectedRadius)) 0.001 then None
      else
        let dotProduct := Qabs (dot edgeNormal zAxis) in
        if Qltb dotProduct 0.99 then None
        else
          let vecToEdge := vecBetween center3D edgeCenter in
          let projection := dot vecToEdge zAxis in
          let perpDist := vecLength vecToEdge - Qabs projection in
          if Qgtb perpDist 0.01 then None
          else Some (edge, Qabs projection)
  | OtherCurve3D => None
  end.

(** The body of the loop of [addBottomRadiusToBlindHole] on one edge. *)
Definition bottomCandidate (center3D : Point3D) (zAxis : Vector3D)
  (expectedRadius : Q) (edge : BRepEdge) : option CandidateEdge :=
  match geometry edge with
  | OtherCurve3D => None
  | Circle3D edgeCenter edgeNormal edgeRadius =>
      let radiusDiff := Qabs (edgeRadius - expectedRadius) in
      if Qgtb radiusDiff 0.005 then None
      else
        let dotProduct := Qabs (dot edgeNormal zAxis) in
        if Qltb dotProduct 0.95 then None
        else
          let vecToEdge := vecBetween center3D edgeCenter in
          let distanceAlongNormal := Qabs (dot vecToEdge zAxis) in
          let perpDistanceSquared :=
            vecLength vecToEdge * vecLength vecToEdge
            - distanceAlongNormal * distanceAlongNormal in
          let perpDistance := sqrt (max0 perpDistanceSquared) in
          if Qgtb perpDistance 0.05 then None
          else Some (edge, distanceAlongNormal)
  end.

(** [for edge in targetBody.edges: ... candidateEdges.append(...)]. *)
Fixpoint collect (keep : BRepEdge -> option CandidateEdge) (es : list BRepEdge)
  : list CandidateEdge :=
  match es with
  | [] => []
  | edge :: rest =>
      match keep edge with
      | Some c => c :: collect keep rest
      | None => collect keep rest
      end
  end.

Definition chamferCandidates (targetBody : BRepBody) (sketch : Sketch)
  (circleCenter : Point2D) (holeDiameter : Q) : list CandidateEdge :=
  let sketchTransform := transform sketch in
  let center3D := transformBy sketchTransform circleCenter in
  let expectedRadius := holeDiameter / 2.0 in
  collect (chamferCandidate center3D (zAxis sketchTransform) expectedRadius)
          (edges targetBody).

Definition findChamferEdge (targetBody : BRepBody) (sketch : Sketch)
  (circleCenter : Point2D) (holeDiameter : Q) : option BRepEdge :=
  let candidateEdges := chamferCandidates targetBody sketch circleCenter holeDiameter in
  firstEdge (sortByKey cand_distance false candidateEdges).

Definition bottomCandidates (targetBody : BRepBody) (sketch : Sketch)
  (circleCenter : Point2D) (holeDiameter : Q) : list CandidateEdge :=
  let sketchTransform := transform sketch in
  let center3D := transformBy sketchTransform circleCenter in
  let expectedRadius := holeDiameter / 2.0 in
  collect (bottomCandidate center3D (zAxis sketchTransform) expectedRadius)
          (edges targetBody).

(** [bottomEdge] of [addBottomRadiusToBlindHole]: the edge the fillet is
    put on, [None] where the function returns for want of a candidate. *)
Definition bottomEdge (targetBody : BRepBody) (sketch : Sketch)
  (circleCenter : Point2D) (holeDiameter : Q) : option BRepEdge :=
  let candidateEdges := bottomCandidates targetBody sketch circleCenter holeDiameter in
  firstEdge (sortByKey cand_distance true candidateEdges).

End WithKernel.

End EdgeLocator.

(** ** Configuration: [INSERT_SPECS] and [CONFIG] *)

Module Config.

(** Name to (hole diameter, insert length, minimum wall), all in mm. *)
Definition get_default_inserts : gmap string (Q * Q * Q) :=
  list_to_map
    [ ("M2 x 3mm"%string, (3.2, 3.0, 1.5));
      ("M2.5 x 4mm"%string, (4.0, 4.0, 1.5));
      ("M3 x 3mm (short)"%string, (4.4, 3.0, 1.6));
      ("M3 x 4mm (short)"%string, (4.4, 4.0, 1.6));
      ("M3 x 5.7mm (standard)"%string, (4.4, 5.7, 1.6));
      ("M4 x 4mm (short)"%string, (5.6, 4.0, 2.0));
      ("M4 x 8.1mm (standard)"%string, (5.6, 8.1, 2.0));
      ("M5 x 5.8mm (short)"%string, (6.4, 5.8, 2.5));
      ("M5 x 9.5mm (standard)"%string, (6.4, 9.5, 2.5));
      ("M6 x 12.7mm"%string, (8.0, 12.7, 3.0));
      ("M8 x 12.7mm"%string, (9.7, 12.7, 4.0));
      ("M10 x 12.7mm"%string, (12.0, 12.7, 5.0));
      (String.append "1/4" (String "034"%char "-20 x 12.7mm (camera)"), (8.0, 12.7, 3.0)) ].
(* ["034"%char] is the inch mark after [1/4] in the last name. *)

(** The numeric entries of [CONFIG] the engine reads, in mm. *)
Record Settings := mkSettings
  { chamfer_size : Q;
    blind_hole_extra_depth : Q;
    bottom_radius_size : Q }.

Definition CONFIG : Settings :=
  {| chamfer_size := 0.5; blind_hole_extra_depth := 1.0; bottom_radius_size := 0.5 |}.

End Config.
Import Config.

(** ** 4.5 Orchestrator: the per-point loop of [CommandExecuteHandler.notify]

    The design is threaded through the loop as explicit state.  Calls into
    the host are taken to return; what [notify] does after the loop (the
    timeline group, the message boxes) and the saving of the dialog state
    are left out. *)

Module Orchestrator.

Import ProfileResolver DirectionInferencer ThroughBore EdgeLocator.

Record SketchPoint := mkSketchPoint
  { point_id : nat;
    point_parentSketch : nat;
    point_geometry : Point2D }.

(** What [notify] reads from the command dialog. *)
Record CommandInputs := mkCommandInputs
  { selectedPoints : list SketchPoint;
    insertName : string;
    isBlindHole : bool;
    addChamfer : bool;
    addBottomRadius : bool }.

Record ExtrudeFeature := mkExtrudeFeature
  { extrude_profile : ProfileSelection;
    extrude_distance : Q;
    extrude_direction : ExtentDirections }.

Record ChamferFeature := mkChamferFeature
  { chamfer_edge : BRepEdge; chamfer_distance : Q }.

Record FilletFeature := mkFilletFeature
  { fillet_edge : BRepEdge; fillet_radius : Q }.

(** The part of the design the add-in changes: the circles drawn in the
    sketches, their coincidence constraints (circle, point) and the
    features of the component. *)
Record Design := mkDesign
  { sketchCircles : list SketchCircle;
    geometricConstraints : list (nat * nat);
    extrudeFeatures : list ExtrudeFeature;
    chamferFeatures : list ChamferFeature;
    filletFeatures : list FilletFeature;
    nextId : nat }.

(** How the work on one point ended (ghost: the source only logs it). *)
Inductive PointStatus :=
| Succeeded
| NoProfile
| NoDirection.

Record PointReport := mkPointReport
  { report_point : SketchPoint;
    report_circle : nat;
    report_status : PointStatus }.

Record Batch := mkBatch
  { design : Design;
    successCount : nat;
    failedCount : nat;
    reports : list PointReport }.

Definition isFailure (s : PointStatus) : bool :=
  match s with Succeeded => false | _ => true end.

(** [circle.deleteMe()]: the circle and what is attached to it leave the
    sketch. *)
Definition deleteMe (circle : SketchCircle) (d : Design) : Design :=
  {| sketchCircles :=
       List.filter (fun c => negb (Nat.eqb (circle_id c) (circle_id circle)))
                   (sketchCircles d);
     geometricConstraints :=
       List.filter (fun k => negb (Nat.eqb (fst k) (circle_id circle)))
                   (geometricConstraints d);
     extrudeFeatures := extrudeFeatures d;
     chamferFeatures := chamferFeatures d;
     filletFeatures := filletFeatures d;
     nextId := nextId d |}.

Section WithKernel.

(** The host: the transform of each sketch, the profiles of a sketch and
    the target body in a given state of the design, the area of a circle
    of a given radius, and the numeric primitives. *)
Variable transformOf : nat -> Matrix3D.
Variable profilesOf : Design -> nat -> list Profile.
Variable targetBodyOf : Design -> BRepBody.
Variable circleArea : Q -> Q.
Variable distanceTo : Point3D -> Point3D -> Q.
Variable vecLength : Vector3D -> Q.
Variable sqrt : Q -> Q.

Variable INSERT_SPECS : gmap string (Q * Q * Q).
Variable settings : Settings.

Definition sketchIn (d : Design) (sid : nat) : Sketch :=
  {| sketch_id := sid; transform := transformOf sid; profiles := profilesOf d sid |}.

(** [sketchCircles.addByCenterRadius(center2d, radius)] and
    [addCoincident(circle.centerSketchPoint, point)]. *)
Definition addCircleAtPoint (d : Design) (point : SketchPoint) (r : Q)
  : SketchCircle * Design :=
  let center2d := point_geometry point in
  let circle :=
    {| circle_id := nextId d;
       parentSketch := point_parentSketch point;
       centerSketchPoint := {| px := x2 center2d; py := y2 center2d; pz := 0 |};
       radius := r;
       area := circleArea r |} in
  (circle,
   {| sketchCircles := sketchCircles d ++ [circle];
      geometricConstraints := geometricConstraints d ++ [(circle_id circle, point_id point)];
      extrudeFeatures := extrudeFeatures d;
      chamferFeatures := chamferFeatures d;
      filletFeatures := filletFeatures d;
      nextId := S (nextId d) |}).

Definition addExtrude (d : Design) (f : ExtrudeFeature) : Design :=
  {| sketchCircles := sketchCircles d;
     geometricConstraints := geometricConstraints d;
     extrudeFeatures := extrudeFeatures d ++ [f];
     chamferFeatures := chamferFeatures d;
     filletFeatures := filletFeatures d;
     nextId := nextId d |}.

(** [addChamferToEdge]: the distance is the size in mm over 10. *)
Definition addChamferToEdge (d : Design) (edge : BRepEdge) (chamferSize : Q) : Design :=
  {| sketchCircles := sketchCircles d;
     geometricConstraints := geometricConstraints d;
     extrudeFeatures := extrudeFeatures d;
     chamferFeatures :=
       chamferFeatures d ++ [{| chamfer_edge := edge; chamfer_distance := chamferSize / 10.0 |}];
     filletFeatures := filletFeatures d;
     nextId := nextId d |}.

(** [addBottomRadiusToBlindHole]: a fillet on [bottomEdge] when there is one. *)
Definition addBottomRadiusToBlindHole (d : Design) (sketch : Sketch)
  (circleCenter : Point2D) (holeDiameter radiusSize : Q) : Design :=
  let filletRadiusCm := radiusSize / 10.0 in
  match bottomEdge vecLength sqrt (targetBodyOf d) sketch circleCenter holeDiameter with
  | None => d
  | Some edge =>
      {| sketchCircles := sketchCircles d;
         geometricConstraints := geometricConstraints d;
         extrudeFeatures := extrudeFeatures d;
         chamferFeatures := chamferFeatures d;
         filletFeatures :=
           filletFeatures d ++ [{| fillet_edge := edge; fillet_radius := filletRadiusCm |}];
         nextId := nextId d |}
  end.

Definition report (b : Batch) (d : Design) (point : SketchPoint) (circle : SketchCircle)
  (s : PointStatus) : Batch :=
  {| design := d;
     successCount := if isFailure s then successCount b else S (successCount b);
     failedCount := if isFailure s then S (failedCount b) else failedCount b;
     reports := reports b ++ [{| report_point := point;
                                 report_circle := circle_id circle;
                                 report_status := s |}] |}.

(** [if includeChamfer: ...]: a chamfer on the edge [findChamferEdge]
    finds, nothing when it finds none. *)
Definition chamferStep (inputs : CommandInputs) (d : Design) (sid : nat)
  (center2d : Point2D) (diameter : Q) : Design :=
  let includeChamfer := addChamfer inputs in
  if includeChamfer then
    match findChamferEdge vecLength (targetBodyOf d) (sketchIn d sid) center2d diameter with
    | Some chamferEdge => addChamferToEdge d chamferEdge (chamfer_size settings)
    | None => d
    end
  else d.

(** [if includeBottomRadius: ...], for blind holes only. *)
Definition bottomRadiusStep (inputs : CommandInputs) (d : Design) (sid : nat)
  (center2d : Point2D) (diameter : Q) : Design :=
  let includeBottomRadius := addBottomRadius inputs && isBlindHole inputs in
  if includeBottomRadius then
    addBottomRadiusToBlindHole d (sketchIn d sid) center2d diameter
                               (bottom_radius_size settings)
  else d.

(** The body of [for point_idx, point in enumerate(selectedPoints)]. *)
Definition processPoint (inputs : CommandInputs) (holeRadius insertLen : Q)
  (b : Batch) (point : SketchPoint) : Result Batch :=
  let diameter := holeRadius * 2.0 in
  let sid := point_parentSketch point in
  let center2d := point_geometry point in
  let '(circle, d1) := addCircleAtPoint (design b) point holeRadius in
  let parentSketch := sketchIn d1 sid in
  match findProfileForCircle distanceTo parentSketch circle with
  | Raised what => Raised what
  | Ok None => Ok (report b (deleteMe circle d1) point circle NoProfile)
  | Ok (Some profile_or_collection) =>
      match findExtrudeDirectionFromSketch parentSketch center2d (targetBodyOf d1) with
      | None => Ok (report b (deleteMe circle d1) point circle NoDirection)
      | Some direction =>
          let distance :=
            if isBlindHole inputs then
              (insertLen + blind_hole_extra_depth settings) / 10.0
            else
              findDistanceThroughBody parentSketch center2d (targetBodyOf d1) direction in
          let d2 :=
            addExtrude d1 {| extrude_profile := profile_or_collection;
                             extrude_distance := distance;
                             extrude_direction := direction |} in
          let d3 := chamferStep inputs d2 sid center2d diameter in
          let d4 := bottomRadiusStep inputs d3 sid center2d diameter in
          Ok (report b d4 point circle Succeeded)
      end
  end.

Fixpoint processPoints (inputs : CommandInputs) (holeRadius insertLen : Q)
  (b : Batch) (points : list SketchPoint) : Result Batch :=
  match points with
  | [] => Ok b
  | point :: rest =>
      match processPoint inputs holeRadius insertLen b point with
      | Raised what => Raised what
      | Ok b' => processPoints inputs holeRadius insertLen b' rest
      end
  end.

(** [notify] up to the end of the loop; a [Raised] result is what the outer
    [except] reports as fatal. *)
Definition notify (inputs : CommandInputs) (d : Design) : Result Batch :=
  match INSERT_SPECS !! insertName inputs with
  | None => Raised "KeyError"
  | Some (holeDia, insertLen, minWall) =>
      let r := holeDia / 2.0 in
      let r := r / 10.0 in
      processPoints inputs r insertLen
        {| design := d; successCount := 0; failedCount := 0; reports := [] |}
        (selectedPoints inputs)
  end.

End WithKernel.

End Orchestrator.

(** ** Example inputs for the profile resolver *)

Module ResolverScenarios.

Import ProfileResolver.

Definition worldOrigin : Point3D := {| px := 0; py := 0; pz := 0 |}.

(** A sketch on the world XY plane. *)
Definition worldXY : Matrix3D :=
  {| origin := worldOrigin;
     xAxis := {| vx := 1; vy := 0; vz := 0 |};
     yAxis := {| vx := 0; vy := 1; vz := 0 |};
     zAxis := {| vx := 0; vy := 0; vz := 1 |} |}.

Definition square (h : Q) : BoundingBox3D :=
  {| minPoint := {| px := - h; py := - h; pz := 0 |};
     maxPoint := {| px := h; py := h; pz := 0 |} |}.

(** The bore circle of an M3 insert (radius 2.2mm) at the origin of
    sketch 1, with the area the host reports for it. *)
Definition boreCircle : SketchCircle :=
  {| circle_id := 7; parentSketch := 1; centerSketchPoint := worldOrigin;
     radius := 0.22; area := 0.152 |}.

(** A sketch whose only profile is the disc of the circle. *)
Definition disc : Profile :=
  {| prof_id := 1; prof_area := 0.152; prof_centroid := worldOrigin;
     prof_boundingBox := square 0.22 |}.

Definition plainSketch : Sketch :=
  {| sketch_id := 1; transform := worldXY; profiles := [disc] |}.

(** The same sketch under another identity. *)
Definition otherSketch : Sketch :=
  {| sketch_id := 2; transform := worldXY; profiles := [disc] |}.

(** The disc cut by a chord into two segments, next to a sliver outside
    the circle whose centroid is within the radius. *)
Definition largeSegment : Profile :=
  {| prof_id := 1; prof_area := 0.1;
     prof_centroid := {| px := - 0.05; py := 0; pz := 0 |};
     prof_boundingBox :=
       {| minPoint := {| px := - 0.22; py := - 0.22; pz := 0 |};
          maxPoint := {| px := 0.06; py := 0.22; pz := 0 |} |} |}.

Definition smallSegment : Profile :=
  {| prof_id := 2; prof_area := 0.052;
     prof_centroid := {| px := 0.12; py := 0; pz := 0 |};
     prof_boundingBox :=
       {| minPoint := {| px := 0.06; py := - 0.21; pz := 0 |};
          maxPoint := {| px := 0.22; py := 0.21; pz := 0 |} |} |}.

Definition sliver : Profile :=
  {| prof_id := 3; prof_area := 0.03;
     prof_centroid := {| px := 0; py := 0.2; pz := 0 |};
     prof_boundingBox :=
       {| minPoint := {| px := - 0.3; py := 0.1; pz := 0 |};
          maxPoint := {| px := 0.3; py := 0.3; pz := 0 |} |} |}.

Definition chordSketch : Sketch :=
  {| sketch_id := 1; transform := worldXY;
     profiles := [smallSegment; sliver; largeSegment] |}.

Definition chordCandidates : list Candidate :=
  sortByAreaDesc (coarseFilter exactDistanceTo boreCircle (profiles chordSketch)).

(** A circle of area 100 over a single profile of the given area. *)
Definition wideCircle : SketchCircle :=
  {| circle_id := 7; parentSketch := 1; centerSketchPoint := worldOrigin;
     radius := 5.64; area := 100 |}.

Definition profileOfArea (a : Q) : Profile :=
  {| prof_id := 1; prof_area := a; prof_centroid := worldOrigin;
     prof_boundingBox := square 5.64 |}.

Definition sketchOfArea (a : Q) : Sketch :=
  {| sketch_id := 1; transform := worldXY; profiles := [profileOfArea a] |}.

(** Sixteen concentric regions tiling a circle of radius 2.08mm: the
    innermost disc and fifteen rings, of areas 0.016, 0.015, ..., 0.001
    (cm^2), their centroids at the center. *)
Definition ring (i : nat) : Profile :=
  {| prof_id := i;
     prof_area := inject_Z (17 - Z.of_nat i) / 1000;
     prof_centroid := worldOrigin;
     prof_boundingBox := square (inject_Z (17 - Z.of_nat i) * 0.013) |}.

Definition ringCircle : SketchCircle :=
  {| circle_id := 7; parentSketch := 1; centerSketchPoint := worldOrigin;
     radius := 0.208; area := 0.136 |}.

Definition ringSketch : Sketch :=
  {| sketch_id := 1; transform := worldXY; profiles := map ring (seq 1 16) |}.

(** The disc with a small cap cut off by a chord near its edge, inside
    fourteen thin rings around the circle (areas 0.015, ..., 0.002). *)
Definition bigPart : Profile :=
  {| prof_id := 1; prof_area := 0.151;
     prof_centroid := {| px := - 0.001; py := 0; pz := 0 |};
     prof_boundingBox :=
       {| minPoint := {| px := - 0.22; py := - 0.22; pz := 0 |};
          maxPoint := {| px := 0.21; py := 0.22; pz := 0 |} |} |}.

Definition cap : Profile :=
  {| prof_id := 2; prof_area := 0.001;
     prof_centroid := {| px := 0.215; py := 0; pz := 0 |};
     prof_boundingBox :=
       {| minPoint := {| px := 0.21; py := - 0.05; pz := 0 |};
          maxPoint := {| px := 0.22; py := 0.05; pz := 0 |} |} |}.

Definition outerRing (k : nat) : Profile :=
  {| prof_id := 2 + k;
     prof_area := inject_Z (16 - Z.of_nat k) / 1000;
     prof_centroid := worldOrigin;
     prof_boundingBox := square (0.22 + inject_Z (Z.of_nat k) * 0.01) |}.

Definition capSketch : Sketch :=
  {| sketch_id := 1; transform := worldXY;
     profiles := bigPart :: cap :: map outerRing (seq 1 14) |}.

End ResolverScenarios.

(** ** Example bodies *)

Module BodyScenarios.

Import ResolverScenarios.

(** A plate lying on the sketch plane of [worldXY]: the material is
    [0 <= z <= T]. *)
Definition slabContainment (T : Q) (p : Point3D) : PointContainment :=
  if Qltb (pz p) 0 then PointOutsidePointContainment
  else if Qleb (pz p) 0 then PointOnPointContainment
  else if Qltb (pz p) T then PointInsidePointContainment
  else if Qleb (pz p) T then PointOnPointContainment
  else PointOutsidePointContainment.

Definition slab (T : Q) : BRepBody :=
  {| pointContainment := slabContainment T; edges := [] |}.

(** Material on both sides of the sketch plane: [-1 <= z <= 1]. *)
Definition embeddingContainment (p : Point3D) : PointContainment :=
  if Qltb (pz p) (-1) then PointOutsidePointContainment
  else if Qleb (pz p) (-1) then PointOnPointContainment
  else if Qltb (pz p) 1 then PointInsidePointContainment
  else if Qleb (pz p) 1 then PointOnPointContainment
  else PointOutsidePointContainment.

Definition embedding : BRepBody :=
  {| pointContainment := embeddingContainment; edges := [] |}.

(** Material below the sketch plane ([-1 <= z <= 0]) and a lip above a
    gap of 0.5mm ([0.05 <= z <= 0.3]). *)
Definition lippedContainment (p : Point3D) : PointContainment :=
  match slabContainment 0.25 {| px := px p; py := py p; pz := pz p - 0.05 |},
        slabContainment 1 {| px := px p; py := py p; pz := pz p + 1 |} with
  | PointInsidePointContainment, _ | _, PointInsidePointContainment =>
      PointInsidePointContainment
  | PointOnPointContainment, _ | _, PointOnPointContainment =>
      PointOnPointContainment
  | _, _ => PointOutsidePointContainment
  end.

Definition lipped : BRepBody :=
  {| pointContainment := lippedContainment; edges := [] |}.

(** A body away from the sketch plane: [5 <= z <= 6]. *)
Definition remote : BRepBody :=
  {| pointContainment :=
       fun p => slabContainment 1 {| px := px p; py := py p; pz := pz p - 5 |};
     edges := [] |}.

Definition xyOrigin : Point2D := {| x2 := 0; y2 := 0 |}.

Definition zUp : Vector3D := {| vx := 0; vy := 0; vz := 1 |}.

Definition circleEdge (id : nat) (x z r : Q) : BRepEdge :=
  {| edge_id := id;
     geometry := Circle3D {| px := x; py := 0; pz := z |} zUp r |}.

(** The 10mm plate after an M3 blind bore of 6.7mm at the origin: the rim
    of the bore, the edge of its floor, and a straight edge of the plate. *)
Definition entryRim : BRepEdge := circleEdge 1 0 0 0.22.
Definition floorRim : BRepEdge := circleEdge 2 0 0.67 0.22.
Definition plateEdge : BRepEdge := {| edge_id := 3; geometry := OtherCurve3D |}.

Definition boredPlate : BRepBody :=
  {| pointContainment := slabContainment 1;
     edges := [plateEdge; floorRim; entryRim] |}.

(** The rim of another bore of the same radius, 1.92mm down and 0.56mm off
    the axis. *)
Definition offAxisRim : BRepEdge := circleEdge 4 0.056 0.192 0.22.

Definition offAxisBody : BRepBody :=
  {| pointContainment := slabContainment 1; edges := [offAxisRim] |}.

End BodyScenarios.

(** ** An example host for the orchestrator *)

Module OrchestratorScenarios.

Import ProfileResolver Orchestrator ResolverScenarios BodyScenarios.

(** Sketches 1 and 2 lie on top of a 10mm plate; sketch 3 floats 5cm
    under it. *)
Definition exampleTransformOf (sid : nat) : Matrix3D :=
  if Nat.eqb sid 3 then
    {| origin := {| px := 0; py := 0; pz := - 5 |};
       xAxis := xAxis worldXY; yAxis := yAxis worldXY; zAxis := zAxis worldXY |}
  else worldXY.

(** Every circle drawn in a sketch bounds one profile, its disc; sketch 2
    is shown by the host without profiles. *)
Definition discOf (c : SketchCircle) : Profile :=
  {| prof_id := circle_id c; prof_area := area c;
     prof_centroid := centerSketchPoint c;
     prof_boundingBox :=
       {| minPoint := {| px := px (centerSketchPoint c) - radius c;
                         py := py (centerSketchPoint c) - radius c; pz := 0 |};
          maxPoint := {| px := px (centerSketchPoint c) + radius c;
                         py := py (centerSketchPoint c) + radius c; pz := 0 |} |} |}.

Definition exampleProfilesOf (d : Design) (sid : nat) : list Profile :=
  if Nat.eqb sid 2 then []
  else map discOf (List.filter (fun c => Nat.eqb (parentSketch c) sid) (sketchCircles d)).

(** The plate, with the rims of the bore once it is cut. *)
Definition exampleBodyOf (d : Design) : BRepBody :=
  match extrudeFeatures d with
  | [] => slab 1
  | _ => boredPlate
  end.

Definition exampleCircleArea (r : Q) : Q := 3.1416 * r * r.

Definition emptyDesign : Design :=
  {| sketchCircles := []; geometricConstraints := []; extrudeFeatures := [];
     chamferFeatures := []; filletFeatures := []; nextId := 10 |}.

Definition pointOn (id sid : nat) : SketchPoint :=
  {| point_id := id; point_parentSketch := sid; point_geometry := xyOrigin |}.

(** E2E-1: one point, insert M3 x 5.7mm (standard), blind hole. *)
Definition blindM3 : CommandInputs :=
  {| selectedPoints := [pointOn 1 1];
     insertName := "M3 x 5.7mm (standard)";
     isBlindHole := true; addChamfer := true; addBottomRadius := true |}.

(** Three points: one that can be bored, one without a profile, one
    without a direction. *)
Definition mixedBatch : CommandInputs :=
  {| selectedPoints := [pointOn 2 2; pointOn 1 1; pointOn 3 3];
     insertName := "M3 x 5.7mm (standard)";
     isBlindHole := true; addChamfer := false; addBottomRadius := false |}.

Definition exampleNotify (inputs : CommandInputs) (d : Design) : Result Batch :=
  notify exampleTransformOf exampleProfilesOf exampleBodyOf exampleCircleArea
         exactDistanceTo exactLength Qsqrt_exact get_default_inserts CONFIG inputs d.

End OrchestratorScenarios.

(** ** 4.6 The text of the dialog: [updateInfoText] *)

Module InfoText.

Import Orchestrator.

(** The hole depth of the text: a number of mm, or the words
    'Through body'. *)
Inductive HoleDepth :=
| DepthMm (mm : Q)
| ThroughBody.

Record Info := mkInfo
  { info_holeDia : Q;
    info_insertLen : Q;
    info_holeDepth : HoleDepth;
    info_minWall : Q }.

Section WithCatalog.

Variable INSERT_SPECS : gmap string (Q * Q * Q).
Variable settings : Settings.

(** The text that is set; [None] when the lookup raises, which the
    function passes over, leaving the text as it was. *)
Definition updateInfoText (inputs : CommandInputs) : option Info :=
  match INSERT_SPECS !! insertName inputs with
  | None => None
  | Some (holeDia, insertLen, minWall) =>
      let holeDepth :=
        if isBlindHole inputs
        then DepthMm (insertLen + blind_hole_extra_depth settings)
        else ThroughBody in
      Some {| info_holeDia := holeDia; info_insertLen := insertLen;
              info_holeDepth := holeDepth; info_minWall := minWall |}
  end.

End WithCatalog.

End InfoText.

(** ** 4.7 Configuration loader: [load_config], and the insert dropdown of
       [CommandCreatedHandler.notify]

    What [configparser] has read of [config.ini] is the input: the sections
    in file order, each with its options in file order.  A read that raises
    is the other input.  [str.strip], [float] and the reading of a boolean
    are parameters; [str.split(',')] and [str.startswith('#')] are written
    out on the bytes of the string.

    The numbers of the file are whatever [float] makes of the text, so they
    are modelled with the infinities and nan, unlike the numbers of the
    engine; a comparison with nan is false. *)

Module ConfigLoader.

Inductive PyFloat :=
| Finite (q : Q)
| PosInf
| NegInf
| NaN.

(** [x <= c], [x < c] and [x > c] for a finite constant [c]. *)
Definition fle (x : PyFloat) (c : Q) : bool :=
  match x with
  | Finite q => Qleb q c
  | NegInf => true
  | PosInf | NaN => false
  end.

Definition flt (x : PyFloat) (c : Q) : bool :=
  match x with
  | Finite q => Qltb q c
  | NegInf => true
  | PosInf | NaN => false
  end.

Definition fgt (x : PyFloat) (c : Q) : bool :=
  match x with
  | Finite q => Qgtb q c
  | PosInf => true
  | NegInf | NaN => false
  end.

(** (hole diameter, insert length, minimum wall) as read from the file. *)
Definition InsertSpec : Type := PyFloat * PyFloat * PyFloat.

(** A Python dict with string keys: the items in insertion order; setting
    a key that is there keeps its place. *)
Fixpoint dict_set {V : Type} (d : list (string * V)) (k : string) (v : V)
  : list (string * V) :=
  match d with
  | [] => [(k, v)]
  | (k', v') :: rest =>
      if String.eqb k' k then (k', v) :: rest else (k', v') :: dict_set rest k v
  end.

Fixpoint dict_get {V : Type} (d : list (string * V)) (k : string) : option V :=
  match d with
  | [] => None
  | (k', v') :: rest => if String.eqb k' k then Some v' else dict_get rest k
  end.

Definition keys {V : Type} (d : list (string * V)) : list string := map fst d.

(** The parser after [config.read]. *)
Definition RawConfigParser : Type := list (string * list (string * string)).

Definition has_section (config : RawConfigParser) (section : string) : bool :=
  match dict_get config section with
  | Some _ => true
  | None => false
  end.

Definition options (config : RawConfigParser) (section : string) : list string :=
  match dict_get config section with
  | Some opts => keys opts
  | None => []
  end.

(** [None] is [NoSectionError] or [NoOptionError]. *)
Definition get (config : RawConfigParser) (section opt : string) : option string :=
  match dict_get config section with
  | Some opts => dict_get opts opt
  | None => None
  end.

Definition startswith_hash (s : string) : bool :=
  match s with
  | String c _ => Ascii.eqb c "#"%char
  | EmptyString => false
  end.

(** [s.split(',')] *)
Fixpoint split_comma (s : string) : list string :=
  match s with
  | EmptyString => [EmptyString]
  | String c rest =>
      if Ascii.eqb c ","%char then EmptyString :: split_comma rest
      else match split_comma rest with
           | part :: parts => String c part :: parts
           | [] => [String c EmptyString]
           end
  end.

(** The numeric and boolean keys of [CONFIG], with the two keys that are
    only there once a [Settings] section has been loaded. *)
Record ConfigDict := mkConfigDict
  { chamfer_size : PyFloat;
    blind_hole_extra_depth : PyFloat;
    chamfer_enabled_default : bool;
    bottom_radius_size : PyFloat;
    bottom_radius_enabled_default : bool;
    show_success_message : bool;
    enable_logging : bool;
    hole_type_blind : option bool;
    last_selected_insert : option string }.

Definition CONFIG : ConfigDict :=
  {| chamfer_size := Finite 0.5;
     blind_hole_extra_depth := Finite 1.0;
     chamfer_enabled_default := true;
     bottom_radius_size := Finite 0.5;
     bottom_radius_enabled_default := false;
     show_success_message := true;
     enable_logging := false;
     hole_type_blind := None;
     last_selected_insert := None |}.

(** [get_default_inserts()], in the order it is written. *)
Definition default_items : list (string * (Q * Q * Q)) :=
  [ ("M2 x 3mm"%string, (3.2, 3.0, 1.5));
    ("M2.5 x 4mm"%string, (4.0, 4.0, 1.5));
    ("M3 x 3mm (short)"%string, (4.4, 3.0, 1.6));
    ("M3 x 4mm (short)"%string, (4.4, 4.0, 1.6));
    ("M3 x 5.7mm (standard)"%string, (4.4, 5.7, 1.6));
    ("M4 x 4mm (short)"%string, (5.6, 4.0, 2.0));
    ("M4 x 8.1mm (standard)"%string, (5.6, 8.1, 2.0));
    ("M5 x 5.8mm (short)"%string, (6.4, 5.8, 2.5));
    ("M5 x 9.5mm (standard)"%string, (6.4, 9.5, 2.5));
    ("M6 x 12.7mm"%string, (8.0, 12.7, 3.0));
    ("M8 x 12.7mm"%string, (9.7, 12.7, 4.0));
    ("M10 x 12.7mm"%string, (12.0, 12.7, 5.0));
    (String.append "1/4" (String "034"%char "-20 x 12.7mm (camera)"), (8.0, 12.7, 3.0)) ].

Definition finiteSpec (spec : Q * Q * Q) : InsertSpec :=
  let '(hole_dia, insert_len, min_wall) := spec in
  (Finite hole_dia, Finite insert_len, Finite min_wall).

Definition default_inserts : list (string * InsertSpec) :=
  map (fun item => (fst item, finiteSpec (snd item))) default_items.

Inductive Warning :=
| UnusualChamferSize (chamfer : PyFloat)
| InvalidChamferSize
| UnusualExtraDepth (extra_depth : PyFloat)
| InvalidExtraDepth
| InvalidChamferEnabledDefault
| UnusualBottomRadius (bottom_radius : PyFloat)
| InvalidBottomRadiusSize
| InvalidBottomRadiusEnabledDefault
| InvalidShowSuccessMessage
| WrongValueCount (name : string) (count : nat)
| InvalidHoleDiameter (name : string) (hole_dia : PyFloat)
| InvalidInsertLength (name : string) (insert_len : PyFloat)
| InvalidMinWall (name : string) (min_wall : PyFloat)
| InvalidNumberFormat (name : string)
| ErrorReadingValues (name : string)
| UsingDefaultSpecifications.

Inductive Error :=
| NoValidInserts.

(** The insert a warning is about. *)
Definition warnedInsert (w : Warning) : option string :=
  match w with
  | WrongValueCount name _ | InvalidHoleDiameter name _ | InvalidInsertLength name _
  | InvalidMinWall name _ | InvalidNumberFormat name | ErrorReadingValues name => Some name
  | _ => None
  end.

(** What [load_config] leaves behind: the two globals, and what it put in
    its message box. *)
Record Loaded := mkLoaded
  { INSERT_SPECS : list (string * InsertSpec);
    loadedCONFIG : ConfigDict;
    errors : list Error;
    warnings : list Warning;
    readFailed : bool }.

Section WithParsers.

Variable strip : string -> string.
(** [float(s)]; [None] is [ValueError]. *)
Variable float : string -> option PyFloat.
(** The boolean a value stands for; [None] is [ValueError]. *)
Variable boolean : string -> option bool.

Definition getfloat (config : RawConfigParser) (section opt : string)
  (fallback : PyFloat) : Result PyFloat :=
  match get config section opt with
  | None => Ok fallback
  | Some value =>
      match float value with
      | Some x => Ok x
      | None => Raised "ValueError"
      end
  end.

Definition getboolean (config : RawConfigParser) (section opt : string)
  (fallback : bool) : Result bool :=
  match get config section opt with
  | None => Ok fallback
  | Some value =>
      match boolean value with
      | Some b => Ok b
      | None => Raised "ValueError"
      end
  end.

Definition load_chamfer_size (config : RawConfigParser) : PyFloat * list Warning :=
  match getfloat config "Settings" "chamfer_size" (Finite 0.5) with
  | Ok chamfer =>
      if fle chamfer 0 || fgt chamfer 5.0
      then (Finite 0.5, [UnusualChamferSize chamfer])
      else (chamfer, [])
  | Raised _ => (Finite 0.5, [InvalidChamferSize])
  end.

Definition load_blind_hole_extra_depth (config : RawConfigParser)
  : PyFloat * list Warning :=
  match getfloat config "Settings" "blind_hole_extra_depth" (Finite 1.0) with
  | Ok extra_depth =>
      if flt extra_depth 0 || fgt extra_depth 10.0
      then (Finite 1.0, [UnusualExtraDepth extra_depth])
      else (extra_depth, [])
  | Raised _ => (Finite 1.0, [InvalidExtraDepth])
  end.

Definition load_bottom_radius_size (config : RawConfigParser) : PyFloat * list Warning :=
  match getfloat config "Settings" "bottom_radius_size" (Finite 0.5) with
  | Ok bottom_radius =>
      if flt bottom_radius 0 || fgt bottom_radius 5.0
      then (Finite 0.5, [UnusualBottomRadius bottom_radius])
      else (bottom_radius, [])
  | Raised _ => (Finite 0.5, [InvalidBottomRadiusSize])
  end.

(** A boolean key: the value read, or the default with the warning given. *)
Definition load_boolean (config : RawConfigParser) (opt : string) (fallback : bool)
  (onError : list Warning) : bool * list Warning :=
  match getboolean config "Settings" opt fallback with
  | Ok b => (b, [])
  | Raised _ => (fallback, onError)
  end.

Definition load_settings (config : RawConfigParser) (cfg : ConfigDict)
  : ConfigDict * list Warning :=
  if has_section config "Settings" then
    let '(chamfer, w1) := load_chamfer_size config in
    let '(extra_depth, w2) := load_blind_hole_extra_depth config in
    let '(chamfer_enabled, w3) :=
      load_boolean config "chamfer_enabled_default" true [InvalidChamferEnabledDefault] in
    let '(bottom_radius, w4) := load_bottom_radius_size config in
    let '(bottom_radius_enabled, w5) :=
      load_boolean config "bottom_radius_enabled_default" false
                   [InvalidBottomRadiusEnabledDefault] in
    let '(show_message, w6) :=
      load_boolean config "show_success_message" true [InvalidShowSuccessMessage] in
    let '(blind, _) := load_boolean config "hole_type_blind" true [] in
    let '(logging, _) := load_boolean config "enable_logging" false [] in
    ({| chamfer_size := chamfer;
        blind_hole_extra_depth := extra_depth;
        chamfer_enabled_default := chamfer_enabled;
        bottom_radius_size := bottom_radius;
        bottom_radius_enabled_default := bottom_radius_enabled;
        show_success_message := show_message;
        enable_logging := logging;
        hole_type_blind := Some blind;
        last_selected_insert :=
          Some (match get config "Settings" "last_selected_insert" with
                | Some value => value
                | None => "M3 x 5.7mm (standard)"%string
                end) |},
     w1 ++ w2 ++ w3 ++ w4 ++ w5 ++ w6)
  else (cfg, []).

(** One turn of the loop over the options of [Inserts]. *)
Definition load_insert (config : RawConfigParser)
  (st : list (string * InsertSpec) * list Warning) (name : string)
  : list (string * InsertSpec) * list Warning :=
  let '(specs, warned) := st in
  if startswith_hash name then st
  else
    match get config "Inserts" name with
    | None => (specs, warned ++ [ErrorReadingValues name])
    | Some values =>
        if String.eqb (strip values) "" || startswith_hash (strip values) then st
        else
          let parts := map strip (split_comma values) in
          match parts with
          | [part0; part1; part2] =>
              match float part0, float part1, float part2 with
              | Some hole_dia, Some insert_len, Some min_wall =>
                  if fle hole_dia 0 || fgt hole_dia 50
                  then (specs, warned ++ [InvalidHoleDiameter name hole_dia])
                  else if fle insert_len 0 || fgt insert_len 100
                  then (specs, warned ++ [InvalidInsertLength name insert_len])
                  else if flt min_wall 0 || fgt min_wall 20
                  then (specs, warned ++ [InvalidMinWall name min_wall])
                  else (dict_set specs name (hole_dia, insert_len, min_wall), warned)
              | _, _, _ => (specs, warned ++ [InvalidNumberFormat name])
              end
          | _ => (specs, warned ++ [WrongValueCount name (length parts)])
          end
    end.

Definition load_inserts (config : RawConfigParser)
  : list (string * InsertSpec) * list Warning :=
  if has_section config "Inserts"
  then fold_left (load_insert config) (options config "Inserts") ([], [])
  else ([], []).

(** [load_config], from the reading of the file on; [cfg] is [CONFIG] as
    the call finds it. *)
Definition load_config (file : Result RawConfigParser) (cfg : ConfigDict) : Loaded :=
  match file with
  | Ok config =>
      let '(cfg', w1) := load_settings config cfg in
      let '(specs, w2) := load_inserts config in
      match specs with
      | [] =>
          {| INSERT_SPECS := default_inserts; loadedCONFIG := cfg';
             errors := [NoValidInserts];
             warnings := w1 ++ w2 ++ [UsingDefaultSpecifications];
             readFailed := false |}
      | _ :: _ =>
          {| INSERT_SPECS := specs; loadedCONFIG := cfg';
             errors := []; warnings := w1 ++ w2; readFailed := false |}
      end
  | Raised _ =>
      {| INSERT_SPECS := default_inserts; loadedCONFIG := cfg;
         errors := []; warnings := []; readFailed := true |}
  end.

End WithParsers.

(** *** The insert dropdown *)

Record ListItem := mkListItem
  { item_name : string;
    isSelected : bool }.

(** The loop that adds the names: the items so far, and [foundLastSelected]. *)
Definition addItem (lastSelected : string) (st : list ListItem * bool) (name : string)
  : list ListItem * bool :=
  let '(insertList, foundLastSelected) := st in
  let selected := String.eqb name lastSelected in
  (insertList ++ [{| item_name := name; isSelected := selected |}],
   if selected then true else foundLastSelected).

Definition selectFirst (insertList : list ListItem) : list ListItem :=
  match insertList with
  | first :: rest => {| item_name := item_name first; isSelected := true |} :: rest
  | [] => []
  end.

Definition insertDropdown (cfg : ConfigDict) (specs : list (string * InsertSpec))
  : list ListItem :=
  let lastSelected :=
    match last_selected_insert cfg with
    | Some name => name
    | None => "M3 x 5.7mm (standard)"%string
    end in
  let '(insertList, foundLastSelected) :=
    fold_left (addItem lastSelected) (keys specs) ([], false) in
  if negb foundLastSelected && (0 <? length insertList)%nat
  then selectFirst insertList
  else insertList.

End ConfigLoader.

(** A reader of plain decimals and of [nan], and the stripping of blanks,
    to run the loader on examples. *)
Module LoaderScenarios.

Import ConfigLoader.

Definition digit (c : Ascii.ascii) : option Z :=
  let n := (Z.of_nat (Ascii.nat_of_ascii c) - 48)%Z in
  if ((0 <=? n) && (n <=? 9))%Z then Some n else None.

Fixpoint readDecimal (s : string) (seenPoint : bool) (num : Z) (den : positive)
  : option Q :=
  match s with
  | EmptyString => Some (num # den)
  | String c rest =>
      if Ascii.eqb c "."%char
      then if seenPoint then None else readDecimal rest true num den
      else match digit c with
           | Some n =>
               readDecimal rest seenPoint (10 * num + n)%Z
                           (if seenPoint then (10 * den)%positive else den)
           | None => None
           end
  end.

Definition exampleFloat (s : string) : option PyFloat :=
  if String.eqb s "nan" then Some NaN
  else if String.eqb s "" then None
  else option_map Finite (readDecimal s false 0 1).

Fixpoint lstrip (s : string) : string :=
  match s with
  | String c rest => if Ascii.eqb c " "%char then lstrip rest else s
  | EmptyString => EmptyString
  end.

Fixpoint rstrip (s : string) : string :=
  match s with
  | String c rest =>
      let r := rstrip rest in
      if Ascii.eqb c " "%char && String.eqb r "" then EmptyString else String c r
  | EmptyString => EmptyString
  end.

Definition exampleStrip (s : string) : string := rstrip (lstrip s).

Definition exampleBoolean (s : string) : option bool :=
  if String.eqb s "True" then Some true
  else if String.eqb s "False" then Some false
  else None.

Definition exampleLoad : Result RawConfigParser -> ConfigDict -> Loaded :=
  load_config exampleStrip exampleFloat exampleBoolean.

(** A file with a chamfer size out of range, a good insert, a comment, an
    insert with two numbers and one with a length out of range. *)
Definition editedFile : RawConfigParser :=
  [ ("Settings"%string,
     [ ("chamfer_size"%string, "7.5"%string);
       ("blind_hole_extra_depth"%string, "2.0"%string);
       ("last_selected_insert"%string, "My M3"%string) ]);
    ("Inserts"%string,
     [ ("M2 x 3mm"%string, "3.2, 3.0, 1.5"%string);
       ("My M3"%string, " 4.5,6.0 , 1.6"%string);
       ("#My M4"%string, "5.7, 9.0, 2.0"%string);
       ("Short"%string, "4.0, 4.0"%string);
       ("Long"%string, "4.0, 400, 1.5"%string) ]) ].

(** A file whose only insert has [nan] for every number. *)
Definition nanFile : RawConfigParser :=
  [ ("Inserts"%string, [ ("Odd"%string, "nan, nan, nan"%string) ]) ].

End LoaderScenarios.

(* ===================================================================== *)
(** * Part II: properties *)
(* ===================================================================== *)

(** ** Comparisons *)

Module NumFacts.

Lemma Qleb_le (x y : Q) : Qleb x y = true <-> x <= y.
Proof. apply Qle_bool_iff. Qed.

Lemma Qleb_gt (x y : Q) : Qleb x y = false <-> y < x.
Proof.
  unfold Qleb. split; intros H.
  - apply Qnot_le_lt. intros Hle. apply Qle_bool_iff in Hle. congruence.
  - destruct (Qle_bool x y) eqn:E; [|reflexivity].
    apply Qle_bool_iff in E. apply Qlt_not_le in H. contradiction.
Qed.

Lemma Qltb_lt (x y : Q) : Qltb x y = true <-> x < y.
Proof.
  unfold Qltb. rewrite negb_true_iff. apply (Qleb_gt y x).
Qed.

Lemma Qltb_ge (x y : Q) : Qltb x y = false <-> y <= x.
Proof.
  unfold Qltb. rewrite negb_false_iff. apply (Qleb_le y x).
Qed.

Lemma Qgtb_gt (x y : Q) : Qgtb x y = true <-> y < x.
Proof. apply Qltb_lt. Qed.

Lemma Qgtb_le (x y : Q) : Qgtb x y = false <-> x <= y.
Proof. apply Qltb_ge. Qed.

Lemma Qgeb_ge (x y : Q) : Qgeb x y = true <-> y <= x.
Proof. apply Qleb_le. Qed.

Lemma Qgeb_lt (x y : Q) : Qgeb x y = false <-> x < y.
Proof. apply Qleb_gt. Qed.

(** Bounds on all the elements of a concrete list, by evaluation. *)
Lemma Forall_Qltb {A : Type} (f g : A -> Q) (l : list A) :
  forallb (fun x => Qltb (f x) (g x)) l = true -> Forall (fun x => f x < g x) l.
Proof.
  intros H. apply List.Forall_forall. intros x Hx. apply Qltb_lt.
  rewrite forallb_forall in H. exact (H x Hx).
Qed.

Lemma Forall_Qleb {A : Type} (f g : A -> Q) (l : list A) :
  forallb (fun x => Qleb (f x) (g x)) l = true -> Forall (fun x => f x <= g x) l.
Proof.
  intros H. apply List.Forall_forall. intros x Hx. apply Qleb_le.
  rewrite forallb_forall in H. exact (H x Hx).
Qed.

End NumFacts.
Import NumFacts.

(** ** The sort *)

Module PySortFacts.

(** [x] may stand before [y]: not after it in the order of the sort. *)
Definition mayPrecede (reverse : bool) (kx ky : Q) : Prop :=
  if reverse then ky <= kx else kx <= ky.

Lemma goesFirst_mayPrecede reverse kx ky :
  goesFirst reverse kx ky = true -> mayPrecede reverse kx ky.
Proof.
  destruct reverse; simpl; intros H.
  - now apply Qgeb_ge.
  - now apply Qleb_le.
Qed.

Lemma not_goesFirst_mayPrecede reverse kx ky :
  goesFirst reverse kx ky = false -> mayPrecede reverse ky kx.
Proof.
  destruct reverse; simpl; intros H.
  - apply Qgeb_lt in H. now apply Qlt_le_weak.
  - apply Qleb_gt in H. now apply Qlt_le_weak.
Qed.

Lemma mayPrecede_refl reverse k : mayPrecede reverse k k.
Proof. destruct reverse; simpl; apply Qle_refl. Qed.

Lemma mayPrecede_trans reverse a b c :
  mayPrecede reverse a b -> mayPrecede reverse b c -> mayPrecede reverse a c.
Proof.
  destruct reverse; simpl; intros H1 H2.
  - now apply Qle_trans with b.
  - now apply Qle_trans with b.
Qed.

Section Sorting.

Context {A : Type} (key : A -> Q) (reverse : bool).

Lemma insertBy_In (x : A) (l : list A) (z : A) :
  In z (insertBy key reverse x l) <-> z = x \/ In z l.
Proof.
  induction l as [|y l IH]; simpl.
  - intuition.
  - destruct (goesFirst reverse (key x) (key y)); simpl.
    + intuition.
    + rewrite IH. intuition.
Qed.

Lemma sortByKey_In (l : list A) (z : A) :
  In z (sortByKey key reverse l) <-> In z l.
Proof.
  induction l as [|x l IH]; simpl.
  - reflexivity.
  - rewrite insertBy_In, IH. intuition.
Qed.

Lemma insertBy_length (x : A) (l : list A) :
  length (insertBy key reverse x l) = S (length l).
Proof.
  induction l as [|y l IH]; simpl; [reflexivity|].
  destruct (goesFirst reverse (key x) (key y)); simpl; congruence.
Qed.

Lemma sortByKey_length (l : list A) :
  length (sortByKey key reverse l) = length l.
Proof.
  induction l as [|x l IH]; simpl; [reflexivity|].
  now rewrite insertBy_length, IH.
Qed.

(** The head of a list may precede every element of it. *)
Definition headFirst (l : list A) : Prop :=
  match l with
  | [] => True
  | x :: _ => forall z, In z l -> mayPrecede reverse (key x) (key z)
  end.

Lemma insertBy_headFirst (x : A) (l : list A) :
  headFirst l -> headFirst (insertBy key reverse x l).
Proof.
  destruct l as [|y l]; simpl.
  - intros _ z [->|[]]. apply mayPrecede_refl.
  - intros Hy. destruct (goesFirst reverse (key x) (key y)) eqn:E.
    + intros z [->|Hz].
      * apply mayPrecede_refl.
      * apply mayPrecede_trans with (key y).
        -- now apply goesFirst_mayPrecede.
        -- now apply Hy.
    + intros z [->|Hz].
      * apply mayPrecede_refl.
      * apply insertBy_In in Hz. destruct Hz as [->|Hz].
        -- now apply not_goesFirst_mayPrecede.
        -- apply Hy. now right.
Qed.

Lemma sortByKey_headFirst (l : list A) : headFirst (sortByKey key reverse l).
Proof.
  induction l as [|x l IH]; simpl; [exact I|].
  now apply insertBy_headFirst.
Qed.

Lemma sortByKey_nonempty (l : list A) : l <> [] -> sortByKey key reverse l <> [].
Proof.
  intros Hl Hs. apply (f_equal (@length A)) in Hs.
  rewrite sortByKey_length in Hs. destruct l; [congruence|discriminate].
Qed.

End Sorting.

End PySortFacts.
Import PySortFacts.

(** ** The profile resolver *)

Module ProfileResolverFacts.

Import ProfileResolver.

(** *** Combinations *)

Lemma combinations_0 {A : Type} (l : list A) : combinations l 0 = [[]].
Proof. destruct l; reflexivity. Qed.

Lemma combinations_length {A : Type} (l : list A) (r : nat) (c : list A) :
  In c (combinations l r) -> length c = r.
Proof.
  revert r c. induction l as [|x l IH]; intros [|r] c; simpl.
  - intros [<-|[]]. reflexivity.
  - intros [].
  - intros [<-|[]]. reflexivity.
  - intros H. apply in_app_or in H. destruct H as [H|H].
    + apply in_map_iff in H. destruct H as (c' & <- & Hc').
      simpl. f_equal. now apply IH.
    + now apply IH in H.
Qed.

Lemma combinations_sublist {A : Type} (l : list A) (r : nat) (c : list A) :
  In c (combinations l r) -> sublist c l.
Proof.
  revert r c. induction l as [|x l IH]; intros [|r] c; simpl.
  - intros [<-|[]]. constructor.
  - intros [].
  - intros [<-|[]]. apply sublist_nil_l.
  - intros H. apply in_app_or in H. destruct H as [H|H].
    + apply in_map_iff in H. destruct H as (c' & <- & Hc').
      apply sublist_skip. now apply IH with r.
    + apply sublist_cons. now apply IH with (S r).
Qed.

(** All combinations of the sizes [a], [a+1], ..., in the order of the search. *)
Definition enumeration {A : Type} (l : list A) (a n : nat) : list (list A) :=
  concat (map (combinations l) (seq a n)).

Lemma enumeration_sizes {A : Type} (l : list A) (n a : nat) (c : list A) :
  In c (enumeration l a n) -> (a <= length c < a + n)%nat.
Proof.
  unfold enumeration. revert a. induction n as [|n IH]; intros a; simpl.
  - intros [].
  - intros H. apply in_app_or in H. destruct H as [H|H].
    + apply combinations_length in H. lia.
    + apply IH in H. lia.
Qed.

(** Sizes never decrease along the enumeration. *)
Lemma enumeration_ordered {A : Type} (l : list A) (n a : nat)
  (pre post : list (list A)) (c : list A) :
  enumeration l a n = pre ++ c :: post ->
  Forall (fun c' => (length c' <= length c)%nat) pre.
Proof.
  unfold enumeration. revert a pre. induction n as [|n IH]; intros a pre; simpl.
  - intros H. destruct pre; discriminate.
  - intros H. apply app_eq_app in H. destruct H as (mid & [[H1 H2]|[H1 H2]]).
    + (* [pre] lies within the combinations of size [a] *)
      assert (Hc : (a <= length c)%nat).
      { destruct mid as [|m mid]; simpl in H2.
        - assert (Hc : In c (enumeration l (S a) n)).
          { unfold enumeration. rewrite <- H2. now left. }
          apply enumeration_sizes in Hc. lia.
        - inversion H2; subst m.
          assert (Hc : In c (combinations l a)).
          { rewrite H1. apply in_or_app. right. now left. }
          apply combinations_length in Hc. lia. }
      apply List.Forall_forall. intros c' Hc'.
      assert (Hin : In c' (combinations l a)).
      { rewrite H1. apply in_or_app. now left. }
      apply combinations_length in Hin. lia.
    + (* [c] lies in the later sizes *)
      subst pre. apply Forall_app. split.
      * apply List.Forall_forall. intros c' Hc'.
        apply combinations_length in Hc'.
        assert (Hc : In c (enumeration l (S a) n)).
        { unfold enumeration. rewrite H2. apply in_or_app. right. now left. }
        apply enumeration_sizes in Hc. lia.
      * now apply IH with (S a).
Qed.

Lemma enumeration_sublist {A : Type} (l : list A) (n a : nat) (c : list A) :
  In c (enumeration l a n) -> sublist c l.
Proof.
  unfold enumeration. intros Hin. apply in_concat in Hin.
  destruct Hin as (cs & Hcs & Hin). apply in_map_iff in Hcs.
  destruct Hcs as (r & <- & _). now apply combinations_sublist with r.
Qed.

(** The number of combinations of size at most [k]. *)
Fixpoint countUpTo {A : Type} (l : list A) (k : nat) : nat :=
  match k with
  | O => length (combinations l 0)
  | S k' => countUpTo l k' + length (combinations l k)
  end.

Lemma countUpTo_nil {A : Type} (k : nat) : countUpTo (@nil A) k = 1%nat.
Proof. induction k as [|k IH]; simpl; [reflexivity|]. rewrite IH. reflexivity. Qed.

Lemma countUpTo_cons {A : Type} (x : A) (l : list A) (k : nat) :
  countUpTo (x :: l) (S k) = (countUpTo l k + countUpTo l (S k))%nat.
Proof.
  induction k as [|k IH].
  - simpl. rewrite length_app, length_map, !combinations_0. simpl. lia.
  - change (countUpTo (x :: l) (S (S k)))
      with (countUpTo (x :: l) (S k) + length (combinations (x :: l) (S (S k))))%nat.
    rewrite IH.
    change (combinations (x :: l) (S (S k)))
      with (map (cons x) (combinations l (S k)) ++ combinations l (S (S k))).
    rewrite length_app, length_map.
    change (countUpTo l (S (S k)))
      with (countUpTo l (S k) + length (combinations l (S (S k))))%nat.
    change (countUpTo l (S k)) with (countUpTo l k + length (combinations l (S k)))%nat.
    lia.
Qed.

Lemma countUpTo_bound {A : Type} (l : list A) (k : nat) :
  (countUpTo l k <= 2 ^ length l)%nat.
Proof.
  revert k. induction l as [|x l IH]; intros k.
  - rewrite countUpTo_nil. simpl. lia.
  - destruct k as [|k].
    + simpl. pose proof (Nat.pow_nonzero 2 (length l)). lia.
    + rewrite countUpTo_cons. simpl length. rewrite Nat.pow_succ_r'.
      pose proof (IH k). pose proof (IH (S k)). lia.
Qed.

Lemma countUpTo_full {A : Type} (l : list A) (k : nat) :
  (length l <= k)%nat -> countUpTo l k = (2 ^ length l)%nat.
Proof.
  revert k. induction l as [|x l IH]; intros k Hk.
  - apply countUpTo_nil.
  - destruct k as [|k]; [simpl in Hk; lia|].
    rewrite countUpTo_cons. simpl length in *.
    rewrite (IH k), (IH (S k)) by lia. rewrite Nat.pow_succ_r'. lia.
Qed.

(** With more than [k] elements there are at least [2^(k+1) - 1]
    combinations of at most [k] of them. *)
Lemma countUpTo_over_cap {A : Type} (l : list A) (k : nat) :
  (k < length l)%nat -> (2 ^ S k <= S (countUpTo l k))%nat.
Proof.
  revert k. induction l as [|x l IH]; intros k Hk; [simpl in Hk; lia|].
  destruct k as [|k].
  - simpl. lia.
  - rewrite countUpTo_cons. simpl length in Hk.
    assert (Hk' : (k < length l)%nat) by lia.
    pose proof (IH k Hk') as H1.
    assert (H2 : (2 ^ S k <= countUpTo l (S k))%nat).
    { destruct (Nat.eq_dec (S k) (length l)) as [E|E].
      - rewrite (countUpTo_full l (S k)) by lia. rewrite E. lia.
      - assert (Hlt : (S k < length l)%nat) by lia.
        pose proof (IH (S k) Hlt) as H3. rewrite (Nat.pow_succ_r' 2 (S k)) in H3.
        pose proof (Nat.pow_nonzero 2 (S k)). lia. }
    rewrite (Nat.pow_succ_r' 2 (S k)). lia.
Qed.

Lemma combinations_1 {A : Type} (l : list A) :
  combinations l 1 = map (fun x => [x]) l.
Proof.
  induction l as [|x l IH]; simpl; [reflexivity|].
  rewrite combinations_0. simpl. now rewrite IH.
Qed.

(** Every element is, on its own, one of the combinations of the
    search, whatever its place in the list. *)
Lemma enumeration_singletons {A : Type} (l : list A) (x : A) :
  In x l -> In [x] (enumeration l 1 (Nat.min (length l) 15)).
Proof.
  intros Hx. destruct l as [|y l]; [destruct Hx|].
  unfold enumeration. simpl length.
  change (Nat.min (S (length l)) 15) with (S (Nat.min (length l) 14)).
  cbn [seq map concat]. apply in_or_app. left.
  rewrite combinations_1. now apply (in_map (fun x => [x])).
Qed.

Lemma enumeration_count {A : Type} (l : list A) (m : nat) :
  S (length (enumeration l 1 m)) = countUpTo l m.
Proof.
  unfold enumeration. induction m as [|m IH].
  - simpl. now rewrite combinations_0.
  - rewrite seq_S, map_app, concat_app, length_app. simpl.
    rewrite length_app. simpl. lia.
Qed.

(** *** The search loops *)

Section Search.

Variable target_area : Q.

(** The state holds the smallest difference among the combinations tried,
    together with a combination that has it. *)
Definition tracksBest (st : SearchState) : Prop :=
  match best st with
  | None => tried st = []
  | Some (best_profiles, best_difference) =>
      (exists combo, In combo (tried st) /\
                     best_profiles = map cand_prof combo /\
                     best_difference = comboDifference target_area combo) /\
      (forall other, In other (tried st) ->
                     best_difference <= comboDifference target_area other)
  end.

Lemma evaluated_rev st : evaluated st = rev (tried st).
Proof. unfold evaluated. symmetry. apply rev_alt. Qed.

Lemma tryCombo_tried st combo :
  tried (tryCombo target_area st combo) = combo :: tried st.
Proof. reflexivity. Qed.

Lemma tryCombo_tracksBest st combo :
  tracksBest st -> tracksBest (tryCombo target_area st combo).
Proof.
  unfold tracksBest, tryCombo. simpl.
  destruct (best st) as [[ps bd]|] eqn:E.
  - intros [(c0 & Hin & Hps & Hbd) Hmin].
    destruct (Qltb (comboDifference target_area combo) bd) eqn:L.
    + split.
      * exists combo. repeat split. now left.
      * intros other [<-|Hother]; [apply Qle_refl|].
        apply Qltb_lt in L. specialize (Hmin other Hother).
        apply Qlt_le_weak. now apply Qlt_le_trans with bd.
    + split.
      * exists c0. repeat split; trivial. now right.
      * intros other [<-|Hother]; [now apply Qltb_ge in L|]. now apply Hmin.
  - intros Ht. rewrite Ht. split.
    + exists combo. repeat split. now left.
    + intros other [<-|[]]. apply Qle_refl.
Qed.

Lemma innerLoop_tracksBest combos st :
  tracksBest st -> tracksBest (innerLoop target_area st combos).
Proof.
  revert st. induction combos as [|c combos IH]; intros st H; simpl; [exact H|].
  destruct (nearPerfect target_area (tryCombo target_area st c)).
  - now apply tryCombo_tracksBest.
  - now apply IH, tryCombo_tracksBest.
Qed.

(** What the inner loop has tried is a prefix of what it was given. *)
Lemma innerLoop_prefix combos st :
  exists pre post,
    combos = pre ++ post /\
    tried (innerLoop target_area st combos) = rev pre ++ tried st /\
    (combos <> [] -> pre <> []).
Proof.
  revert st. induction combos as [|c combos IH]; intros st; simpl.
  - exists [], []. repeat split. intros H. now contradiction H.
  - destruct (nearPerfect target_area (tryCombo target_area st c)).
    + exists [c], combos. repeat split. discriminate.
    + destruct (IH (tryCombo target_area st c)) as (pre & post & -> & Ht & _).
      exists (c :: pre), post. repeat split; [|discriminate].
      rewrite Ht, tryCombo_tried. simpl. now rewrite <- app_assoc.
Qed.

(** The two nested loops are one loop over the enumeration. *)
Lemma innerLoop_app a b st :
  nearPerfect target_area st = false ->
  innerLoop target_area st (a ++ b) =
  let st' := innerLoop target_area st a in
  if nearPerfect target_area st' then st' else innerLoop target_area st' b.
Proof.
  revert st. induction a as [|c a IH]; intros st H; simpl.
  - now rewrite H.
  - destruct (nearPerfect target_area (tryCombo target_area st c)) eqn:E.
    + now rewrite E.
    + now apply IH.
Qed.

Lemma outerLoop_flat {candidates} sizes st :
  nearPerfect target_area st = false ->
  outerLoop target_area candidates st sizes =
  innerLoop target_area st (concat (map (combinations candidates) sizes)).
Proof.
  revert st. induction sizes as [|r sizes IH]; intros st H; simpl; [reflexivity|].
  rewrite innerLoop_app by exact H. simpl.
  destruct (nearPerfect target_area
              (innerLoop target_area st (combinations candidates r))) eqn:E.
  - reflexivity.
  - now apply IH.
Qed.

Lemma searchCombinations_flat candidates :
  searchCombinations target_area candidates =
  innerLoop target_area initialSearch
            (enumeration candidates 1 (max_profiles candidates)).
Proof. unfold searchCombinations. now apply outerLoop_flat. Qed.

Lemma enumeration_nonempty (candidates : list Candidate) :
  candidates <> [] -> enumeration candidates 1 (max_profiles candidates) <> [].
Proof.
  destruct candidates as [|c l]; [congruence|]. intros _.
  unfold enumeration, max_profiles. simpl length.
  change (Nat.min (S (length l)) 15) with (S (Nat.min (length l) 14)).
  simpl. rewrite combinations_0. discriminate.
Qed.

Lemma searchCombinations_examined candidates :
  exists post,
    enumeration candidates 1 (max_profiles candidates)
    = evaluated (searchCombinations target_area candidates) ++ post /\
    (candidates <> [] -> evaluated (searchCombinations target_area candidates) <> []).
Proof.
  rewrite searchCombinations_flat.
  destruct (innerLoop_prefix (enumeration candidates 1 (max_profiles candidates))
                             initialSearch) as (pre & post & Hsplit & Ht & Hne).
  rewrite evaluated_rev, Ht. simpl. rewrite app_nil_r, rev_involutive.
  exists post. split; [exact Hsplit|].
  intros Hc. now apply Hne, enumeration_nonempty.
Qed.

Lemma searchCombinations_tracksBest candidates :
  tracksBest (searchCombinations target_area candidates).
Proof.
  rewrite searchCombinations_flat. apply innerLoop_tracksBest. reflexivity.
Qed.

(** The first combination within the early-exit threshold ends the loop
    and is the best. *)
Lemma innerLoop_first_hit pre combo post st :
  nearPerfect target_area st = false ->
  Forall (fun c => target_area * 0.00003 < comboDifference target_area c) pre ->
  comboDifference target_area combo <= target_area * 0.00003 ->
  let st' := innerLoop target_area st (pre ++ combo :: post) in
  best st' = Some (map cand_prof combo, comboDifference target_area combo) /\
  tried st' = combo :: rev pre ++ tried st.
Proof.
  intros Hst Hpre Hcombo. revert st Hst.
  induction Hpre as [|c pre Hc Hpre IH]; intros st Hst; simpl.
  - assert (Hbest : best (tryCombo target_area st combo)
                    = Some (map cand_prof combo, comboDifference target_area combo)).
    { unfold tryCombo, nearPerfect in *. simpl.
      destruct (best st) as [[ps bd]|]; [|reflexivity].
      apply Qleb_gt in Hst.
      assert (L : Qltb (comboDifference target_area combo) bd = true).
      { apply Qltb_lt. now apply Qle_lt_trans with (target_area * 0.00003). }
      now rewrite L. }
    assert (Hnear : nearPerfect target_area (tryCombo target_area st combo) = true).
    { unfold nearPerfect. rewrite Hbest. now apply Qleb_le. }
    rewrite Hnear. split; [exact Hbest|reflexivity].
  - assert (Hnear : nearPerfect target_area (tryCombo target_area st c) = false).
    { unfold tryCombo, nearPerfect in *. simpl.
      destruct (best st) as [[ps bd]|].
      - destruct (Qltb (comboDifference target_area c) bd); [now apply Qleb_gt|exact Hst].
      - now apply Qleb_gt. }
    rewrite Hnear. destruct (IH _ Hnear) as [Hb Ht]. split; [exact Hb|].
    rewrite Ht, tryCombo_tried. simpl. now rewrite <- app_assoc.
Qed.

(** The loop goes through all it is given, or stops at a combination
    within the early-exit threshold. *)
Lemma innerLoop_stops combos st :
  nearPerfect target_area st = false ->
  tried (innerLoop target_area st combos) = rev combos ++ tried st \/
  exists pre combo post,
    combos = pre ++ combo :: post /\
    tried (innerLoop target_area st combos) = combo :: rev pre ++ tried st /\
    comboDifference target_area combo <= target_area * 0.00003.
Proof.
  revert st. induction combos as [|c combos IH]; intros st Hst; simpl.
  - now left.
  - destruct (nearPerfect target_area (tryCombo target_area st c)) eqn:E.
    + right. exists [], c, combos. split; [reflexivity|]. split; [reflexivity|].
      unfold nearPerfect, tryCombo in *. simpl in E.
      destruct (best st) as [[ps bd]|].
      * destruct (Qltb (comboDifference target_area c) bd);
          [now apply Qleb_le|congruence].
      * now apply Qleb_le.
    + destruct (IH _ E) as [H|(pre & combo & post & Hsplit & Ht & Hd)].
      * left. rewrite H, tryCombo_tried. simpl. now rewrite <- app_assoc.
      * right. exists (c :: pre), combo, post. split; [now rewrite Hsplit|].
        split; [|exact Hd]. rewrite Ht, tryCombo_tried. simpl.
        now rewrite <- app_assoc.
Qed.

Lemma searchCombinations_stops candidates :
  let all := enumeration candidates 1 (max_profiles candidates) in
  evaluated (searchCombinations target_area candidates) = all \/
  exists pre combo post,
    all = pre ++ combo :: post /\
    evaluated (searchCombinations target_area candidates) = pre ++ [combo] /\
    comboDifference target_area combo <= target_area * 0.00003.
Proof.
  cbv zeta. rewrite evaluated_rev, searchCombinations_flat.
  destruct (innerLoop_stops (enumeration candidates 1 (max_profiles candidates))
              initialSearch eq_refl) as [H|(pre & combo & post & Hsplit & Ht & Hd)].
  - left. rewrite H. simpl. now rewrite app_nil_r, rev_involutive.
  - right. exists pre, combo, post. split; [exact Hsplit|]. split; [|exact Hd].
    rewrite Ht. simpl. now rewrite app_nil_r, rev_involutive.
Qed.

End Search.

(** *** [findProfileForCircle] *)

Section Resolver.

Variable distanceTo : Point3D -> Point3D -> Q.

(** The sorted candidates the search of a run works on. *)
Definition searched (sketch : Sketch) (target_circle : SketchCircle) : list Candidate :=
  sortByAreaDesc (coarseFilter distanceTo target_circle (profiles sketch)).

Lemma run_searching sketch target_circle :
  parentSketch target_circle = sketch_id sketch ->
  coarseFilter distanceTo target_circle (profiles sketch) <> [] ->
  runFindProfileForCircle distanceTo sketch target_circle =
  let st := searchCombinations (area target_circle) (searched sketch target_circle) in
  {| returned := acceptBest (area target_circle) st;
     queried := profiles sketch;
     examined := evaluated st |}.
Proof.
  intros Hsk Hne. unfold runFindProfileForCircle, searched.
  rewrite Hsk, Nat.eqb_refl. simpl.
  destruct (coarseFilter distanceTo target_circle (profiles sketch)); [congruence|].
  reflexivity.
Qed.

Lemma searched_nonempty sketch target_circle :
  coarseFilter distanceTo target_circle (profiles sketch) <> [] ->
  searched sketch target_circle <> [].
Proof. apply sortByKey_nonempty. Qed.

(** What a run examined is a prefix of the enumeration of the
    combinations of its sorted candidates, whatever the run. *)
Lemma examined_prefix sketch target_circle :
  let candidates := searched sketch target_circle in
  exists post,
    enumeration candidates 1 (max_profiles candidates)
    = examined (runFindProfileForCircle distanceTo sketch target_circle) ++ post.
Proof.
  simpl. unfold runFindProfileForCircle.
  destruct (negb (parentSketch target_circle =? sketch_id sketch)%nat); simpl.
  - eexists. reflexivity.
  - fold (searched sketch target_circle).
    destruct (coarseFilter distanceTo target_circle (profiles sketch)) eqn:E; simpl.
    + eexists. reflexivity.
    + destruct (searchCombinations_examined (area target_circle)
                  (searched sketch target_circle)) as (post & H & _).
      exists post. exact H.
Qed.

(** C10. A circle that does not belong to the sketch passed with it makes
    [findProfileForCircle] return [None] at once: no profile of the sketch
    is queried and no combination is examined. *)
Theorem foreign_circle_returns_none (sketch : Sketch) (target_circle : SketchCircle) :
  parentSketch target_circle <> sketch_id sketch ->
  let run := runFindProfileForCircle distanceTo sketch target_circle in
  findProfileForCircle distanceTo sketch target_circle = Ok None /\
  queried run = [] /\
  examined run = [].
Proof.
  intros Hne. unfold findProfileForCircle, runFindProfileForCircle.
  apply Nat.eqb_neq in Hne. rewrite Hne. simpl. repeat split.
Qed.


(** C5. The first combination, in the order of the search, whose area
    difference is at most 0.003% of the circle's area is what
    [findProfileForCircle] returns; the search examines nothing after it,
    so nothing of a larger size. *)
Theorem early_exit (sketch : Sketch) (target_circle : SketchCircle)
  (pre post : list (list Candidate)) (combo : list Candidate) :
  parentSketch target_circle = sketch_id sketch ->
  let target_area := area target_circle in
  let candidates := searched sketch target_circle in
  enumeration candidates 1 (max_profiles candidates) = pre ++ combo :: post ->
  Forall (fun c => target_area * 0.00003 < comboDifference target_area c) pre ->
  comboDifference target_area combo <= target_area * 0.00003 ->
  let run := runFindProfileForCircle distanceTo sketch target_circle in
  findProfileForCircle distanceTo sketch target_circle
  = Ok (Some (asSelection (map cand_prof combo))) /\
  examined run = pre ++ [combo] /\
  Forall (fun c => (length c <= length combo)%nat) (examined run).
Proof.
  intros Hsk target_area candidates Hsplit Hpre Hcombo. simpl.
  assert (Hne : coarseFilter distanceTo target_circle (profiles sketch) <> []).
  { intros E. unfold candidates, searched in Hsplit. rewrite E in Hsplit.
    destruct pre; discriminate. }
  unfold findProfileForCircle. rewrite (run_searching _ _ Hsk Hne). simpl.
  fold target_area. fold candidates.
  rewrite searchCombinations_flat, Hsplit.
  destruct (innerLoop_first_hit target_area pre combo post initialSearch
              eq_refl Hpre Hcombo) as [Hb Ht].
  simpl in Hb, Ht.
  assert (Hev : evaluated (innerLoop target_area initialSearch (pre ++ combo :: post))
                = pre ++ [combo]).
  { rewrite evaluated_rev, Ht. simpl. now rewrite app_nil_r, rev_involutive. }
  repeat split.
  - unfold acceptBest. rewrite Hb.
    assert (Htol : Qgtb (comboDifference target_area combo) (target_area * 0.03) = false).
    { apply Qgtb_le. pose proof (Qabs_nonneg (Qsum (map cand_area combo) - target_area)).
      unfold comboDifference in *. lra. }
    now rewrite Htol.
  - exact Hev.
  - rewrite Hev. apply Forall_app. split.
    + now apply (enumeration_ordered candidates (max_profiles candidates) 1 pre post combo).
    + constructor; [lia|constructor].
Qed.

(** The search of a run goes through the whole enumeration over its
    sorted candidates, or stops at a combination within the early-exit
    threshold. *)
Lemma examined_stops sketch target_circle :
  parentSketch target_circle = sketch_id sketch ->
  let candidates := searched sketch target_circle in
  let all := enumeration candidates 1 (max_profiles candidates) in
  let run := runFindProfileForCircle distanceTo sketch target_circle in
  examined run = all \/
  exists pre combo post,
    all = pre ++ combo :: post /\
    examined run = pre ++ [combo] /\
    comboDifference (area target_circle) combo <= area target_circle * 0.00003.
Proof.
  intros Hsk. cbv zeta.
  destruct (coarseFilter distanceTo target_circle (profiles sketch)) as [|c l] eqn:E.
  - left. unfold runFindProfileForCircle, searched.
    rewrite Hsk, Nat.eqb_refl, E. reflexivity.
  - rewrite run_searching by (trivial; rewrite E; discriminate). cbv zeta. cbn [examined].
    apply searchCombinations_stops.
Qed.

(** C6 (as the code has it). The cap of 15 is on the size of a
    combination, not on the candidates.  For a circle of the sketch with
    [n] sorted candidates: every combination examined has between 1 and
    min(n, 15) members, taken in order from the candidates; the search
    goes in order through the combinations of those sizes over all [n]
    candidates and stops short of the last one only at a combination
    within the early-exit threshold, so that every candidate, also one
    beyond the 15 largest, is examined on its own unless the search stops
    early; fewer than [2^n] combinations are examined, hence fewer than
    [2^15] when at most 15 candidates survive the coarse filters, and
    more than [2^15] when more than 15 survive and no combination is
    within the early-exit threshold. *)
Theorem combination_size_cap (sketch : Sketch) (target_circle : SketchCircle) :
  parentSketch target_circle = sketch_id sketch ->
  let target_area := area target_circle in
  let candidates := searched sketch target_circle in
  let all := enumeration candidates 1 (Nat.min (length candidates) 15) in
  let run := runFindProfileForCircle distanceTo sketch target_circle in
  let stoppedEarly :=
    exists pre combo,
      examined run = pre ++ [combo] /\
      comboDifference target_area combo <= target_area * 0.00003 in
  Forall (fun combo =>
            (1 <= length combo <= Nat.min (length candidates) 15)%nat /\
            sublist combo candidates) (examined run) /\
  (exists post, all = examined run ++ post /\ (post <> [] -> stoppedEarly)) /\
  (forall c, In c candidates -> In [c] (examined run) \/ stoppedEarly) /\
  (Z.of_nat (length (examined run)) < 2 ^ Z.of_nat (length candidates))%Z /\
  ((length candidates <= 15)%nat -> (Z.of_nat (length (examined run)) < 2 ^ 15)%Z) /\
  ((15 < length candidates)%nat ->
   Forall (fun combo => target_area * 0.00003 < comboDifference target_area combo) all ->
   (2 ^ 15 < Z.of_nat (length (examined run)))%Z).
Proof.
  intros Hsk. cbv zeta. set (candidates := searched sketch target_circle).
  set (all := enumeration candidates 1 (Nat.min (length candidates) 15)).
  set (ex := examined (runFindProfileForCircle distanceTo sketch target_circle)).
  set (stoppedEarly :=
         exists pre combo,
           ex = pre ++ [combo] /\
           comboDifference (area target_circle) combo <= area target_circle * 0.00003).
  assert (Hsplit : exists post, all = ex ++ post /\ (post <> [] -> stoppedEarly)).
  { destruct (examined_stops sketch target_circle Hsk)
      as [H|(pre & combo & post & Hall & Hex & Hd)].
    - exists []. split; [now rewrite app_nil_r|]. intros Hne. now contradiction Hne.
    - exists post. split.
      + unfold ex. rewrite Hex, <- app_assoc. exact Hall.
      + intros _. exists pre, combo. split; [exact Hex|exact Hd]. }
  destruct Hsplit as (post & Hsplit & Hpost).
  assert (Hall : forall combo, In combo ex -> In combo all).
  { intros combo Hin. rewrite Hsplit. apply in_or_app. now left. }
  assert (Hcount : S (length ex + length post) = countUpTo candidates (Nat.min (length candidates) 15)).
  { rewrite <- (enumeration_count candidates (Nat.min (length candidates) 15)).
    fold all. now rewrite Hsplit, length_app. }
  assert (Hlen : (Z.of_nat (length ex) < 2 ^ Z.of_nat (length candidates))%Z).
  { pose proof (countUpTo_bound candidates (Nat.min (length candidates) 15)) as Hb.
    change 2%Z with (Z.of_nat 2). rewrite <- Nat2Z.inj_pow.
    apply Nat2Z.inj_lt. lia. }
  split; [|split; [|split; [|split; [|split]]]].
  - apply List.Forall_forall. intros combo Hin. apply Hall in Hin. split.
    + apply enumeration_sizes in Hin. lia.
    + now apply enumeration_sublist in Hin.
  - exists post. split; [exact Hsplit|exact Hpost].
  - intros c Hc. apply enumeration_singletons in Hc. fold all in Hc.
    rewrite Hsplit in Hc. apply in_app_or in Hc. destruct Hc as [Hc|Hc]; [now left|].
    right. apply Hpost. intros ->. destruct Hc.
  - exact Hlen.
  - intros H15. apply Z.lt_le_trans with (2 ^ Z.of_nat (length candidates))%Z; [exact Hlen|].
    apply Z.pow_le_mono_r; [reflexivity|]. now apply (Nat2Z.inj_le _ 15).
  - intros H15 Hno.
    assert (Hnil : post = []).
    { destruct post as [|p post]; [reflexivity|]. exfalso.
      destruct Hpost as (pre & combo & Hex & Hd); [discriminate|].
      assert (Hin : In combo all).
      { apply Hall. rewrite Hex. apply in_or_app. right. now left. }
      rewrite List.Forall_forall in Hno. specialize (Hno combo Hin). lra. }
    subst post. simpl in Hcount. rewrite Nat.add_0_r in Hcount.
    replace (Nat.min (length candidates) 15) with 15%nat in Hcount by lia.
    pose proof (countUpTo_over_cap candidates 15 H15) as Hover.
    rewrite <- Hcount in Hover. apply Nat2Z.inj_le in Hover.
    rewrite Nat2Z.inj_pow in Hover.
    change (Z.of_nat 2 ^ Z.of_nat 16)%Z with 65536%Z in Hover.
    change (2 ^ 15)%Z with 32768%Z. lia.
Qed.

End Resolver.

End ProfileResolverFacts.

(** ** The resolver on the example sketches *)

Module ResolverExamples.

Import ProfileResolver ProfileResolverFacts ResolverScenarios.

(** *** Sums of areas *)

Lemma fold_left_Qplus_acc (l : list Q) (a : Q) :
  fold_left Qplus l a == a + fold_left Qplus l 0.
Proof.
  revert a. induction l as [|x l IH]; intros a; simpl.
  - ring.
  - rewrite (IH (a + x)), (IH (0 + x)). ring.
Qed.

Lemma Qsum_cons (x : Q) (l : list Q) : Qsum (x :: l) == x + Qsum l.
Proof.
  unfold Qsum. simpl. rewrite fold_left_Qplus_acc. ring.
Qed.

Lemma sublist_sum_le (c l : list Candidate) :
  sublist c l ->
  Forall (fun x => 0 <= cand_area x) l ->
  Qsum (map cand_area c) <= Qsum (map cand_area l).
Proof.
  induction 1 as [|x c l Hs IH|x c l Hs IH]; intros Hpos.
  - apply Qle_refl.
  - inversion Hpos; subst. simpl. rewrite !Qsum_cons.
    specialize (IH ltac:(assumption)). lra.
  - inversion Hpos; subst. simpl. rewrite Qsum_cons.
    specialize (IH ltac:(assumption)). lra.
Qed.

(** A combination that leaves a candidate out misses at least the
    smallest area. *)
Lemma proper_sublist_sum_le (m : Q) (c l : list Candidate) :
  sublist c l ->
  (length c < length l)%nat ->
  0 <= m ->
  Forall (fun x => m <= cand_area x) l ->
  Qsum (map cand_area c) <= Qsum (map cand_area l) - m.
Proof.
  intros Hs. induction Hs as [|x c l Hs IH|x c l Hs IH]; intros Hlen Hm Hall.
  - simpl in Hlen. lia.
  - inversion Hall; subst. simpl. rewrite !Qsum_cons.
    assert (IH' : Qsum (map cand_area c) <= Qsum (map cand_area l) - m).
    { apply IH; [simpl in Hlen; lia|assumption|assumption]. }
    lra.
  - inversion Hall as [|? ? Hx Hl]; subst. simpl. rewrite Qsum_cons.
    assert (Hle : Qsum (map cand_area c) <= Qsum (map cand_area l)).
    { apply sublist_sum_le; [exact Hs|].
      eapply List.Forall_impl; [|exact Hl]. simpl. intros a Ha. lra. }
    lra.
Qed.

(** *** A search that never meets the early-exit threshold *)

Lemma innerLoop_no_hit (target_area : Q) (combos : list (list Candidate)) st :
  nearPerfect target_area st = false ->
  Forall (fun c => target_area * 0.00003 < comboDifference target_area c) combos ->
  tried (innerLoop target_area st combos) = rev combos ++ tried st.
Proof.
  intros Hst Hall. revert st Hst.
  induction Hall as [|c combos Hc Hall IH]; intros st Hst; simpl; [reflexivity|].
  assert (Hnear : nearPerfect target_area (tryCombo target_area st c) = false).
  { unfold tryCombo, nearPerfect in *. simpl.
    destruct (best st) as [[ps bd]|].
    - destruct (Qltb (comboDifference target_area c) bd); [now apply Qleb_gt|exact Hst].
    - now apply Qleb_gt. }
  rewrite Hnear, (IH _ Hnear), tryCombo_tried. simpl. now rewrite <- app_assoc.
Qed.

Lemma no_hit_examines_all (target_area : Q) (candidates : list Candidate) :
  Forall (fun c => target_area * 0.00003 < comboDifference target_area c)
         (enumeration candidates 1 (max_profiles candidates)) ->
  evaluated (searchCombinations target_area candidates)
  = enumeration candidates 1 (max_profiles candidates).
Proof.
  intros Hall. rewrite evaluated_rev, searchCombinations_flat.
  rewrite (innerLoop_no_hit target_area _ initialSearch eq_refl Hall).
  simpl. now rewrite app_nil_r, rev_involutive.
Qed.

(** *** The number of combinations short of the full set *)

Lemma combinations_beyond {A : Type} (l : list A) (r : nat) :
  (length l < r)%nat -> combinations l r = [].
Proof.
  revert r. induction l as [|x l IH]; intros [|r] H; simpl in *; try lia.
  - reflexivity.
  - rewrite (IH r), (IH (S r)) by lia. reflexivity.
Qed.

Lemma combinations_full {A : Type} (l : list A) :
  length (combinations l (length l)) = 1%nat.
Proof.
  induction l as [|x l IH]; simpl; [reflexivity|].
  rewrite length_app, length_map, IH, combinations_beyond by lia. reflexivity.
Qed.

Lemma enumeration_short_of_full {A : Type} (l : list A) :
  l <> [] ->
  (Z.of_nat (length (enumeration l 1 (length l - 1))) = 2 ^ Z.of_nat (length l) - 2)%Z.
Proof.
  intros Hl.
  assert (Hn : exists n, length l = S n).
  { destruct l; [congruence|]. simpl. eauto. }
  destruct Hn as (n & Hn).
  pose proof (enumeration_count l n) as Hc.
  pose proof (countUpTo_full l (S n) ltac:(lia)) as Hf.
  change (countUpTo l (S n)) with (countUpTo l n + length (combinations l (S n)))%nat in Hf.
  rewrite <- Hn in Hf. rewrite combinations_full in Hf.
  replace (length l - 1)%nat with n by lia.
  change 2%Z with (Z.of_nat 2) at 1. rewrite <- Nat2Z.inj_pow. lia.
Qed.

(** *** The examples *)


(** A single profile 3% smaller than the circle is accepted ... *)
Example tolerance_boundary_accepted :
  Qabs (97 - area wideCircle) == area wideCircle * 0.03 /\
  findProfileForCircle exactDistanceTo (sketchOfArea 97) wideCircle
  = Ok (Some (SingleProfile (profileOfArea 97))).
Proof. split; vm_compute; reflexivity. Qed.

(** ... and one a little smaller than that is not. *)
Example tolerance_boundary_rejected :
  findProfileForCircle exactDistanceTo (sketchOfArea 96.999) wideCircle = Ok None.
Proof. vm_compute. reflexivity. Qed.

Lemma early_exit_witness :
  let run := runFindProfileForCircle exactDistanceTo chordSketch boreCircle in
  findProfileForCircle exactDistanceTo chordSketch boreCircle
  = Ok (Some (asSelection (map cand_prof (firstn 2 chordCandidates)))) /\
  examined run = combinations chordCandidates 1 ++ [firstn 2 chordCandidates] /\
  Forall (fun c => (length c <= length (firstn 2 chordCandidates))%nat) (examined run).
Proof.
  apply (early_exit exactDistanceTo chordSketch boreCircle
           (combinations chordCandidates 1) (skipn 1 (enumeration chordCandidates 2 2))
           (firstn 2 chordCandidates)).
  - reflexivity.
  - vm_compute. reflexivity.
  - apply (Forall_Qltb (fun _ => area boreCircle * 0.00003)
                       (comboDifference (area boreCircle))).
    vm_compute. reflexivity.
  - vm_compute. discriminate.
Defined.

Lemma foreign_circle_returns_none_witness :
  let run := runFindProfileForCircle exactDistanceTo otherSketch boreCircle in
  findProfileForCircle exactDistanceTo otherSketch boreCircle = Ok None /\
  queried run = [] /\
  examined run = [].
Proof.
  apply (foreign_circle_returns_none exactDistanceTo otherSketch boreCircle).
  vm_compute. discriminate.
Defined.

(** The sixteen candidates of [capSketch]: the search stops at the pair
    of [bigPart] and [cap], the seventeenth combination of the
    enumeration over all sixteen. *)
Lemma combination_size_cap_witness :
  let target_area := area boreCircle in
  let candidates := searched exactDistanceTo capSketch boreCircle in
  let all := enumeration candidates 1 (Nat.min (length candidates) 15) in
  let run := runFindProfileForCircle exactDistanceTo capSketch boreCircle in
  let stoppedEarly :=
    exists pre combo,
      examined run = pre ++ [combo] /\
      comboDifference target_area combo <= target_area * 0.00003 in
  Forall (fun combo =>
            (1 <= length combo <= Nat.min (length candidates) 15)%nat /\
            sublist combo candidates) (examined run) /\
  (exists post, all = examined run ++ post /\ (post <> [] -> stoppedEarly)) /\
  (forall c, In c candidates -> In [c] (examined run) \/ stoppedEarly) /\
  (Z.of_nat (length (examined run)) < 2 ^ Z.of_nat (length candidates))%Z /\
  ((length candidates <= 15)%nat -> (Z.of_nat (length (examined run)) < 2 ^ 15)%Z) /\
  ((15 < length candidates)%nat ->
   Forall (fun combo => target_area * 0.00003 < comboDifference target_area combo) all ->
   (2 ^ 15 < Z.of_nat (length (examined run)))%Z).
Proof.
  apply (combination_size_cap exactDistanceTo capSketch boreCircle).
  reflexivity.
Defined.

(** On [capSketch] the sixteen candidates are examined one by one, [cap],
    the smallest, last of them; the fifteenth pair ends the search. *)
Example cap_sketch_examined :
  let run := runFindProfileForCircle exactDistanceTo capSketch boreCircle in
  length (examined run) = 31%nat /\
  map (map cand_prof) (skipn 15 (firstn 16 (examined run))) = [[cap]] /\
  map (map cand_prof) (skipn 30 (examined run)) = [[bigPart; cap]].
Proof. vm_compute. repeat split. Qed.

(** The sixteen rings: no combination of at most fifteen of them comes
    within the early-exit threshold of the circle they tile. *)
Lemma rings_no_hit :
  let candidates := searched exactDistanceTo ringSketch ringCircle in
  Forall (fun c => area ringCircle * 0.00003 < comboDifference (area ringCircle) c)
         (enumeration candidates 1 (max_profiles candidates)).
Proof.
  intros candidates. apply List.Forall_forall. intros c Hc.
  assert (Hlen : (length c < length candidates)%nat).
  { apply enumeration_sizes in Hc.
    change (max_profiles candidates) with 15%nat in Hc.
    change (length candidates) with 16%nat. lia. }
  apply enumeration_sublist in Hc.
  assert (Hall : Forall (fun x => 0.001 <= cand_area x) candidates).
  { apply (Forall_Qleb (fun _ => 0.001) cand_area). vm_compute. reflexivity. }
  pose proof (proper_sublist_sum_le 0.001 c candidates Hc Hlen ltac:(lra) Hall) as Hsum.
  assert (Htotal : Qsum (map cand_area candidates) == 0.136)
    by (vm_compute; reflexivity).
  unfold comboDifference. change (area ringCircle) with 0.136.
  apply Qabs_case; intros; lra.
Qed.

(** C6, as the spec states it, fails.  On [capSketch] the candidate that
    is sixteenth by area is part of what [findProfileForCircle] returns;
    on [ringSketch] the search examines 65534 combinations. *)
Lemma candidate_cap_counterexample :
  (let candidates := searched exactDistanceTo capSketch boreCircle in
   length candidates = 16%nat /\
   ~ In cap (map cand_prof (firstn 15 candidates)) /\
   findProfileForCircle exactDistanceTo capSketch boreCircle
   = Ok (Some (ProfileCollection [bigPart; cap]))) /\
  (2 ^ 15 < Z.of_nat (length (examined
               (runFindProfileForCircle exactDistanceTo ringSketch ringCircle))))%Z.
Proof.
  split.
  - cbv zeta. split; [vm_compute; reflexivity|]. split.
    + intros H. apply (in_map prof_id) in H. vm_compute in H.
      repeat (destruct H as [H|H]; [discriminate H|]). exact H.
    + vm_compute. reflexivity.
  - rewrite run_searching; [|reflexivity|vm_compute; discriminate]. cbv zeta.
    unfold examined.
    rewrite (no_hit_examines_all _ _ rings_no_hit).
    change (max_profiles (searched exactDistanceTo ringSketch ringCircle))
      with (length (searched exactDistanceTo ringSketch ringCircle) - 1)%nat.
    rewrite enumeration_short_of_full by (vm_compute; discriminate).
    change (length (searched exactDistanceTo ringSketch ringCircle)) with 16%nat.
    reflexivity.
Qed.

End ResolverExamples.

(** ** The direction inferencer *)

Module DirectionFacts.

Import DirectionInferencer ResolverScenarios BodyScenarios.

(** A direction enters the body: one of its samples is not outside. *)
Definition enters (targetBody : BRepBody) (pointAt : Q -> Point3D) : Prop :=
  Exists (fun d => pointContainment targetBody (pointAt d) <> PointOutsidePointContainment)
         testDistances.

Lemma entersBody_Exists targetBody pointAt distances :
  entersBody targetBody pointAt distances = true <->
  Exists (fun d => pointContainment targetBody (pointAt d) <> PointOutsidePointContainment)
         distances.
Proof.
  induction distances as [|d ds IH]; simpl.
  - split; [discriminate|]. intros H. inversion H.
  - destruct (pointContainment targetBody (pointAt d)) eqn:E; simpl.
    + split; [|reflexivity]. intros _. apply Exists_cons_hd. congruence.
    + split; [|reflexivity]. intros _. apply Exists_cons_hd. congruence.
    + rewrite IH. split.
      * intros H. now apply Exists_cons_tl.
      * intros H. inversion H; subst; [congruence|assumption].
Qed.

Lemma entersBody_enters targetBody pointAt :
  entersBody targetBody pointAt testDistances = true <-> enters targetBody pointAt.
Proof. apply entersBody_Exists. Qed.

Lemma not_entersBody_enters targetBody pointAt :
  entersBody targetBody pointAt testDistances = false <-> ~ enters targetBody pointAt.
Proof.
  rewrite <- entersBody_enters.
  destruct (entersBody targetBody pointAt testDistances); split; congruence.
Qed.

Lemma isOutside_true c : isOutside c = true <-> c = PointOutsidePointContainment.
Proof. destruct c; simpl; split; congruence. Qed.

(** C2. The samples are taken at 0.1, 0.5, 1 and 2 mm on each side and
    the probe at 0.01 mm; the direction returned is the one of the
    decision table. *)
Theorem direction_decision_table (sketch : Sketch) (circleCenter : Point2D)
  (targetBody : BRepBody) :
  let center3D := transformBy (transform sketch) circleCenter in
  let normal := zAxis (transform sketch) in
  let plus := enters targetBody (offsetPoint center3D normal) in
  let minus := enters targetBody (offsetPointNeg center3D normal) in
  let posOut := pointContainment targetBody (offsetPoint center3D normal verySmallDistance)
                = PointOutsidePointContainment in
  let negOut := pointContainment targetBody (offsetPointNeg center3D normal verySmallDistance)
                = PointOutsidePointContainment in
  let result := findExtrudeDirectionFromSketch sketch circleCenter targetBody in
  Forall2 Qeq (map (fun cm => cm * 10) testDistances) [0.1; 0.5; 1.0; 2.0] /\
  verySmallDistance * 10 == 0.01 /\
  (plus -> ~ minus -> result = Some PositiveExtentDirection) /\
  (~ plus -> minus -> result = Some NegativeExtentDirection) /\
  (~ plus -> ~ minus -> result = None) /\
  (plus -> minus -> posOut -> ~ negOut -> result = Some NegativeExtentDirection) /\
  (plus -> minus -> negOut -> ~ posOut -> result = Some PositiveExtentDirection) /\
  (plus -> minus -> (posOut <-> negOut) -> result = Some PositiveExtentDirection).
Proof.
  intros center3D normal plus minus posOut negOut result.
  split; [repeat constructor; reflexivity|].
  split; [reflexivity|].
  unfold result, findExtrudeDirectionFromSketch.
  fold center3D. fold normal.
  unfold plus, minus, posOut, negOut.
  rewrite <- !isOutside_true, <- !entersBody_enters.
  destruct (entersBody targetBody (offsetPoint center3D normal) testDistances);
    destruct (entersBody targetBody (offsetPointNeg center3D normal) testDistances);
    destruct (isOutside (pointContainment targetBody
                (offsetPoint center3D normal verySmallDistance)));
    destruct (isOutside (pointContainment targetBody
                (offsetPointNeg center3D normal verySmallDistance)));
    simpl; repeat split; try congruence; try tauto; intuition congruence.
Qed.

Lemma direction_decision_table_witness :
  findExtrudeDirectionFromSketch plainSketch xyOrigin (slab 1)
  = Some PositiveExtentDirection /\
  findExtrudeDirectionFromSketch plainSketch xyOrigin lipped
  = Some NegativeExtentDirection.
Proof.
  split.
  - destruct (direction_decision_table plainSketch xyOrigin (slab 1))
      as (_ & _ & Honly & _).
    apply Honly.
    + apply entersBody_enters. vm_compute. reflexivity.
    + apply not_entersBody_enters. vm_compute. reflexivity.
  - destruct (direction_decision_table plainSketch xyOrigin lipped)
      as (_ & _ & _ & _ & _ & Hprobe & _).
    apply Hprobe.
    + apply entersBody_enters. vm_compute. reflexivity.
    + apply entersBody_enters. vm_compute. reflexivity.
    + vm_compute. reflexivity.
    + vm_compute. discriminate.
Defined.

(** The table on the example bodies. *)
Example direction_embedded_defaults_to_positive :
  findExtrudeDirectionFromSketch plainSketch xyOrigin embedding
  = Some PositiveExtentDirection.
Proof. vm_compute. reflexivity. Qed.

Example direction_remote_body_undetermined :
  findExtrudeDirectionFromSketch plainSketch xyOrigin remote = None.
Proof. vm_compute. reflexivity. Qed.

End DirectionFacts.

(** ** The through-bore distance *)

Module ThroughBoreFacts.

Import ThroughBore ResolverScenarios BodyScenarios.

(** The distance of the [i]-th sample of the march, in cm. *)
Definition distanceAt (i : nat) : Q := inject_Z (Z.of_nat i) * stepSize.

Lemma distanceAt_S (i : nat) : distanceAt (S i) == distanceAt i + stepSize.
Proof.
  unfold distanceAt. rewrite Nat2Z.inj_succ. unfold Z.succ.
  rewrite inject_Z_plus. ring.
Qed.

Lemma steps_range : steps = seq 1 1000.
Proof. reflexivity. Qed.

Lemma distanceAt_bounds (i : nat) :
  In i steps -> stepSize <= distanceAt i /\ distanceAt i <= maxDistance.
Proof.
  rewrite steps_range, in_seq. intros [Hlo Hhi]. unfold distanceAt, stepSize, maxDistance.
  assert (H1 : inject_Z 1 <= inject_Z (Z.of_nat i)) by (rewrite <- Zle_Qle; lia).
  assert (H2 : inject_Z (Z.of_nat i) <= inject_Z 1000) by (rewrite <- Zle_Qle; lia).
  change (inject_Z 1) with 1 in H1. change (inject_Z 1000) with 1000 in H2.
  split; lra.
Qed.

Section AlongTheRay.

Variable targetBody : BRepBody.
Variable center3D : Point3D.
Variable normal : Vector3D.
Variable multiplier : Q.

(** How the body classifies the [i]-th sample. *)
Definition sample (i : nat) : PointContainment :=
  pointContainment targetBody (testPointAt center3D normal multiplier (distanceAt i)).

(** Sample [i] is an exit after the samples [seen]: it is outside, and
    the ray has been strictly inside before (or started with the flag
    set). *)
Definition exitAt (insideBody : bool) (seen : list nat) (i : nat) : Prop :=
  sample i = PointOutsidePointContainment /\
  (insideBody = true \/ exists j, In j seen /\ sample j = PointInsidePointContainment).

Lemma exitAt_cons (insideBody : bool) (i : nat) (seen : list nat) (k : nat) :
  exitAt insideBody (i :: seen) k <->
  exitAt (if isInside (sample i) then true else insideBody) seen k.
Proof.
  unfold exitAt. split; intros [Hout Hin]; (split; [exact Hout|]).
  - destruct Hin as [->|(j & [<-|Hj] & Hs)].
    + left. now destruct (isInside (sample i)).
    + left. now rewrite Hs.
    + right. eauto.
  - destruct (isInside (sample i)) eqn:E.
    + destruct Hin as [_|(j & Hj & Hs)].
      * right. exists i. split; [now left|]. now destruct (sample i).
      * right. exists j. split; [now right|exact Hs].
    + destruct Hin as [->|(j & Hj & Hs)]; [now left|].
      right. exists j. split; [now right|exact Hs].
Qed.

Lemma march_step (insideBody : bool) (i : nat) (rest : list nat) :
  march targetBody center3D normal multiplier insideBody (i :: rest) =
  let insideBody' := if isInside (sample i) then true else insideBody in
  if insideBody' && isOutside (sample i) then Some (distanceAt i)
  else march targetBody center3D normal multiplier insideBody' rest.
Proof. reflexivity. Qed.

Lemma exit_test (insideBody : bool) (i : nat) :
  (if isInside (sample i) then true else insideBody) && isOutside (sample i) = true
  <-> exitAt insideBody [] i.
Proof.
  unfold exitAt. destruct (sample i), insideBody; simpl; split;
    try discriminate; try tauto; try (intros [H _]; discriminate H).
  all: intros [_ [H|(j & [] & _)]]; discriminate H.
Qed.

(** The march stops at the first exit ... *)
Lemma march_Some (range : list nat) (insideBody : bool) (d : Q) :
  march targetBody center3D normal multiplier insideBody range = Some d ->
  exists pre i post,
    range = pre ++ i :: post /\
    exitAt insideBody pre i /\
    (forall pre' i' post', pre = pre' ++ i' :: post' -> ~ exitAt insideBody pre' i') /\
    d = distanceAt i.
Proof.
  revert insideBody. induction range as [|i rest IH]; intros insideBody; [discriminate|].
  rewrite march_step. cbv zeta.
  destruct ((if isInside (sample i) then true else insideBody) && isOutside (sample i))
    eqn:E.
  - intros [= <-]. exists [], i, rest.
    split; [reflexivity|]. split; [now apply exit_test|]. split; [|reflexivity].
    intros pre' i' post' H. destruct pre'; discriminate.
  - intros H. apply IH in H. destruct H as (pre & k & post & -> & Hexit & Hfirst & ->).
    exists (i :: pre), k, post.
    split; [reflexivity|]. split; [now apply exitAt_cons|]. split; [|reflexivity].
    intros [|i0 pre'] i' post' Heq; simpl in Heq; inversion Heq; subst.
    + intros Hx. apply exit_test in Hx. congruence.
    + intros Hx. apply exitAt_cons in Hx. now apply (Hfirst pre' i' post').
Qed.

(** ... and runs out only when there is none. *)
Lemma march_None (range : list nat) (insideBody : bool) :
  march targetBody center3D normal multiplier insideBody range = None ->
  forall pre i post, range = pre ++ i :: post -> ~ exitAt insideBody pre i.
Proof.
  revert insideBody. induction range as [|i rest IH]; intros insideBody.
  - intros _ pre i post H. destruct pre; discriminate.
  - rewrite march_step. cbv zeta.
    destruct ((if isInside (sample i) then true else insideBody) && isOutside (sample i))
      eqn:E; [discriminate|].
    intros H [|i0 pre] k post Heq; simpl in Heq; inversion Heq; subst.
    + intros Hx. apply exit_test in Hx. congruence.
    + intros Hx. apply exitAt_cons in Hx. now apply (IH _ H pre k post).
Qed.

(** The body is a slab of thickness [T] along the ray: inside before
    [T], on the surface at [T], outside beyond. *)
Definition slabAlong (T : Q) (range : list nat) : Prop :=
  forall i, In i range ->
    (distanceAt i < T -> sample i = PointInsidePointContainment) /\
    (distanceAt i == T -> sample i = PointOnPointContainment) /\
    (T < distanceAt i -> sample i = PointOutsidePointContainment).

Lemma march_slab (T : Q) (n a : nat) (insideBody : bool) :
  slabAlong T (seq a n) ->
  insideBody = true \/ distanceAt a < T ->
  distanceAt a <= T + stepSize ->
  T + stepSize < distanceAt (a + n) ->
  exists i,
    march targetBody center3D normal multiplier insideBody (seq a n) = Some (distanceAt i) /\
    T < distanceAt i /\ distanceAt i <= T + stepSize.
Proof.
  revert a insideBody. induction n as [|n IH]; intros a insideBody Hslab Hflag Hlo Hhi.
  - rewrite Nat.add_0_r in Hhi. lra.
  - change (seq a (S n)) with (a :: seq (S a) n). rewrite march_step. cbv zeta.
    destruct (Hslab a (or_introl eq_refl)) as (Hin & Hon & Hout).
    assert (Hrest : slabAlong T (seq (S a) n)).
    { intros i Hi. apply Hslab. now right. }
    pose proof (distanceAt_S a) as HS.
    rewrite <- Nat.add_succ_comm in Hhi.
    destruct (Q_dec (distanceAt a) T) as [[Hlt|Hgt]|Heq].
    + rewrite (Hin Hlt). simpl. apply IH; trivial; [now left|lra].
    + rewrite (Hout Hgt). simpl.
      destruct Hflag as [->|Hlt]; [|lra].
      exists a. repeat split; trivial.
    + rewrite (Hon Heq). simpl.
      destruct Hflag as [->|Hlt]; [|lra].
      apply IH; trivial; [now left|lra].
Qed.

Lemma march_never_inside (range : list nat) :
  (forall i, In i range -> sample i <> PointInsidePointContainment) ->
  march targetBody center3D normal multiplier false range = None.
Proof.
  induction range as [|i rest IH]; intros H; [reflexivity|].
  rewrite march_step. cbv zeta.
  assert (Hi : isInside (sample i) = false).
  { specialize (H i (or_introl eq_refl)). now destruct (sample i). }
  rewrite Hi. simpl. apply IH. intros j Hj. apply H. now right.
Qed.

Lemma march_never_outside (range : list nat) (insideBody : bool) :
  (forall i, In i range -> sample i <> PointOutsidePointContainment) ->
  march targetBody center3D normal multiplier insideBody range = None.
Proof.
  revert insideBody. induction range as [|i rest IH]; intros insideBody H; [reflexivity|].
  rewrite march_step. cbv zeta.
  assert (Hi : isOutside (sample i) = false).
  { specialize (H i (or_introl eq_refl)). now destruct (sample i). }
  rewrite Hi, andb_false_r. apply IH. intros j Hj. apply H. now right.
Qed.

Lemma march_slab_bounds (T : Q) :
  slabAlong T steps -> stepSize < T -> T < maxDistance ->
  exists i,
    march targetBody center3D normal multiplier false steps = Some (distanceAt i) /\
    T < distanceAt i /\ distanceAt i <= T + stepSize.
Proof.
  rewrite steps_range. intros Hslab Hlo Hhi.
  assert (H1 : distanceAt 1 == stepSize) by reflexivity.
  assert (H2 : distanceAt (1 + 1000) == maxDistance + stepSize) by reflexivity.
  apply march_slab; trivial; [right|..]; unfold stepSize, maxDistance in *; lra.
Qed.

Lemma march_slab_thin (T : Q) :
  slabAlong T steps -> T <= stepSize ->
  march targetBody center3D normal multiplier false steps = None.
Proof.
  intros Hslab HT. apply march_never_inside. intros i Hi.
  destruct (distanceAt_bounds i Hi) as [Hlo _].
  destruct (Hslab i Hi) as (_ & Hon & Hout).
  destruct (Q_dec (distanceAt i) T) as [[Hlt|Hgt]|Heq]; [lra| |].
  - rewrite (Hout Hgt). discriminate.
  - rewrite (Hon Heq). discriminate.
Qed.

Lemma march_slab_thick (T : Q) :
  slabAlong T steps -> maxDistance <= T ->
  march targetBody center3D normal multiplier false steps = None.
Proof.
  intros Hslab HT. apply march_never_outside. intros i Hi.
  destruct (distanceAt_bounds i Hi) as [_ Hhi].
  destruct (Hslab i Hi) as (Hin & Hon & _).
  destruct (Q_dec (distanceAt i) T) as [[Hlt|Hgt]|Heq]; [|lra|].
  - rewrite (Hin Hlt). discriminate.
  - rewrite (Hon Heq). discriminate.
Qed.

End AlongTheRay.

(** The plate of [slab T] under the sketch plane of [plainSketch],
    probed in the positive direction, is a slab of thickness [T] along
    the ray. *)
Lemma slab_slabAlong (T : Q) :
  slabAlong (slab T) (transformBy (transform plainSketch) xyOrigin)
            (zAxis (transform plainSketch))
            (multiplierOf PositiveExtentDirection) T steps.
Proof.
  intros i Hi. destruct (distanceAt_bounds i Hi) as [Hlo _].
  unfold stepSize in Hlo. unfold sample, slab, slabContainment. simpl.
  set (z := 0 + 0 * 0 + 0 * 0 + 1 * distanceAt i * 1.0).
  assert (Hz : z == distanceAt i) by (unfold z; ring).
  assert (H0 : Qltb z 0 = false) by (apply Qltb_ge; lra).
  assert (H1 : Qleb z 0 = false) by (apply Qleb_gt; lra).
  rewrite H0, H1.
  destruct (Qltb z T) eqn:E1.
  - apply Qltb_lt in E1. repeat split; trivial; intros; lra.
  - apply Qltb_ge in E1. destruct (Qleb z T) eqn:E2.
    + apply Qleb_le in E2. repeat split; trivial; intros; lra.
    + apply Qleb_gt in E2. repeat split; trivial; intros; lra.
Qed.

(** C3 (as the code has it). The march takes its samples at 1mm, 2mm,
    ..., 1000mm.  It returns the distance of the first sample that is
    outside after a sample strictly inside, plus 2mm, and exactly 10cm
    when there is no such sample.  On a slab of thickness [T] along the
    ray the result lies in (T + 2mm, T + 1mm + 2mm] when T is more than
    the step and less than the cap, and is the fallback of 10cm
    otherwise. *)
Theorem through_distance (sketch : Sketch) (circleCenter : Point2D)
  (targetBody : BRepBody) (direction : ExtentDirections) :
  let center3D := transformBy (transform sketch) circleCenter in
  let normal := zAxis (transform sketch) in
  let multiplier := multiplierOf direction in
  let r := findDistanceThroughBody sketch circleCenter targetBody direction in
  (steps = seq 1 1000 /\ stepSize * 10 == 1 /\ maxDistance * 10 == 1000) /\
  ((exists pre i post,
      steps = pre ++ i :: post /\
      exitAt targetBody center3D normal multiplier false pre i /\
      (forall pre' i' post', pre = pre' ++ i' :: post' ->
         ~ exitAt targetBody center3D normal multiplier false pre' i') /\
      r = distanceAt i + 0.2)
   \/
   ((forall pre i post, steps = pre ++ i :: post ->
       ~ exitAt targetBody center3D normal multiplier false pre i) /\
    r = 10.0)) /\
  (forall T, slabAlong targetBody center3D normal multiplier T steps ->
     (stepSize < T -> T < maxDistance -> T + 0.2 < r /\ r <= T + stepSize + 0.2) /\
     (T <= stepSize \/ maxDistance <= T -> r = 10.0)).
Proof.
  intros center3D normal multiplier r.
  split; [repeat split; reflexivity|]. split.
  - unfold r, findDistanceThroughBody. fold center3D. fold normal. fold multiplier.
    destruct (march targetBody center3D normal multiplier false steps) as [d|] eqn:E.
    + left. apply march_Some in E.
      destruct E as (pre & i & post & Hsplit & Hexit & Hfirst & ->).
      exists pre, i, post. repeat split; trivial; apply Hexit.
    + right. split; [|reflexivity]. now apply march_None.
  - intros T Hslab. unfold r, findDistanceThroughBody.
    fold center3D. fold normal. fold multiplier. split.
    + intros Hlo Hhi.
      destruct (march_slab_bounds _ _ _ _ T Hslab Hlo Hhi) as (i & -> & H1 & H2).
      split; lra.
    + intros [Hthin|Hthick].
      * now rewrite (march_slab_thin _ _ _ _ T Hslab Hthin).
      * now rewrite (march_slab_thick _ _ _ _ T Hslab Hthick).
Qed.

(** The 10mm plate: the through distance is between 12mm and 13mm. *)
Lemma through_distance_witness :
  let r := findDistanceThroughBody plainSketch xyOrigin (slab 1) PositiveExtentDirection in
  1 + 0.2 < r /\ r <= 1 + stepSize + 0.2.
Proof.
  apply (through_distance plainSketch xyOrigin (slab 1) PositiveExtentDirection).
  - apply slab_slabAlong.
  - reflexivity.
  - reflexivity.
Defined.

(** C3, as the spec states it, fails: on the 10mm plate the result is
    exactly T + 1mm + 2mm, on a plate of 0.5mm and on one of 1m it is the
    fallback of 10cm. *)
Lemma through_distance_counterexample :
  (let r := findDistanceThroughBody plainSketch xyOrigin (slab 1) PositiveExtentDirection in
   r == 1.3 /\ ~ (1 <= r /\ r < 1 + stepSize + 0.2)) /\
  (let r := findDistanceThroughBody plainSketch xyOrigin (slab 0.05) PositiveExtentDirection in
   r = 10.0 /\ ~ (0.05 <= r /\ r < 0.05 + stepSize + 0.2)) /\
  (let r := findDistanceThroughBody plainSketch xyOrigin (slab 100) PositiveExtentDirection in
   r = 10.0 /\ ~ (100 <= r /\ r < 100 + stepSize + 0.2)).
Proof.
  split; [|split]; cbv zeta.
  - split; [vm_compute; reflexivity|].
    intros [_ H]. vm_compute in H. discriminate H.
  - assert (Hr : findDistanceThroughBody plainSketch xyOrigin (slab 0.05)
                   PositiveExtentDirection = 10.0).
    { unfold findDistanceThroughBody.
      rewrite (march_slab_thin _ _ _ _ 0.05 (slab_slabAlong 0.05)); [reflexivity|].
      vm_compute. discriminate. }
    rewrite Hr. split; [reflexivity|].
    intros [_ H]. vm_compute in H. discriminate H.
  - assert (Hr : findDistanceThroughBody plainSketch xyOrigin (slab 100)
                   PositiveExtentDirection = 10.0).
    { unfold findDistanceThroughBody.
      rewrite (march_slab_thick _ _ _ _ 100 (slab_slabAlong 100)); [reflexivity|].
      vm_compute. discriminate. }
    rewrite Hr. split; [reflexivity|].
    intros [H _]. vm_compute in H. now apply H.
Qed.

End ThroughBoreFacts.

(** ** The feature edge locator *)

Module EdgeLocatorFacts.

Import EdgeLocator ResolverScenarios BodyScenarios.

(** After the sort the first candidate is an extreme one. *)
Lemma firstEdge_sorted (reverse : bool) (l : list CandidateEdge) :
  l <> [] ->
  exists c,
    In c l /\
    firstEdge (sortByKey cand_distance reverse l) = Some (cand_edge c) /\
    forall c', In c' l -> mayPrecede reverse (cand_distance c) (cand_distance c').
Proof.
  intros Hl.
  pose proof (sortByKey_headFirst cand_distance reverse l) as Hhead.
  pose proof (sortByKey_nonempty cand_distance reverse l Hl) as Hne.
  pose proof (sortByKey_In cand_distance reverse l) as Hin.
  destruct (sortByKey cand_distance reverse l) as [|c rest]; [congruence|].
  exists c. split; [|split].
  - apply Hin. now left.
  - reflexivity.
  - intros c' Hc'. apply Hhead. now apply Hin.
Qed.

Lemma firstEdge_sorted_pair (reverse : bool) (a b : CandidateEdge) (l : list CandidateEdge) :
  cand_distance a < cand_distance b ->
  l = [a; b] \/ l = [b; a] ->
  firstEdge (sortByKey cand_distance reverse l)
  = Some (cand_edge (if reverse then b else a)).
Proof.
  intros Hlt [-> | ->]; unfold sortByKey; simpl; unfold goesFirst; destruct reverse.
  - assert (E : Qgeb (cand_distance a) (cand_distance b) = false) by now apply Qgeb_lt.
    now rewrite E.
  - assert (E : Qleb (cand_distance a) (cand_distance b) = true)
      by (apply Qleb_le; now apply Qlt_le_weak).
    now rewrite E.
  - assert (E : Qgeb (cand_distance b) (cand_distance a) = true)
      by (apply Qgeb_ge; now apply Qlt_le_weak).
    now rewrite E.
  - assert (E : Qleb (cand_distance b) (cand_distance a) = false) by now apply Qleb_gt.
    now rewrite E.
Qed.

Section Locator.

Variable vecLength : Vector3D -> Q.
Variable sqrt : Q -> Q.

(** C4. Among the edges that survive the filters, [findChamferEdge]
    returns one at the smallest distance from the sketch plane and
    [addBottomRadiusToBlindHole] selects one at the largest; of two
    survivors at distances d1 < d2 the first returns the one at d1 and
    the second selects the one at d2. *)
Theorem edge_selection_extremes (targetBody : BRepBody) (sketch : Sketch)
  (circleCenter : Point2D) (holeDiameter : Q) :
  let entry := chamferCandidates vecLength targetBody sketch circleCenter holeDiameter in
  let bottom := bottomCandidates vecLength sqrt targetBody sketch circleCenter holeDiameter in
  let chamferEdge := findChamferEdge vecLength targetBody sketch circleCenter holeDiameter in
  let filletEdge := bottomEdge vecLength sqrt targetBody sketch circleCenter holeDiameter in
  (entry <> [] ->
   exists c, In c entry /\ chamferEdge = Some (cand_edge c) /\
             forall c', In c' entry -> cand_distance c <= cand_distance c') /\
  (bottom <> [] ->
   exists c, In c bottom /\ filletEdge = Some (cand_edge c) /\
             forall c', In c' bottom -> cand_distance c' <= cand_distance c) /\
  (forall a b, cand_distance a < cand_distance b ->
               entry = [a; b] \/ entry = [b; a] -> chamferEdge = Some (cand_edge a)) /\
  (forall a b, cand_distance a < cand_distance b ->
               bottom = [a; b] \/ bottom = [b; a] -> filletEdge = Some (cand_edge b)).
Proof.
  intros entry bottom chamferEdge filletEdge.
  unfold chamferEdge, filletEdge, findChamferEdge, bottomEdge.
  fold entry. fold bottom. repeat split.
  - intros Hne. exact (firstEdge_sorted false entry Hne).
  - intros Hne. exact (firstEdge_sorted true bottom Hne).
  - intros a b Hlt Hl. exact (firstEdge_sorted_pair false a b entry Hlt Hl).
  - intros a b Hlt Hl. exact (firstEdge_sorted_pair true a b bottom Hlt Hl).
Qed.

(** What the filters of [findChamferEdge] establish for an edge they keep. *)
Lemma chamferCandidate_kept (center3D : Point3D) (normal : Vector3D)
  (expectedRadius : Q) (edge : BRepEdge) (c : CandidateEdge) :
  chamferCandidate vecLength center3D normal expectedRadius edge = Some c ->
  exists edgeCenter edgeNormal edgeRadius,
    geometry edge = Circle3D edgeCenter edgeNormal edgeRadius /\
    Qabs (edgeRadius - expectedRadius) <= 0.001 /\
    0.99 <= Qabs (dot edgeNormal normal) /\
    vecLength (vecBetween center3D edgeCenter)
    - Qabs (dot (vecBetween center3D edgeCenter) normal) <= 0.01 /\
    c = (edge, Qabs (dot (vecBetween center3D edgeCenter) normal)).
Proof.
  unfold chamferCandidate.
  destruct (geometry edge) as [edgeCenter edgeNormal edgeRadius|]; [|discriminate].
  destruct (Qgtb (Qabs (edgeRadius - expectedRadius)) 0.001) eqn:E1; [discriminate|].
  destruct (Qltb (Qabs (dot edgeNormal normal)) 0.99) eqn:E2; [discriminate|].
  destruct (Qgtb _ 0.01) eqn:E3; [discriminate|].
  intros [= <-]. exists edgeCenter, edgeNormal, edgeRadius.
  apply Qgtb_le in E1. apply Qltb_ge in E2. apply Qgtb_le in E3. repeat split; trivial.
Qed.

(** What the filters of [addBottomRadiusToBlindHole] establish for an edge
    they keep; where the length and the root are exact and the normal is
    a unit vector, the last of them bounds the distance of the edge's
    center from the axis. *)
Lemma bottomCandidate_kept (center3D : Point3D) (normal : Vector3D)
  (expectedRadius : Q) (edge : BRepEdge) (c : CandidateEdge) :
  bottomCandidate vecLength sqrt center3D normal expectedRadius edge = Some c ->
  exists edgeCenter edgeNormal edgeRadius,
    geometry edge = Circle3D edgeCenter edgeNormal edgeRadius /\
    Qabs (edgeRadius - expectedRadius) <= 0.005 /\
    0.95 <= Qabs (dot edgeNormal normal) /\
    (let v := vecBetween center3D edgeCenter in
     let squared := vecLength v * vecLength v - Qabs (dot v normal) * Qabs (dot v normal) in
     sqrt (max0 squared) <= 0.05 /\
     (vecLength v * vecLength v == dot v v ->
      0 <= sqrt (max0 squared) ->
      sqrt (max0 squared) * sqrt (max0 squared) == max0 squared ->
      dot v v - dot v normal * dot v normal <= 0.05 * 0.05)) /\
    c = (edge, Qabs (dot (vecBetween center3D edgeCenter) normal)).
Proof.
  unfold bottomCandidate.
  destruct (geometry edge) as [edgeCenter edgeNormal edgeRadius|]; [|discriminate].
  destruct (Qgtb (Qabs (edgeRadius - expectedRadius)) 0.005) eqn:E1; [discriminate|].
  destruct (Qltb (Qabs (dot edgeNormal normal)) 0.95) eqn:E2; [discriminate|].
  destruct (Qgtb _ 0.05) eqn:E3; [discriminate|].
  intros [= <-]. exists edgeCenter, edgeNormal, edgeRadius.
  apply Qgtb_le in E1. apply Qltb_ge in E2. apply Qgtb_le in E3.
  repeat split; trivial.
  intros Hlen Hpos Hroot.
  set (v := vecBetween center3D edgeCenter) in *.
  set (s := sqrt _) in *.
  assert (Habs : Qabs (dot v normal) * Qabs (dot v normal) == dot v normal * dot v normal).
  { apply Qabs_case; intros _; ring. }
  assert (Hmax : vecLength v * vecLength v - Qabs (dot v normal) * Qabs (dot v normal)
                 <= s * s).
  { rewrite Hroot. unfold max0.
    destruct (Qgtb _ 0) eqn:E; [apply Qle_refl|]. now apply Qgtb_le in E. }
  assert (Hs : s * s <= 0.05 * 0.05) by nra.
  rewrite Hlen, Habs in Hmax. lra.
Qed.

End Locator.

Lemma edge_selection_extremes_witness :
  findChamferEdge exactLength boredPlate plainSketch xyOrigin 0.44 = Some entryRim /\
  bottomEdge exactLength Qsqrt_exact boredPlate plainSketch xyOrigin 0.44 = Some floorRim.
Proof.
  destruct (edge_selection_extremes exactLength Qsqrt_exact boredPlate plainSketch
              xyOrigin 0.44) as (_ & _ & Hentry & Hbottom).
  set (entry := chamferCandidates exactLength boredPlate plainSketch xyOrigin 0.44).
  set (bottom := bottomCandidates exactLength Qsqrt_exact boredPlate plainSketch
                   xyOrigin 0.44).
  split.
  - rewrite (Hentry (nth 1 entry (plateEdge, 0)) (nth 0 entry (plateEdge, 0))).
    + vm_compute. reflexivity.
    + vm_compute. reflexivity.
    + right. vm_compute. reflexivity.
  - rewrite (Hbottom (nth 1 bottom (plateEdge, 0)) (nth 0 bottom (plateEdge, 0))).
    + vm_compute. reflexivity.
    + vm_compute. reflexivity.
    + right. vm_compute. reflexivity.
Defined.

(** C7 at an input where the code falls short of it.  The center of
    [offAxisRim] is 0.56mm from the axis of the bore, more than the 0.1mm
    allowed; [findChamferEdge] keeps the edge all the same, because it
    compares [length - |projection|] (here 0.08mm) with the tolerance.
    The search of [addBottomRadiusToBlindHole], which takes the root of
    [length^2 - projection^2], rejects the same edge. *)
Theorem chamfer_keeps_off_axis_edge :
  let center3D := transformBy (transform plainSketch) xyOrigin in
  let normal := zAxis (transform plainSketch) in
  let v := vecBetween center3D {| px := 0.056; py := 0; pz := 0.192 |} in
  (exactLength v * exactLength v == dot v v /\ dot normal normal == 1) /\
  (dot v v - dot v normal * dot v normal == 0.056 * 0.056 /\ 0.01 < 0.056) /\
  exactLength v - Qabs (dot v normal) == 0.008 /\
  findChamferEdge exactLength offAxisBody plainSketch xyOrigin 0.44 = Some offAxisRim /\
  bottomEdge exactLength Qsqrt_exact offAxisBody plainSketch xyOrigin 0.44 = None.
Proof.
  cbv zeta. repeat split; vm_compute; reflexivity.
Qed.

End EdgeLocatorFacts.

(** ** The orchestrator *)

Module OrchestratorFacts.

Import ProfileResolver ProfileResolverFacts DirectionInferencer ThroughBore EdgeLocator.
Import Orchestrator ResolverScenarios BodyScenarios OrchestratorScenarios.

(** [findProfileForCircle] never raises: once a candidate is there, the
    search has a best combination to report on. *)
Lemma findProfileForCircle_returns (distanceTo : Point3D -> Point3D -> Q)
  (sketch : Sketch) (target_circle : SketchCircle) :
  exists found, findProfileForCircle distanceTo sketch target_circle = Ok found.
Proof.
  unfold findProfileForCircle, runFindProfileForCircle.
  destruct (negb (parentSketch target_circle =? sketch_id sketch)%nat); [simpl; eauto|].
  destruct (coarseFilter distanceTo target_circle (profiles sketch)) as [|c l] eqn:E;
    [simpl; eauto|].
  cbv beta iota zeta. cbn [returned].
  set (candidates := sortByAreaDesc (c :: l)).
  pose proof (searchCombinations_tracksBest (area target_circle) candidates) as Htr.
  destruct (searchCombinations_examined (area target_circle) candidates)
    as (post & _ & Hne).
  unfold acceptBest, tracksBest in *.
  destruct (best (searchCombinations (area target_circle) candidates)) as [[ps bd]|].
  - destruct (Qgtb bd (area target_circle * 0.03)); eauto.
  - exfalso. apply Hne.
    + apply sortByKey_nonempty. discriminate.
    + rewrite evaluated_rev, Htr. reflexivity.
Qed.

Lemma NoDup_map_eq {A B : Type} (f : A -> B) (l : list A) (x y : A) :
  List.NoDup (map f l) -> In x l -> In y l -> f x = f y -> x = y.
Proof.
  induction l as [|a l IH]; simpl; intros Hnd Hx Hy Hf; [contradiction|].
  apply List.NoDup_cons_iff in Hnd. destruct Hnd as [Hnot Hnd].
  destruct Hx as [->|Hx], Hy as [->|Hy]; trivial.
  - exfalso. apply Hnot. rewrite Hf. now apply in_map.
  - exfalso. apply Hnot. rewrite <- Hf. now apply in_map.
  - now apply IH.
Qed.

Definition succeeded (r : PointReport) : bool := negb (isFailure (report_status r)).
Definition failed (r : PointReport) : bool := isFailure (report_status r).

(** Every circle of the design is older than the next identity. *)
Definition fresh (d : Design) : Prop :=
  Forall (fun c => (circle_id c < nextId d)%nat) (sketchCircles d).

Section Batch.

Variable transformOf : nat -> Matrix3D.
Variable profilesOf : Design -> nat -> list Profile.
Variable targetBodyOf : Design -> BRepBody.
Variable circleArea : Q -> Q.
Variable distanceTo : Point3D -> Point3D -> Q.
Variable vecLength : Vector3D -> Q.
Variable sqrt : Q -> Q.
Variable INSERT_SPECS : gmap string (Q * Q * Q).
Variable settings : Settings.

Abbreviation chamferStep' := (chamferStep transformOf profilesOf targetBodyOf vecLength settings).
Abbreviation bottomRadiusStep' :=
  (bottomRadiusStep transformOf profilesOf targetBodyOf vecLength sqrt settings).
Abbreviation processPoint' :=
  (processPoint transformOf profilesOf targetBodyOf circleArea distanceTo vecLength sqrt
                settings).
Abbreviation processPoints' :=
  (processPoints transformOf profilesOf targetBodyOf circleArea distanceTo vecLength sqrt
                 settings).
Abbreviation notify' :=
  (notify transformOf profilesOf targetBodyOf circleArea distanceTo vecLength sqrt
          INSERT_SPECS settings).

(** The cosmetic steps touch neither the circles nor the cuts. *)
Lemma chamferStep_keeps inputs d sid center2d diameter :
  let d' := chamferStep' inputs d sid center2d diameter in
  sketchCircles d' = sketchCircles d /\
  extrudeFeatures d' = extrudeFeatures d /\
  nextId d' = nextId d.
Proof.
  unfold chamferStep. destruct (addChamfer inputs); simpl; [|auto].
  destruct (findChamferEdge _ _ _ _ _); simpl; auto.
Qed.

Lemma bottomRadiusStep_keeps inputs d sid center2d diameter :
  let d' := bottomRadiusStep' inputs d sid center2d diameter in
  sketchCircles d' = sketchCircles d /\
  extrudeFeatures d' = extrudeFeatures d /\
  nextId d' = nextId d.
Proof.
  unfold bottomRadiusStep, addBottomRadiusToBlindHole.
  destruct (addBottomRadius inputs && isBlindHole inputs); simpl; [|auto].
  destruct (bottomEdge _ _ _ _ _ _); simpl; auto.
Qed.

(** Deleting the circle just drawn gives back the circles there were. *)
Lemma deleteMe_new_circle (d : Design) (point : SketchPoint) (r : Q) :
  fresh d ->
  sketchCircles (deleteMe (fst (addCircleAtPoint circleArea d point r))
                          (snd (addCircleAtPoint circleArea d point r)))
  = sketchCircles d.
Proof.
  unfold fresh. simpl. intros Hfresh. rewrite List.filter_app. simpl.
  rewrite Nat.eqb_refl. simpl. rewrite app_nil_r.
  induction Hfresh as [|c l Hc Hl IH]; simpl; [reflexivity|].
  assert (E : (circle_id c =? nextId d)%nat = false) by (apply Nat.eqb_neq; lia).
  rewrite E. simpl. now rewrite IH.
Qed.

(** What one turn of the loop does to the batch. *)
Definition turn (inputs : CommandInputs) (insertLen : Q) (b : Batch) (point : SketchPoint)
  (circle : SketchCircle) (d1 : Design) (b' : Batch) : Prop :=
  let sketch := sketchIn transformOf profilesOf d1 (point_parentSketch point) in
  exists s,
    reports b' = reports b ++ [{| report_point := point;
                                  report_circle := circle_id circle;
                                  report_status := s |}] /\
    nextId (design b') = nextId d1 /\
    successCount b' = (if isFailure s then successCount b else S (successCount b)) /\
    failedCount b' = (if isFailure s then S (failedCount b) else failedCount b) /\
    sketchCircles (design b')
    = (if isFailure s then sketchCircles (deleteMe circle d1) else sketchCircles d1) /\
    (if isFailure s then extrudeFeatures (design b') = extrudeFeatures d1
     else exists f,
         extrudeFeatures (design b') = extrudeFeatures d1 ++ [f] /\
         (isBlindHole inputs = true ->
          extrude_distance f = (insertLen + blind_hole_extra_depth settings) / 10.0)) /\
    (isFailure s = true <->
     findProfileForCircle distanceTo sketch circle = Ok None \/
     findExtrudeDirectionFromSketch sketch (point_geometry point) (targetBodyOf d1) = None).

Lemma processPoint_turn inputs holeRadius insertLen b point :
  exists b',
    processPoint' inputs holeRadius insertLen b point = Ok b' /\
    turn inputs insertLen b point
         (fst (addCircleAtPoint circleArea (design b) point holeRadius))
         (snd (addCircleAtPoint circleArea (design b) point holeRadius)) b'.
Proof.
  unfold processPoint, turn.
  destruct (addCircleAtPoint circleArea (design b) point holeRadius) as [circle d1] eqn:Hadd.
  cbv zeta. simpl fst. simpl snd.
  set (sketch := sketchIn transformOf profilesOf d1 (point_parentSketch point)).
  destruct (findProfileForCircle_returns distanceTo sketch circle) as (found & Hfound).
  rewrite Hfound. destruct found as [sel|].
  - destruct (findExtrudeDirectionFromSketch sketch (point_geometry point)
                (targetBodyOf d1)) as [direction|] eqn:Hdir.
    + eexists. split; [reflexivity|]. exists Succeeded. simpl.
      match goal with
      | |- context [bottomRadiusStep' inputs ?d3 ?sid ?c ?dia] =>
          destruct (bottomRadiusStep_keeps inputs d3 sid c dia) as (Hc4 & He4 & Hn4)
      end.
      match goal with
      | H : context [chamferStep' inputs ?d2 ?sid ?c ?dia] |- _ =>
          destruct (chamferStep_keeps inputs d2 sid c dia) as (Hc3 & He3 & Hn3)
      end.
      cbv zeta in *. rewrite Hc4, He4, Hn4, Hc3, He3, Hn3. simpl.
      repeat split; trivial.
      * eexists. split; [reflexivity|]. intros Hblind. simpl. now rewrite Hblind.
      * discriminate.
      * intros [H|H]; discriminate H.
    + eexists. split; [reflexivity|]. exists NoDirection. simpl.
      repeat split; trivial. intros _. now right.
  - eexists. split; [reflexivity|]. exists NoProfile. simpl.
    repeat split; trivial. intros _. now left.
Qed.

(** The invariant of the loop over the points, started in the design [d0]:
    the circles drawn so far are numbered from [nextId d0] on, one per
    report; those of the points that succeeded are in the design, after
    the circles of [d0], and no others; the counters count the reports. *)
Definition batchInv (d0 : Design) (b : Batch) : Prop :=
  fresh (design b) /\
  nextId (design b) = (nextId d0 + length (reports b))%nat /\
  map report_circle (reports b) = seq (nextId d0) (length (reports b)) /\
  map circle_id (sketchCircles (design b))
  = map circle_id (sketchCircles d0)
    ++ map report_circle (List.filter succeeded (reports b)) /\
  successCount b = length (List.filter succeeded (reports b)) /\
  failedCount b = length (List.filter failed (reports b)).

Lemma batchInv_start (d0 : Design) :
  fresh d0 ->
  batchInv d0 {| design := d0; successCount := 0; failedCount := 0; reports := [] |}.
Proof.
  intros Hfresh. unfold batchInv. simpl.
  rewrite Nat.add_0_r, app_nil_r. repeat split; auto.
Qed.

(** What the loop adds is as the insert says: each cut of a blind hole
    has the depth of the formula, each circle the radius of the bore. *)
Definition boreInv (inputs : CommandInputs) (holeRadius insertLen : Q) (d0 : Design)
  (b : Batch) : Prop :=
  (forall f, In f (extrudeFeatures (design b)) ->
     In f (extrudeFeatures d0) \/
     (isBlindHole inputs = true ->
      extrude_distance f = (insertLen + blind_hole_extra_depth settings) / 10.0)) /\
  (forall c, In c (sketchCircles (design b)) ->
     In c (sketchCircles d0) \/ radius c = holeRadius).

Lemma turn_boreInv inputs holeRadius insertLen d0 b point b' :
  boreInv inputs holeRadius insertLen d0 b ->
  turn inputs insertLen b point
       (fst (addCircleAtPoint circleArea (design b) point holeRadius))
       (snd (addCircleAtPoint circleArea (design b) point holeRadius)) b' ->
  boreInv inputs holeRadius insertLen d0 b'.
Proof.
  intros (Hcuts & Hcircles) (s & _ & _ & _ & _ & Hcirc & Hext & _).
  set (circle := fst (addCircleAtPoint circleArea (design b) point holeRadius)) in *.
  set (d1 := snd (addCircleAtPoint circleArea (design b) point holeRadius)) in *.
  assert (Hc1 : sketchCircles d1 = sketchCircles (design b) ++ [circle]) by reflexivity.
  assert (He1 : extrudeFeatures d1 = extrudeFeatures (design b)) by reflexivity.
  assert (Hr1 : radius circle = holeRadius) by reflexivity.
  assert (Hdel : forall c, In c (sketchCircles (deleteMe circle d1)) ->
                           In c (sketchCircles d1)).
  { intros c Hc. simpl in Hc. apply filter_In in Hc. apply Hc. }
  clearbody circle d1. rewrite He1 in Hext.
  assert (Hnew : forall c, In c (sketchCircles d1) ->
                           In c (sketchCircles d0) \/ radius c = holeRadius).
  { intros c Hc. rewrite Hc1 in Hc. apply in_app_or in Hc.
    destruct Hc as [Hc|[<-|[]]]; [now apply Hcircles|now right]. }
  split.
  - intros f Hf. destruct (isFailure s).
    + rewrite Hext in Hf. now apply Hcuts.
    + destruct Hext as (g & Hg & Hdepth). rewrite Hg in Hf. apply in_app_or in Hf.
      destruct Hf as [Hf|[<-|[]]]; [now apply Hcuts|now right].
  - intros c Hc. rewrite Hcirc in Hc. apply Hnew.
    destruct (isFailure s); [now apply Hdel|exact Hc].
Qed.

Lemma turn_batchInv inputs holeRadius insertLen d0 b point b' :
  batchInv d0 b ->
  turn inputs insertLen b point
       (fst (addCircleAtPoint circleArea (design b) point holeRadius))
       (snd (addCircleAtPoint circleArea (design b) point holeRadius)) b' ->
  batchInv d0 b'.
Proof.
  intros (Hfresh & Hnext & Hids & Hcircles & Hsucc & Hfail)
         (s & Hrep & Hn & Hsc & Hfc & Hcirc & Hext & _).
  pose proof (deleteMe_new_circle (design b) point holeRadius Hfresh) as Hdel.
  set (circle := fst (addCircleAtPoint circleArea (design b) point holeRadius)) in *.
  set (d1 := snd (addCircleAtPoint circleArea (design b) point holeRadius)) in *.
  assert (Hn1 : nextId d1 = S (nextId (design b))) by reflexivity.
  assert (Hc1 : sketchCircles d1 = sketchCircles (design b) ++ [circle]) by reflexivity.
  assert (He1 : extrudeFeatures d1 = extrudeFeatures (design b)) by reflexivity.
  assert (Hid1 : circle_id circle = nextId (design b)) by reflexivity.
  clearbody circle d1.
  rewrite Hn1 in Hn. rewrite Hid1 in Hrep. rewrite He1 in Hext.
  set (rep := {| report_point := point; report_circle := nextId (design b);
                 report_status := s |}) in *.
  assert (Hlen : length (reports b') = S (length (reports b))).
  { rewrite Hrep, length_app. simpl. lia. }
  assert (Hids' : map report_circle (reports b') = seq (nextId d0) (length (reports b'))).
  { rewrite Hlen, seq_S, Hrep, map_app, Hids. simpl. now rewrite Hnext. }
  assert (Hfs : List.filter succeeded (reports b')
                = List.filter succeeded (reports b) ++ (if isFailure s then [] else [rep])).
  { rewrite Hrep, List.filter_app. simpl. unfold succeeded at 2. simpl.
    now destruct (isFailure s). }
  assert (Hff : List.filter failed (reports b')
                = List.filter failed (reports b) ++ (if isFailure s then [rep] else [])).
  { rewrite Hrep, List.filter_app. simpl. unfold failed at 2. simpl.
    now destruct (isFailure s). }
  assert (Holder : Forall (fun c => (circle_id c < nextId (design b'))%nat)
                          (sketchCircles (design b))).
  { eapply List.Forall_impl; [|exact Hfresh]. simpl. intros c Hc. lia. }
  unfold batchInv, fresh.
  rewrite Hfs, Hff, Hids', Hsc, Hfc, Hcirc.
  destruct (isFailure s) eqn:Es.
  - (* the point failed: the circle is gone *)
    rewrite Hdel, !app_nil_r, length_app. simpl.
    split; [exact Holder|]. split; [lia|]. split; [reflexivity|].
    split; [exact Hcircles|]. split; [exact Hsucc|]. lia.
  - (* the point succeeded: the circle stays *)
    destruct Hext as (f & Hf & Hdepth).
    rewrite Hc1, !app_nil_r, length_app. simpl.
    split.
    { apply Forall_app. split; [exact Holder|].
      constructor; [lia|constructor]. }
    split; [lia|]. split; [reflexivity|].
    split.
    { rewrite !map_app, Hcircles, <- app_assoc. simpl. now rewrite Hid1. }
    split; lia.
Qed.

Lemma turn_reports inputs insertLen b point circle d1 b' :
  turn inputs insertLen b point circle d1 b' ->
  map report_point (reports b') = map report_point (reports b) ++ [point].
Proof.
  intros (s & Hrep & _). rewrite Hrep, map_app. reflexivity.
Qed.

Lemma processPoints_boreInv inputs holeRadius insertLen d0 points b :
  boreInv inputs holeRadius insertLen d0 b ->
  exists b',
    processPoints' inputs holeRadius insertLen b points = Ok b' /\
    boreInv inputs holeRadius insertLen d0 b'.
Proof.
  revert b. induction points as [|point points IH]; intros b Hinv; simpl.
  - exists b. auto.
  - destruct (processPoint_turn inputs holeRadius insertLen b point) as (b1 & Hb1 & Hturn).
    rewrite Hb1. exact (IH b1 (turn_boreInv _ _ _ _ _ _ _ Hinv Hturn)).
Qed.

Lemma processPoints_batchInv inputs holeRadius insertLen d0 points b :
  batchInv d0 b ->
  exists b',
    processPoints' inputs holeRadius insertLen b points = Ok b' /\
    batchInv d0 b' /\
    map report_point (reports b') = map report_point (reports b) ++ points.
Proof.
  revert b. induction points as [|point points IH]; intros b Hinv; simpl.
  - exists b. rewrite app_nil_r. auto.
  - destruct (processPoint_turn inputs holeRadius insertLen b point) as (b1 & Hb1 & Hturn).
    rewrite Hb1.
    destruct (IH b1 (turn_batchInv _ _ _ _ _ _ _ Hinv Hturn)) as (b' & Hb' & Hinv' & Hpts).
    exists b'. split; [exact Hb'|]. split; [exact Hinv'|].
    rewrite Hpts, (turn_reports _ _ _ _ _ _ _ Hturn), <- app_assoc. reflexivity.
Qed.

Lemma filter_partition_length (l : list PointReport) :
  (length (List.filter succeeded l) + length (List.filter failed l) = length l)%nat.
Proof.
  induction l as [|r l IH]; simpl; [reflexivity|].
  unfold succeeded, failed in *. destruct (isFailure (report_status r)); simpl; lia.
Qed.

(** C8. A point at which [findProfileForCircle] returns [None] or
    [findExtrudeDirectionFromSketch] returns [None] leaves the circles of
    the design as they were before it and adds one to the failures; the
    loop goes on to the end of the selection, every point is counted
    once, and in the design it leaves there is no circle of a point that
    failed. *)
Theorem cleanup_invariant (inputs : CommandInputs) (d : Design) (spec : Q * Q * Q) :
  fresh d ->
  INSERT_SPECS !! insertName inputs = Some spec ->
  (forall holeRadius insertLen b point,
     fresh (design b) ->
     let circle := fst (addCircleAtPoint circleArea (design b) point holeRadius) in
     let d1 := snd (addCircleAtPoint circleArea (design b) point holeRadius) in
     let sketch := sketchIn transformOf profilesOf d1 (point_parentSketch point) in
     findProfileForCircle distanceTo sketch circle = Ok None \/
     findExtrudeDirectionFromSketch sketch (point_geometry point) (targetBodyOf d1) = None ->
     exists b',
       processPoint' inputs holeRadius insertLen b point = Ok b' /\
       sketchCircles (design b') = sketchCircles (design b) /\
       ~ In circle (sketchCircles (design b')) /\
       failedCount b' = S (failedCount b) /\
       successCount b' = successCount b) /\
  exists b,
    notify' inputs d = Ok b /\
    map report_point (reports b) = selectedPoints inputs /\
    (successCount b + failedCount b = length (selectedPoints inputs))%nat /\
    failedCount b = length (List.filter failed (reports b)) /\
    (forall rep, In rep (reports b) -> isFailure (report_status rep) = true ->
       forall c, In c (sketchCircles (design b)) -> circle_id c <> report_circle rep).
Proof.
  intros Hfresh Hspec. split.
  - intros holeRadius insertLen b point Hb circle d1 sketch Hstage.
    destruct (processPoint_turn inputs holeRadius insertLen b point)
      as (b' & Hb' & s & _ & _ & Hsc & Hfc & Hcirc & _ & Hiff).
    fold circle d1 sketch in Hiff, Hcirc.
    apply Hiff in Hstage. rewrite Hstage in Hsc, Hfc, Hcirc.
    pose proof (deleteMe_new_circle (design b) point holeRadius Hb) as Hdel.
    fold circle d1 in Hdel. rewrite Hdel in Hcirc.
    exists b'. repeat split; trivial.
    rewrite Hcirc. intros Hin. unfold fresh in Hb.
    rewrite List.Forall_forall in Hb. specialize (Hb circle Hin).
    unfold circle in Hb. simpl in Hb. lia.
  - unfold notify. rewrite Hspec. destruct spec as [[holeDia insertLen] minWall].
    destruct (processPoints_batchInv inputs (holeDia / 2.0 / 10.0) insertLen d
                (selectedPoints inputs) _ (batchInv_start d Hfresh))
      as (b & Hb & Hinv & Hpts).
    simpl in Hpts.
    destruct Hinv as (_ & _ & Hids & Hcircles & Hsucc & Hfail).
    exists b. split; [exact Hb|]. split; [exact Hpts|].
    split; [|split; [exact Hfail|]].
    + rewrite Hsucc, Hfail, filter_partition_length.
      rewrite <- Hpts. now rewrite length_map.
    + intros rep Hrep Hfailed c Hc Heq.
      assert (Hid : In (circle_id c) (map circle_id (sketchCircles (design b))))
        by now apply in_map.
      rewrite Hcircles in Hid. apply in_app_or in Hid. destruct Hid as [Hid|Hid].
      * (* a circle of the initial design is older than every report *)
        apply in_map_iff in Hid. destruct Hid as (c0 & Hc0 & Hin0).
        unfold fresh in Hfresh. rewrite List.Forall_forall in Hfresh.
        specialize (Hfresh c0 Hin0).
        assert (Hr : In (report_circle rep) (map report_circle (reports b)))
          by now apply in_map.
        rewrite Hids in Hr. apply in_seq in Hr. lia.
      * (* the circle of a point that succeeded belongs to another report *)
        apply in_map_iff in Hid. destruct Hid as (rep' & Hrc & Hin').
        apply filter_In in Hin'. destruct Hin' as [Hin' Hs'].
        assert (rep' = rep).
        { apply (NoDup_map_eq report_circle (reports b)); trivial.
          - rewrite Hids. apply seq_NoDup.
          - congruence. }
        subst rep'. unfold succeeded in Hs'. rewrite Hfailed in Hs'. discriminate.
Qed.

(** What the loop does to the cuts: one is added, after those that are
    there, for each point that succeeds, none for a point that fails. *)
Lemma processPoints_cuts inputs holeRadius insertLen points b :
  exists b' cuts,
    processPoints' inputs holeRadius insertLen b points = Ok b' /\
    extrudeFeatures (design b') = extrudeFeatures (design b) ++ cuts /\
    successCount b' = (successCount b + length cuts)%nat /\
    (isBlindHole inputs = true ->
     Forall (fun f => extrude_distance f
                      = (insertLen + blind_hole_extra_depth settings) / 10.0) cuts).
Proof.
  revert b. induction points as [|point points IH]; intros b; simpl.
  - exists b, []. rewrite app_nil_r. simpl. split; [reflexivity|]. split; [reflexivity|].
    split; [lia|]. intros _. constructor.
  - destruct (processPoint_turn inputs holeRadius insertLen b point)
      as (b1 & Hb1 & s & _ & _ & Hsc & _ & _ & Hext & _).
    rewrite Hb1. destruct (IH b1) as (b' & cuts & Hb' & He & Hs & Hd).
    change (extrudeFeatures (snd (addCircleAtPoint circleArea (design b) point holeRadius)))
      with (extrudeFeatures (design b)) in Hext.
    destruct (isFailure s).
    + exists b', cuts. split; [exact Hb'|]. rewrite He, Hs, Hext, Hsc. auto.
    + destruct Hext as (f & Hf & Hdepth).
      exists b', (f :: cuts). split; [exact Hb'|].
      rewrite He, Hs, Hf, Hsc, <- app_assoc. simpl.
      split; [reflexivity|]. split; [lia|].
      intros Hblind. constructor; auto.
Qed.

(** A point that has a profile and a direction gets its cut. *)
Lemma processPoint_bores inputs holeRadius insertLen b point sel direction :
  let circle := fst (addCircleAtPoint circleArea (design b) point holeRadius) in
  let d1 := snd (addCircleAtPoint circleArea (design b) point holeRadius) in
  let sketch := sketchIn transformOf profilesOf d1 (point_parentSketch point) in
  let distance :=
    if isBlindHole inputs
    then (insertLen + blind_hole_extra_depth settings) / 10.0
    else findDistanceThroughBody sketch (point_geometry point) (targetBodyOf d1)
                                 direction in
  findProfileForCircle distanceTo sketch circle = Ok (Some sel) ->
  findExtrudeDirectionFromSketch sketch (point_geometry point) (targetBodyOf d1)
  = Some direction ->
  exists b',
    processPoint' inputs holeRadius insertLen b point = Ok b' /\
    extrudeFeatures (design b')
    = extrudeFeatures (addExtrude d1 {| extrude_profile := sel;
                                        extrude_distance := distance;
                                        extrude_direction := direction |}) /\
    successCount b' = S (successCount b) /\
    failedCount b' = failedCount b /\
    In circle (sketchCircles (design b')).
Proof.
  cbv zeta. unfold processPoint.
  destruct (addCircleAtPoint circleArea (design b) point holeRadius) as [circle d1] eqn:Hadd.
  assert (Hc1 : sketchCircles d1 = sketchCircles (design b) ++ [circle])
    by (injection Hadd as <- <-; reflexivity).
  clear Hadd. cbv zeta. cbn [fst snd]. intros Hprof Hdir. rewrite Hprof, Hdir.
  eexists. split; [reflexivity|]. cbn [design report successCount failedCount isFailure].
  match goal with
  | |- context [bottomRadiusStep' inputs ?d3 ?sid ?c ?dia] =>
      destruct (bottomRadiusStep_keeps inputs d3 sid c dia) as (Hc4 & He4 & _)
  end.
  match goal with
  | H : context [chamferStep' inputs ?d2 ?sid ?c ?dia] |- _ =>
      destruct (chamferStep_keeps inputs d2 sid c dia) as (Hc3 & He3 & _)
  end.
  cbv zeta in *. rewrite Hc4, He4, Hc3, He3. cbn [addExtrude sketchCircles].
  repeat split. rewrite Hc1. apply in_or_app. right. now left.
Qed.

(** C9. In blind-hole mode a point that has a profile and a direction
    gets a cut as deep as the insert is long plus the extra depth of the
    settings, both in mm, over 10, through the profile found and in the
    direction found, and keeps its circle, whose radius is the hole
    diameter over 2 over 10.  Over a whole selection [notify] adds one
    such cut per point that succeeded, after the cuts that were there,
    and nothing else to the cuts.  On the plate of E2E-1, with the insert
    M3 x 5.7mm (standard) and an extra depth of 1.0mm, the run makes one
    bore, 6.7mm deep and 4.4mm wide. *)
Theorem blind_hole_depth (inputs : CommandInputs) (d : Design)
  (holeDia insertLen minWall : Q) :
  isBlindHole inputs = true ->
  INSERT_SPECS !! insertName inputs = Some (holeDia, insertLen, minWall) ->
  let depth := (insertLen + blind_hole_extra_depth settings) / 10.0 in
  let holeRadius := holeDia / 2.0 / 10.0 in
  (forall b point sel direction,
     let circle := fst (addCircleAtPoint circleArea (design b) point holeRadius) in
     let d1 := snd (addCircleAtPoint circleArea (design b) point holeRadius) in
     let sketch := sketchIn transformOf profilesOf d1 (point_parentSketch point) in
     findProfileForCircle distanceTo sketch circle = Ok (Some sel) ->
     findExtrudeDirectionFromSketch sketch (point_geometry point) (targetBodyOf d1)
     = Some direction ->
     exists b',
       processPoint' inputs holeRadius insertLen b point = Ok b' /\
       extrudeFeatures (design b')
       = extrudeFeatures (addExtrude d1 {| extrude_profile := sel;
                                           extrude_distance := depth;
                                           extrude_direction := direction |}) /\
       successCount b' = S (successCount b) /\
       In circle (sketchCircles (design b')) /\
       radius circle = holeRadius) /\
  (exists b cuts,
     notify' inputs d = Ok b /\
     extrudeFeatures (design b) = extrudeFeatures d ++ cuts /\
     length cuts = successCount b /\
     Forall (fun f => extrude_distance f = depth) cuts /\
     (forall f, In f (extrudeFeatures (design b)) ->
        In f (extrudeFeatures d) \/ extrude_distance f = depth) /\
     (forall c, In c (sketchCircles (design b)) ->
        In c (sketchCircles d) \/ radius c = holeRadius)) /\
  (get_default_inserts !! "M3 x 5.7mm (standard)"%string = Some (4.4, 5.7, 1.6) /\
   blind_hole_extra_depth CONFIG = 1.0 /\
   exists b f c,
     exampleNotify blindM3 emptyDesign = Ok b /\
     (successCount b, failedCount b) = (1, 0)%nat /\
     extrudeFeatures (design b) = [f] /\
     extrude_distance f * 10 == 6.7 /\
     sketchCircles (design b) = [c] /\
     radius c * 2 * 10 == 4.4).
Proof.
  intros Hblind Hspec. cbv zeta. split; [|split].
  - intros b point sel direction Hprof Hdir.
    destruct (processPoint_bores inputs (holeDia / 2.0 / 10.0) insertLen b point sel
                direction Hprof Hdir) as (b' & Hb' & He & Hs & _ & Hc).
    rewrite Hblind in He. exists b'. repeat split; assumption.
  - unfold notify. rewrite Hspec.
    destruct (processPoints_cuts inputs (holeDia / 2.0 / 10.0) insertLen
                (selectedPoints inputs)
                {| design := d; successCount := 0; failedCount := 0; reports := [] |})
      as (b & cuts & Hb & He & Hs & Hd).
    destruct (processPoints_boreInv inputs (holeDia / 2.0 / 10.0) insertLen d
                (selectedPoints inputs)
                {| design := d; successCount := 0; failedCount := 0; reports := [] |})
      as (b0 & Hb0 & _ & Hcircles).
    { split; intros x Hx; now left. }
    cbv zeta in Hb0. rewrite Hb in Hb0. injection Hb0 as <-.
    simpl in He, Hs. specialize (Hd Hblind).
    exists b, cuts. split; [exact Hb|]. split; [exact He|]. split; [lia|].
    split; [exact Hd|]. split; [|exact Hcircles].
    intros f Hf. rewrite He in Hf. apply in_app_or in Hf.
    destruct Hf as [Hf|Hf]; [now left|right].
    rewrite List.Forall_forall in Hd. now apply Hd.
  - split; [vm_compute; reflexivity|]. split; [reflexivity|].
    match eval vm_compute in (exampleNotify blindM3 emptyDesign) with
    | Ok ?b =>
        match eval vm_compute in (extrudeFeatures (design b)) with
        | [?f] =>
            match eval vm_compute in (sketchCircles (design b)) with
            | [?c] => exists b, f, c
            end
        end
    end.
    repeat split; vm_compute; reflexivity.
Qed.

End Batch.

(** *** The example host *)

Definition emptyBatch : Batch :=
  {| design := emptyDesign; successCount := 0; failedCount := 0; reports := [] |}.

Lemma cleanup_invariant_witness :
  (exists b',
     processPoint exampleTransformOf exampleProfilesOf exampleBodyOf exampleCircleArea
                  exactDistanceTo exactLength Qsqrt_exact CONFIG mixedBatch
                  0.22 5.7 emptyBatch (pointOn 2 2) = Ok b' /\
     sketchCircles (design b') = [] /\
     (successCount b', failedCount b') = (0, 1)%nat) /\
  (exists b,
     exampleNotify mixedBatch emptyDesign = Ok b /\
     map report_point (reports b) = selectedPoints mixedBatch /\
     (successCount b + failedCount b = 3)%nat /\
     (forall rep, In rep (reports b) -> isFailure (report_status rep) = true ->
        forall c, In c (sketchCircles (design b)) -> circle_id c <> report_circle rep)).
Proof.
  assert (Hfresh : fresh emptyDesign) by (unfold fresh; simpl; constructor).
  assert (Hspec : get_default_inserts !! insertName mixedBatch = Some (4.4, 5.7, 1.6))
    by (vm_compute; reflexivity).
  destruct (cleanup_invariant exampleTransformOf exampleProfilesOf exampleBodyOf
              exampleCircleArea exactDistanceTo exactLength Qsqrt_exact
              get_default_inserts CONFIG mixedBatch emptyDesign (4.4, 5.7, 1.6)
              Hfresh Hspec) as (Hpoint & b & Hb & Hpts & Hsum & _ & Hclean).
  split.
  - destruct (Hpoint 0.22 5.7 emptyBatch (pointOn 2 2) Hfresh)
      as (b' & Hb' & Hcircles & _ & Hfc & Hsc).
    + left. vm_compute. reflexivity.
    + exists b'. split; [exact Hb'|]. split; [exact Hcircles|].
      now rewrite Hfc, Hsc.
  - exists b. repeat split; trivial.
Defined.

(** The three points of [mixedBatch]: the first has no profile, the second
    is bored, the third has no direction; only the circle of the second
    is left. *)
Example mixed_batch_outcome :
  match exampleNotify mixedBatch emptyDesign with
  | Ok b =>
      map report_status (reports b) = [NoProfile; Succeeded; NoDirection] /\
      map report_circle (reports b) = [10; 11; 12]%nat /\
      map circle_id (sketchCircles (design b)) = [11%nat] /\
      (successCount b, failedCount b) = (1, 2)%nat
  | Raised _ => False
  end.
Proof. vm_compute. repeat split. Qed.

Lemma blind_hole_depth_witness :
  (exists b',
     processPoint exampleTransformOf exampleProfilesOf exampleBodyOf exampleCircleArea
                  exactDistanceTo exactLength Qsqrt_exact CONFIG blindM3
                  (4.4 / 2.0 / 10.0) 5.7 emptyBatch (pointOn 1 1) = Ok b' /\
     map extrude_distance (extrudeFeatures (design b'))
     = [(5.7 + blind_hole_extra_depth CONFIG) / 10.0] /\
     successCount b' = 1%nat) /\
  (exists b cuts,
     exampleNotify blindM3 emptyDesign = Ok b /\
     extrudeFeatures (design b) = extrudeFeatures emptyDesign ++ cuts /\
     length cuts = successCount b /\
     Forall (fun f => extrude_distance f = (5.7 + blind_hole_extra_depth CONFIG) / 10.0)
            cuts).
Proof.
  assert (Hspec : get_default_inserts !! insertName blindM3 = Some (4.4, 5.7, 1.6))
    by (vm_compute; reflexivity).
  destruct (blind_hole_depth exampleTransformOf exampleProfilesOf exampleBodyOf
              exampleCircleArea exactDistanceTo exactLength Qsqrt_exact
              get_default_inserts CONFIG blindM3 emptyDesign 4.4 5.7 1.6
              eq_refl Hspec) as (Hpoint & (b & cuts & Hb & He & Hl & Hd & _) & _).
  split.
  - edestruct (Hpoint emptyBatch (pointOn 1 1)) as (b' & Hb' & He' & Hs' & _).
    + vm_compute. reflexivity.
    + vm_compute. reflexivity.
    + exists b'. split; [exact Hb'|]. split; [|exact Hs'].
      rewrite He'. reflexivity.
  - exists b, cuts. repeat split; assumption.
Defined.

(** E2E-1 on the example host: one bore, 6.7mm deep and 4.4mm wide, a
    chamfer on its rim and a fillet on the edge of its floor. *)
Example blind_M3_outcome :
  match exampleNotify blindM3 emptyDesign with
  | Ok b =>
      (successCount b, failedCount b) = (1, 0)%nat /\
      map (fun f => Qeq_bool (extrude_distance f * 10) 6.7) (extrudeFeatures (design b))
      = [true] /\
      map (fun c => Qeq_bool (radius c * 2 * 10) 4.4) (sketchCircles (design b))
      = [true] /\
      map chamfer_edge (chamferFeatures (design b)) = [entryRim] /\
      map fillet_edge (filletFeatures (design b)) = [floorRim]
  | Raised _ => False
  end.
Proof. vm_compute. repeat split. Qed.

End OrchestratorFacts.

(* ===================================================================== *)
(** * Part III: further properties of the code *)
(* ===================================================================== *)

(** ** What [findProfileForCircle] returns *)

Module ResolverExtras.

Import ProfileResolver ProfileResolverFacts ResolverScenarios.

Section Resolver.

Variable distanceTo : Point3D -> Point3D -> Q.

(** The three coarse filters, as inequalities. *)
Definition passesCoarse (target_circle : SketchCircle) (prof : Profile) : Prop :=
  let c := centerSketchPoint target_circle in
  let r := radius target_circle in
  prof_area prof <= area target_circle * 1.01 /\
  distanceTo c (prof_centroid prof) <= r /\
  px c - r - r * 1.0 <= px (minPoint (prof_boundingBox prof)) /\
  px (maxPoint (prof_boundingBox prof)) <= px c + r + r * 1.0 /\
  py c - r - r * 1.0 <= py (minPoint (prof_boundingBox prof)) /\
  py (maxPoint (prof_boundingBox prof)) <= py c + r + r * 1.0.

Lemma coarseCandidate_Some target_circle prof c :
  coarseCandidate distanceTo target_circle prof = Some c <->
  passesCoarse target_circle prof /\
  c = (prof, prof_area prof,
       distanceTo (centerSketchPoint target_circle) (prof_centroid prof)).
Proof.
  unfold coarseCandidate, passesCoarse. cbv zeta.
  destruct (Qgtb (prof_area prof) (area target_circle * 1.01)) eqn:E1.
  { apply Qgtb_gt in E1. split; [discriminate|]. intros [(H & _) _]. lra. }
  apply Qgtb_le in E1.
  destruct (Qgtb (distanceTo (centerSketchPoint target_circle) (prof_centroid prof))
                 (radius target_circle)) eqn:E2.
  { apply Qgtb_gt in E2. split; [discriminate|]. intros [(_ & H & _) _]. lra. }
  apply Qgtb_le in E2.
  match goal with
  | |- context [negb (?a && ?b && ?c && ?d)] =>
      destruct a eqn:Ea; destruct b eqn:Eb; destruct c eqn:Ec; destruct d eqn:Ed; simpl
  end;
    try apply Qgeb_ge in Ea; try apply Qgeb_lt in Ea;
    try apply Qleb_le in Eb; try apply Qleb_gt in Eb;
    try apply Qgeb_ge in Ec; try apply Qgeb_lt in Ec;
    try apply Qleb_le in Ed; try apply Qleb_gt in Ed;
    (split; [try discriminate; intros [= <-]; repeat split; trivial
            | intros [(_ & _ & H1 & H2 & H3 & H4) Hc]; try lra; now subst c]).
Qed.

Lemma coarseFilter_In target_circle profs c :
  In c (coarseFilter distanceTo target_circle profs) <->
  exists prof, In prof profs /\ coarseCandidate distanceTo target_circle prof = Some c.
Proof.
  induction profs as [|p profs IH]; simpl.
  - split; [intros []|intros (prof & [] & _)].
  - destruct (coarseCandidate distanceTo target_circle p) as [c0|] eqn:E; simpl.
    + rewrite IH. split.
      * intros [<-|(prof & Hin & Hc)]; [exists p; auto|exists prof; auto].
      * intros (prof & [<-|Hin] & Hc); [left; congruence|right; eauto].
    + rewrite IH. split.
      * intros (prof & Hin & Hc). exists prof; auto.
      * intros (prof & [<-|Hin] & Hc); [congruence|eauto].
Qed.

End Resolver.

Section Search.

Variable target_area : Q.

(** The loops either stop at a combination within the early-exit
    threshold or run through all they are given. *)
Lemma innerLoop_dichotomy (combos : list (list Candidate)) st :
  nearPerfect target_area st = false ->
  nearPerfect target_area (innerLoop target_area st combos) = true \/
  tried (innerLoop target_area st combos) = rev combos ++ tried st.
Proof.
  revert st. induction combos as [|c combos IH]; intros st Hst; simpl.
  - now right.
  - destruct (nearPerfect target_area (tryCombo target_area st c)) eqn:E.
    + now left.
    + destruct (IH _ E) as [H|H]; [now left|right].
      rewrite H, tryCombo_tried. simpl. now rewrite <- app_assoc.
Qed.

Lemma searchCombinations_outcome (candidates : list Candidate) :
  let st := searchCombinations target_area candidates in
  nearPerfect target_area st = true \/
  evaluated st = enumeration candidates 1 (max_profiles candidates).
Proof.
  cbv zeta. rewrite evaluated_rev, searchCombinations_flat.
  destruct (innerLoop_dichotomy (enumeration candidates 1 (max_profiles candidates))
              initialSearch eq_refl) as [H|H]; [now left|right].
  rewrite H. simpl. now rewrite app_nil_r, rev_involutive.
Qed.

(** A difference within the early-exit threshold is within the tolerance. *)
Lemma threshold_within_tolerance (combo : list Candidate) :
  comboDifference target_area combo <= target_area * 0.00003 ->
  comboDifference target_area combo <= target_area * 0.03.
Proof.
  unfold comboDifference. intros H.
  pose proof (Qabs_nonneg (Qsum (map cand_area combo) - target_area)). lra.
Qed.

End Search.

Lemma sublist_In {A : Type} (c l : list A) (x : A) :
  sublist c l -> In x c -> In x l.
Proof.
  induction 1 as [|y c l Hs IH|y c l Hs IH]; simpl; intros Hx.
  - exact Hx.
  - destruct Hx as [->|Hx]; [now left|right; now apply IH].
  - right. now apply IH.
Qed.

Section Outcome.

Variable distanceTo : Point3D -> Point3D -> Q.

(** The state the search ends in, for a run that has candidates. *)
Lemma search_summary (target_area : Q) (candidates : list Candidate) :
  candidates <> [] ->
  let all := enumeration candidates 1 (max_profiles candidates) in
  exists combo,
    best (searchCombinations target_area candidates)
    = Some (map cand_prof combo, comboDifference target_area combo) /\
    In combo all /\
    (comboDifference target_area combo <= target_area * 0.00003 \/
     forall other, In other all ->
       comboDifference target_area combo <= comboDifference target_area other).
Proof.
  intros Hne all.
  pose proof (searchCombinations_tracksBest target_area candidates) as Htr.
  destruct (searchCombinations_examined target_area candidates) as (post & Hsplit & Hex).
  specialize (Hex Hne).
  pose proof (searchCombinations_outcome target_area candidates) as Hout.
  cbv zeta in Hout. fold all in Hsplit, Hout.
  rewrite evaluated_rev in *. unfold tracksBest, nearPerfect in *.
  destruct (best (searchCombinations target_area candidates)) as [[ps bd]|].
  - destruct Htr as [(combo & Hin & -> & ->) Hmin].
    exists combo. split; [reflexivity|]. split.
    + rewrite Hsplit. apply in_or_app. left. now apply in_rev in Hin.
    + destruct Hout as [Hnear|Hall].
      * left. now apply Qleb_le.
      * right. intros other Hother. apply Hmin. apply in_rev. now rewrite Hall.
  - exfalso. apply Hex. now rewrite Htr.
Qed.

Lemma searched_In sketch target_circle (c : Candidate) :
  In c (searched distanceTo sketch target_circle) ->
  In (cand_prof c) (profiles sketch) /\
  passesCoarse distanceTo target_circle (cand_prof c) /\
  cand_area c = prof_area (cand_prof c).
Proof.
  unfold searched, sortByAreaDesc. rewrite sortByKey_In, coarseFilter_In.
  intros (prof & Hin & Hc). apply coarseCandidate_Some in Hc.
  destruct Hc as [Hpass ->]. simpl. auto.
Qed.

(** X1. [findProfileForCircle] never raises.  What it returns is made of
    a combination of between 1 and 15 of the sorted candidates, each of
    them a profile of the sketch that passes the three coarse filters,
    and the areas of the combination add up to the area of the circle
    within 3%. *)
Theorem selection_sound (sketch : Sketch) (target_circle : SketchCircle) :
  exists found,
    findProfileForCircle distanceTo sketch target_circle = Ok found /\
    forall sel, found = Some sel ->
      exists combo,
        sel = asSelection (map cand_prof combo) /\
        (1 <= length combo <= 15)%nat /\
        sublist combo (searched distanceTo sketch target_circle) /\
        Forall (fun c => In (cand_prof c) (profiles sketch) /\
                         passesCoarse distanceTo target_circle (cand_prof c) /\
                         cand_area c = prof_area (cand_prof c)) combo /\
        comboDifference (area target_circle) combo <= area target_circle * 0.03.
Proof.
  unfold findProfileForCircle, runFindProfileForCircle.
  destruct (negb (parentSketch target_circle =? sketch_id sketch)%nat).
  { exists None. split; [reflexivity|discriminate]. }
  fold (searched distanceTo sketch target_circle).
  pose proof (searched_nonempty distanceTo sketch target_circle) as Hne.
  destruct (coarseFilter distanceTo target_circle (profiles sketch)) as [|c l].
  { exists None. split; [reflexivity|discriminate]. }
  specialize (Hne ltac:(discriminate)).
  cbv beta iota zeta. cbn [returned].
  destruct (search_summary (area target_circle) _ Hne) as (combo & Hbest & Hin & _).
  unfold acceptBest. rewrite Hbest.
  destruct (Qgtb (comboDifference (area target_circle) combo)
                 (area target_circle * 0.03)) eqn:E.
  { exists None. split; [reflexivity|discriminate]. }
  apply Qgtb_le in E. eexists. split; [reflexivity|].
  intros sel [= <-]. exists combo. split; [reflexivity|].
  pose proof (enumeration_sizes _ _ _ _ Hin) as Hlen.
  pose proof (enumeration_sublist _ _ _ _ Hin) as Hsub.
  unfold max_profiles in Hlen.
  split; [lia|]. split; [exact Hsub|]. split; [|exact E].
  apply List.Forall_forall. intros x Hx.
  apply searched_In. now apply (sublist_In combo).
Qed.

(** X2. [findProfileForCircle] finds something exactly when some
    combination of 1 to min(n, 15) of the n candidates has areas adding
    up to the area of the circle within 3%. *)
Theorem found_iff_within_tolerance (sketch : Sketch) (target_circle : SketchCircle) :
  parentSketch target_circle = sketch_id sketch ->
  let candidates := searched distanceTo sketch target_circle in
  (exists sel, findProfileForCircle distanceTo sketch target_circle = Ok (Some sel)) <->
  (exists combo,
     In combo (enumeration candidates 1 (max_profiles candidates)) /\
     comboDifference (area target_circle) combo <= area target_circle * 0.03).
Proof.
  intros Hsk candidates.
  destruct (coarseFilter distanceTo target_circle (profiles sketch)) as [|c l] eqn:E.
  - (* no candidate: nothing found, nothing to combine *)
    assert (Hnone : findProfileForCircle distanceTo sketch target_circle = Ok None).
    { unfold findProfileForCircle, runFindProfileForCircle.
      rewrite Hsk, Nat.eqb_refl, E. reflexivity. }
    assert (Hempty : candidates = []).
    { unfold candidates, searched. now rewrite E. }
    rewrite Hnone, Hempty. split.
    + intros (sel & H). discriminate H.
    + intros (combo & [] & _).
  - assert (Hne : coarseFilter distanceTo target_circle (profiles sketch) <> [])
      by (rewrite E; discriminate).
    unfold findProfileForCircle. rewrite (run_searching _ _ _ Hsk Hne).
    cbv zeta. cbn [returned]. fold candidates.
    destruct (search_summary (area target_circle) candidates
                (searched_nonempty _ _ _ Hne)) as (combo & Hbest & Hin & Hopt).
    unfold acceptBest. rewrite Hbest.
    destruct (Qgtb (comboDifference (area target_circle) combo)
                   (area target_circle * 0.03)) eqn:Etol.
    + apply Qgtb_gt in Etol. split.
      * intros (sel & H). discriminate H.
      * intros (other & Hother & Hle). exfalso.
        destruct Hopt as [Hnear|Hmin].
        -- apply threshold_within_tolerance in Hnear. lra.
        -- specialize (Hmin other Hother). lra.
    + apply Qgtb_le in Etol. split.
      * intros _. exists combo. auto.
      * intros _. eexists. reflexivity.
Qed.

(** X3. The combination returned is one of the smallest difference among
    all combinations of 1 to min(n, 15) candidates, unless its difference
    is within the early-exit threshold of 0.003%. *)
Theorem selection_optimal (sketch : Sketch) (target_circle : SketchCircle)
  (sel : ProfileSelection) :
  findProfileForCircle distanceTo sketch target_circle = Ok (Some sel) ->
  let target_area := area target_circle in
  let candidates := searched distanceTo sketch target_circle in
  let all := enumeration candidates 1 (max_profiles candidates) in
  exists combo,
    In combo all /\
    sel = asSelection (map cand_prof combo) /\
    (comboDifference target_area combo <= target_area * 0.00003 \/
     forall other, In other all ->
       comboDifference target_area combo <= comboDifference target_area other).
Proof.
  unfold findProfileForCircle, runFindProfileForCircle.
  destruct (negb (parentSketch target_circle =? sketch_id sketch)%nat); [discriminate|].
  fold (searched distanceTo sketch target_circle).
  pose proof (searched_nonempty distanceTo sketch target_circle) as Hne.
  destruct (coarseFilter distanceTo target_circle (profiles sketch)) as [|c l];
    [discriminate|].
  specialize (Hne ltac:(discriminate)).
  cbv beta iota zeta. cbn [returned].
  destruct (search_summary (area target_circle) _ Hne) as (combo & Hbest & Hin & Hopt).
  unfold acceptBest. rewrite Hbest.
  destruct (Qgtb _ _); [discriminate|].
  intros [= <-]. exists combo. auto.
Qed.

(** X4. A sketch with a single profile that passes the coarse filters and
    whose area is that of the circle within 3% (the disc of the circle
    itself, for one) resolves to that profile. *)
Theorem lone_profile_found (sketch : Sketch) (target_circle : SketchCircle)
  (prof : Profile) :
  parentSketch target_circle = sketch_id sketch ->
  profiles sketch = [prof] ->
  passesCoarse distanceTo target_circle prof ->
  Qabs (prof_area prof - area target_circle) <= area target_circle * 0.03 ->
  findProfileForCircle distanceTo sketch target_circle = Ok (Some (SingleProfile prof)).
Proof.
  intros Hsk Hprofs Hpass Htol.
  set (c := (prof, prof_area prof,
             distanceTo (centerSketchPoint target_circle) (prof_centroid prof))
            : Candidate).
  assert (Hc : coarseCandidate distanceTo target_circle prof = Some c)
    by (apply coarseCandidate_Some; auto).
  unfold findProfileForCircle, runFindProfileForCircle.
  rewrite Hsk, Nat.eqb_refl, Hprofs. simpl coarseFilter. rewrite Hc.
  cbv beta iota zeta. cbn [negb returned].
  assert (Hdiff : comboDifference (area target_circle) [c]
                  <= area target_circle * 0.03).
  { change (comboDifference (area target_circle) [c])
      with (Qabs (0 + prof_area prof - area target_circle)).
    assert (E : 0 + prof_area prof - area target_circle
                == prof_area prof - area target_circle) by ring.
    rewrite (Qabs_wd _ _ E). exact Htol. }
  assert (Hbest : best (searchCombinations (area target_circle) (sortByAreaDesc [c]))
                  = Some ([prof], comboDifference (area target_circle) [c])).
  { set (st1 := tryCombo (area target_circle) initialSearch [c]).
    assert (Hinner : innerLoop (area target_circle) initialSearch [[c]] = st1).
    { simpl. fold st1. now destruct (nearPerfect (area target_circle) st1). }
    change (best (let st' := innerLoop (area target_circle) initialSearch [[c]] in
                  if nearPerfect (area target_circle) st' then st' else st')
            = Some ([prof], comboDifference (area target_circle) [c])).
    cbv zeta. rewrite Hinner.
    now destruct (nearPerfect (area target_circle) st1). }
  unfold acceptBest. rewrite Hbest.
  apply Qgtb_le in Hdiff. now rewrite Hdiff.
Qed.

End Outcome.

Lemma found_iff_within_tolerance_witness :
  (exists sel, findProfileForCircle exactDistanceTo chordSketch boreCircle = Ok (Some sel))
  <->
  (exists combo,
     In combo (enumeration chordCandidates 1 (max_profiles chordCandidates)) /\
     comboDifference (area boreCircle) combo <= area boreCircle * 0.03).
Proof.
  apply (found_iff_within_tolerance exactDistanceTo chordSketch boreCircle).
  reflexivity.
Defined.

Lemma selection_optimal_witness :
  exists combo,
    In combo (enumeration chordCandidates 1 (max_profiles chordCandidates)) /\
    ProfileCollection [largeSegment; smallSegment] = asSelection (map cand_prof combo) /\
    (comboDifference (area boreCircle) combo <= area boreCircle * 0.00003 \/
     forall other, In other (enumeration chordCandidates 1 (max_profiles chordCandidates)) ->
       comboDifference (area boreCircle) combo <= comboDifference (area boreCircle) other).
Proof.
  apply (selection_optimal exactDistanceTo chordSketch boreCircle
           (ProfileCollection [largeSegment; smallSegment])).
  vm_compute. reflexivity.
Defined.

Lemma lone_profile_found_witness :
  findProfileForCircle exactDistanceTo plainSketch boreCircle = Ok (Some (SingleProfile disc)).
Proof.
  apply (lone_profile_found exactDistanceTo plainSketch boreCircle disc).
  - reflexivity.
  - reflexivity.
  - unfold passesCoarse. vm_compute. repeat split; discriminate.
  - vm_compute. discriminate.
Defined.

End ResolverExtras.

(** ** The direction returned enters the body *)

Module DirectionExtras.

Import DirectionInferencer DirectionFacts ResolverScenarios BodyScenarios.

(** X5. [findExtrudeDirectionFromSketch] returns a direction only if one
    of the four samples on that side of the sketch plane is inside the
    body or on its surface, and returns [None] exactly when no sample on
    either side is. *)
Theorem direction_enters_body (sketch : Sketch) (circleCenter : Point2D)
  (targetBody : BRepBody) :
  let center3D := transformBy (transform sketch) circleCenter in
  let normal := zAxis (transform sketch) in
  let plus := enters targetBody (offsetPoint center3D normal) in
  let minus := enters targetBody (offsetPointNeg center3D normal) in
  let result := findExtrudeDirectionFromSketch sketch circleCenter targetBody in
  (result = Some PositiveExtentDirection -> plus) /\
  (result = Some NegativeExtentDirection -> minus) /\
  (result = None <-> ~ plus /\ ~ minus).
Proof.
  intros center3D normal plus minus result.
  unfold result, findExtrudeDirectionFromSketch, plus, minus.
  fold center3D. fold normal.
  rewrite <- !entersBody_enters.
  destruct (entersBody targetBody (offsetPoint center3D normal) testDistances);
    destruct (entersBody targetBody (offsetPointNeg center3D normal) testDistances);
    simpl;
    try (destruct (isOutside _); destruct (isOutside _); simpl);
    repeat split; try discriminate; try reflexivity; intuition congruence.
Qed.

Lemma direction_enters_body_witness :
  enters lipped (offsetPointNeg (transformBy (transform plainSketch) xyOrigin)
                                (zAxis (transform plainSketch))).
Proof.
  apply (direction_enters_body plainSketch xyOrigin lipped).
  vm_compute. reflexivity.
Defined.

End DirectionExtras.

(** ** Bounds on the through distance *)

Module ThroughBoreExtras.

Import ThroughBore ThroughBoreFacts ResolverScenarios BodyScenarios.

Lemma seq_split_index (pre post : list nat) (i a n : nat) :
  seq a n = pre ++ i :: post -> i = (a + length pre)%nat /\ (length pre < n)%nat.
Proof.
  revert a n. induction pre as [|x pre IH]; intros a [|n] H; simpl in H;
    try discriminate.
  - injection H as <- _. simpl. lia.
  - injection H as _ H. apply IH in H. simpl. lia.
Qed.

(** The exit of a march over [steps] is a sample from the second on. *)
Lemma march_exit_index (targetBody : BRepBody) (center3D : Point3D) (normal : Vector3D)
  (multiplier d : Q) :
  march targetBody center3D normal multiplier false steps = Some d ->
  exists i, (2 <= i <= 1000)%nat /\ d = distanceAt i /\
            sample targetBody center3D normal multiplier i = PointOutsidePointContainment.
Proof.
  intros E. apply march_Some in E.
  destruct E as (pre & i & post & Hsplit & Hexit & _ & ->).
  rewrite steps_range in Hsplit. apply seq_split_index in Hsplit.
  destruct Hexit as [Hout [Hflag|(j & Hj & _)]]; [discriminate|].
  assert (Hpre : (1 <= length pre)%nat) by (destruct pre; [contradiction|simpl; lia]).
  exists i. split; [lia|auto].
Qed.

Lemma distanceAt_range (i : nat) :
  (2 <= i <= 1000)%nat -> 0.2 <= distanceAt i /\ distanceAt i <= 100.
Proof.
  intros Hi.
  assert (H1 : inject_Z 2 <= inject_Z (Z.of_nat i)) by (rewrite <- Zle_Qle; lia).
  assert (H2 : inject_Z (Z.of_nat i) <= inject_Z 1000) by (rewrite <- Zle_Qle; lia).
  change (inject_Z 2) with 2 in H1. change (inject_Z 1000) with 1000 in H2.
  unfold distanceAt, stepSize. split; lra.
Qed.

(** X6. Whatever the body, the sketch and the direction,
    [findDistanceThroughBody] returns a distance between 4mm and 1002mm:
    either the fallback of 100mm, or 2mm more than the distance of a
    sample, the second at the earliest and the thousandth at the latest,
    that the body reports as outside. *)
Theorem through_distance_bounds (sketch : Sketch) (circleCenter : Point2D)
  (targetBody : BRepBody) (direction : ExtentDirections) :
  let center3D := transformBy (transform sketch) circleCenter in
  let normal := zAxis (transform sketch) in
  let r := findDistanceThroughBody sketch circleCenter targetBody direction in
  (0.4 <= r /\ r <= 100.2) /\
  (r = 10.0 \/
   exists i, (2 <= i <= 1000)%nat /\
             r = distanceAt i + 0.2 /\
             sample targetBody center3D normal (multiplierOf direction) i
             = PointOutsidePointContainment).
Proof.
  intros center3D normal r. unfold r, findDistanceThroughBody.
  fold center3D. fold normal.
  destruct (march targetBody center3D normal (multiplierOf direction) false steps)
    as [d|] eqn:E.
  - apply march_exit_index in E. destruct E as (i & Hi & -> & Hout).
    destruct (distanceAt_range i Hi) as [Hlo Hhi].
    split.
    + split; lra.
    + right. exists i. auto.
  - split; [split; vm_compute; discriminate|now left].
Qed.

End ThroughBoreExtras.

(** ** What the edge locators return *)

Module EdgeLocatorExtras.

Import EdgeLocator EdgeLocatorFacts ResolverScenarios BodyScenarios.

(** [x] comes strictly before [y] in the order of the sort. *)
Definition strictlyBefore (reverse : bool) (kx ky : Q) : Prop :=
  if reverse then ky < kx else kx < ky.

(** The sort is stable at its head: an element that is strictly before
    all those in front of it, and not after any of those behind it, ends
    up first. *)
Lemma sortByKey_first {A : Type} (key : A -> Q) (reverse : bool)
  (pre post : list A) (c : A) :
  (forall x, In x pre -> strictlyBefore reverse (key c) (key x)) ->
  (forall x, In x post -> mayPrecede reverse (key c) (key x)) ->
  exists tail, sortByKey key reverse (pre ++ c :: post) = c :: tail.
Proof.
  intros Hpre Hpost. induction pre as [|x pre IH]; simpl.
  - pose proof (sortByKey_In key reverse post) as Hin.
    destruct (sortByKey key reverse post) as [|y tail]; simpl; [eauto|].
    assert (Hy : mayPrecede reverse (key c) (key y)).
    { apply Hpost, Hin. now left. }
    assert (E : goesFirst reverse (key c) (key y) = true).
    { destruct reverse; simpl in *; [now apply Qgeb_ge|now apply Qleb_le]. }
    rewrite E. eauto.
  - destruct IH as (tail & ->).
    { intros y Hy. apply Hpre. now right. }
    simpl.
    assert (E : goesFirst reverse (key x) (key c) = false).
    { specialize (Hpre x (or_introl eq_refl)).
      destruct reverse; simpl in *; [now apply Qgeb_lt|now apply Qleb_gt]. }
    rewrite E. eauto.
Qed.

Lemma collect_In (keep : BRepEdge -> option CandidateEdge) (es : list BRepEdge)
  (c : CandidateEdge) :
  In c (collect keep es) <-> exists edge, In edge es /\ keep edge = Some c.
Proof.
  induction es as [|e es IH]; simpl.
  - split; [intros []|intros (edge & [] & _)].
  - destruct (keep e) as [c0|] eqn:E; simpl; rewrite IH; split.
    + intros [<-|(edge & Hin & Hc)]; [exists e; auto|exists edge; auto].
    + intros (edge & [<-|Hin] & Hc); [left; congruence|right; eauto].
    + intros (edge & Hin & Hc). exists edge; auto.
    + intros (edge & [<-|Hin] & Hc); [congruence|eauto].
Qed.

Lemma firstEdge_None (reverse : bool) (l : list CandidateEdge) :
  firstEdge (sortByKey cand_distance reverse l) = None <-> l = [].
Proof.
  split.
  - intros H. destruct l as [|c l]; [reflexivity|].
    destruct (firstEdge_sorted reverse (c :: l) ltac:(discriminate)) as (x & _ & Hx & _).
    congruence.
  - intros ->. reflexivity.
Qed.

Section Locator.

Variable vecLength : Vector3D -> Q.
Variable sqrt : Q -> Q.

(** X7. The edge [findChamferEdge] returns is an edge of the body, a
    circle whose radius is half the hole diameter within 0.001cm and
    whose normal has a dot product with the sketch normal of at least
    0.99 in absolute value.  It returns [None] exactly when every
    circular edge of the body fails one of its three tests. *)
Theorem chamfer_edge_sound (targetBody : BRepBody) (sketch : Sketch)
  (circleCenter : Point2D) (holeDiameter : Q) :
  let center3D := transformBy (transform sketch) circleCenter in
  let normal := zAxis (transform sketch) in
  let result := findChamferEdge vecLength targetBody sketch circleCenter holeDiameter in
  (forall edge, result = Some edge ->
     In edge (edges targetBody) /\
     exists c n r,
       geometry edge = Circle3D c n r /\
       Qabs (r - holeDiameter / 2.0) <= 0.001 /\
       0.99 <= Qabs (dot n normal)) /\
  (result = None <->
   forall edge c n r,
     In edge (edges targetBody) -> geometry edge = Circle3D c n r ->
     0.001 < Qabs (r - holeDiameter / 2.0) \/
     Qabs (dot n normal) < 0.99 \/
     0.01 < vecLength (vecBetween center3D c) - Qabs (dot (vecBetween center3D c) normal)).
Proof.
  intros center3D normal result. unfold result, findChamferEdge.
  set (entry := chamferCandidates vecLength targetBody sketch circleCenter holeDiameter).
  split.
  - intros edge Hedge.
    destruct entry as [|c0 l] eqn:E; [discriminate|].
    destruct (firstEdge_sorted false (c0 :: l) ltac:(discriminate))
      as (c & Hin & Hfirst & _).
    rewrite Hfirst in Hedge. injection Hedge as <-.
    rewrite <- E in Hin. unfold entry, chamferCandidates in Hin.
    apply collect_In in Hin. destruct Hin as (e & He & Hkeep).
    apply chamferCandidate_kept in Hkeep.
    destruct Hkeep as (ec & en & er & Hgeo & Hr & Hdot & _ & ->).
    simpl. split; [exact He|]. exists ec, en, er. auto.
  - rewrite firstEdge_None. split.
    + intros Hnil edge c n r He Hgeo.
      assert (Hkeep : chamferCandidate vecLength center3D normal (holeDiameter / 2.0) edge
                      = None).
      { destruct (chamferCandidate vecLength center3D normal (holeDiameter / 2.0) edge)
          as [x|] eqn:Ex; [|reflexivity].
        assert (Hin : In x entry).
        { unfold entry, chamferCandidates. apply collect_In. exists edge. auto. }
        rewrite Hnil in Hin. destruct Hin. }
      unfold chamferCandidate in Hkeep. rewrite Hgeo in Hkeep.
      destruct (Qgtb (Qabs (r - holeDiameter / 2.0)) 0.001) eqn:E1;
        [left; now apply Qgtb_gt|].
      destruct (Qltb (Qabs (dot n normal)) 0.99) eqn:E2;
        [right; left; now apply Qltb_lt|].
      destruct (Qgtb _ 0.01) eqn:E3; [|discriminate].
      right. right. now apply Qgtb_gt.
    + intros Hall. destruct entry as [|x l] eqn:E; [reflexivity|exfalso].
      assert (Hin : In x entry) by (rewrite E; now left).
      unfold entry, chamferCandidates in Hin. apply collect_In in Hin.
      destruct Hin as (e & He & Hkeep). apply chamferCandidate_kept in Hkeep.
      destruct Hkeep as (ec & en & er & Hgeo & Hr & Hdot & Hperp & _).
      destruct (Hall e ec en er He Hgeo) as [H|[H|H]]; unfold center3D, normal in *; lra.
Qed.

(** X8. The edge [addBottomRadiusToBlindHole] puts its fillet on is an
    edge of the body, a circle whose radius is half the hole diameter
    within 0.005cm and whose normal has a dot product with the sketch
    normal of at least 0.95 in absolute value; where the length of the
    vector to its center and the square root are exact, the square of the
    distance of that center from the axis is at most 0.05cm squared. *)
Theorem bottom_edge_sound (targetBody : BRepBody) (sketch : Sketch)
  (circleCenter : Point2D) (holeDiameter : Q) (edge : BRepEdge) :
  bottomEdge vecLength sqrt targetBody sketch circleCenter holeDiameter = Some edge ->
  let center3D := transformBy (transform sketch) circleCenter in
  let normal := zAxis (transform sketch) in
  In edge (edges targetBody) /\
  exists c n r,
    geometry edge = Circle3D c n r /\
    Qabs (r - holeDiameter / 2.0) <= 0.005 /\
    0.95 <= Qabs (dot n normal) /\
    (let v := vecBetween center3D c in
     let squared := vecLength v * vecLength v - Qabs (dot v normal) * Qabs (dot v normal) in
     vecLength v * vecLength v == dot v v ->
     0 <= sqrt (max0 squared) ->
     sqrt (max0 squared) * sqrt (max0 squared) == max0 squared ->
     dot v v - dot v normal * dot v normal <= 0.05 * 0.05).
Proof.
  intros Hedge center3D normal. unfold bottomEdge in Hedge.
  set (bottom := bottomCandidates vecLength sqrt targetBody sketch circleCenter
                   holeDiameter) in *.
  destruct bottom as [|c0 l] eqn:E; [discriminate|].
  destruct (firstEdge_sorted true (c0 :: l) ltac:(discriminate))
    as (x & Hin & Hfirst & _).
  rewrite Hfirst in Hedge. injection Hedge as <-.
  rewrite <- E in Hin. unfold bottom, bottomCandidates in Hin.
  apply collect_In in Hin. destruct Hin as (e & He & Hkeep).
  apply bottomCandidate_kept in Hkeep.
  destruct Hkeep as (ec & en & er & Hgeo & Hr & Hdot & (_ & Hperp) & ->).
  simpl. split; [exact He|]. exists ec, en, er. auto.
Qed.

(** X9. A circular edge centered on the axis of the bore (at [t] along
    the unit sketch normal from the center of the circle), with the
    radius of the bore within 0.001cm and a normal along the sketch
    normal, is never missed: [findChamferEdge] returns an edge, and one
    no farther from the sketch plane than [|t|]. *)
Theorem on_axis_rim_found (targetBody : BRepBody) (sketch : Sketch)
  (circleCenter : Point2D) (holeDiameter : Q) (edge : BRepEdge)
  (c : Point3D) (n : Vector3D) (r t : Q) :
  let center3D := transformBy (transform sketch) circleCenter in
  let normal := zAxis (transform sketch) in
  In edge (edges targetBody) ->
  geometry edge = Circle3D c n r ->
  Qabs (r - holeDiameter / 2.0) <= 0.001 ->
  0.99 <= Qabs (dot n normal) ->
  dot normal normal == 1 ->
  px c == px center3D + t * vx normal ->
  py c == py center3D + t * vy normal ->
  pz c == pz center3D + t * vz normal ->
  vecLength (vecBetween center3D c) == Qabs t ->
  exists found x,
    findChamferEdge vecLength targetBody sketch circleCenter holeDiameter = Some found /\
    In x (chamferCandidates vecLength targetBody sketch circleCenter holeDiameter) /\
    found = cand_edge x /\
    cand_distance x <= Qabs t.
Proof.
  intros center3D normal He Hgeo Hr Hdot Hunit Hx Hy Hz Hlen.
  set (v := vecBetween center3D c) in *.
  assert (Hproj : dot v normal == t).
  { unfold dot in *. unfold v, vecBetween. cbn [vx vy vz]. rewrite Hx, Hy, Hz.
    transitivity (t * (vx normal * vx normal + vy normal * vy normal
                       + vz normal * vz normal)).
    - ring.
    - rewrite Hunit. ring. }
  assert (Hkeep : chamferCandidate vecLength center3D normal (holeDiameter / 2.0) edge
                  = Some (edge, Qabs (dot v normal))).
  { unfold chamferCandidate. rewrite Hgeo. fold v.
    assert (E1 : Qgtb (Qabs (r - holeDiameter / 2.0)) 0.001 = false) by now apply Qgtb_le.
    assert (E2 : Qltb (Qabs (dot n normal)) 0.99 = false) by now apply Qltb_ge.
    assert (E3 : Qgtb (vecLength v - Qabs (dot v normal)) 0.01 = false).
    { apply Qgtb_le. rewrite Hlen, (Qabs_wd _ _ Hproj). lra. }
    now rewrite E1, E2, E3. }
  set (entry := chamferCandidates vecLength targetBody sketch circleCenter holeDiameter).
  assert (Hin : In (edge, Qabs (dot v normal)) entry).
  { unfold entry, chamferCandidates. apply collect_In. exists edge. auto. }
  destruct (firstEdge_sorted false entry) as (x & Hxin & Hfirst & Hmin).
  { intros E. rewrite E in Hin. destruct Hin. }
  exists (cand_edge x), x. unfold findChamferEdge. fold entry.
  split; [exact Hfirst|]. split; [exact Hxin|]. split; [reflexivity|].
  specialize (Hmin _ Hin).
  change (cand_distance x <= Qabs (dot v normal)) in Hmin.
  rewrite (Qabs_wd _ _ Hproj) in Hmin. exact Hmin.
Qed.

(** X10. Ties go to the edge that comes first among the body's edges:
    [findChamferEdge] returns the first candidate that no candidate is
    nearer than, [addBottomRadiusToBlindHole] selects the first that no
    candidate is farther than. *)
Theorem ties_go_to_first_edge (targetBody : BRepBody) (sketch : Sketch)
  (circleCenter : Point2D) (holeDiameter : Q)
  (pre post : list CandidateEdge) (c : CandidateEdge) :
  let entry := chamferCandidates vecLength targetBody sketch circleCenter holeDiameter in
  let bottom := bottomCandidates vecLength sqrt targetBody sketch circleCenter holeDiameter in
  (entry = pre ++ c :: post ->
   (forall x, In x pre -> cand_distance c < cand_distance x) ->
   (forall x, In x post -> cand_distance c <= cand_distance x) ->
   findChamferEdge vecLength targetBody sketch circleCenter holeDiameter
   = Some (cand_edge c)) /\
  (bottom = pre ++ c :: post ->
   (forall x, In x pre -> cand_distance x < cand_distance c) ->
   (forall x, In x post -> cand_distance x <= cand_distance c) ->
   bottomEdge vecLength sqrt targetBody sketch circleCenter holeDiameter
   = Some (cand_edge c)).
Proof.
  intros entry bottom. unfold findChamferEdge, bottomEdge. fold entry. fold bottom.
  split; intros -> Hpre Hpost.
  - destruct (sortByKey_first cand_distance false pre post c Hpre Hpost) as (tail & ->).
    reflexivity.
  - destruct (sortByKey_first cand_distance true pre post c Hpre Hpost) as (tail & ->).
    reflexivity.
Qed.

End Locator.

(** A through bore cut from a sketch plane in the middle of the plate:
    two rims at 5mm on either side, and the rim of a counterbore. *)
Definition upperRim : BRepEdge := circleEdge 5 0 0.5 0.22.
Definition lowerRim : BRepEdge := circleEdge 6 0 (- 0.5) 0.22.
Definition widerRim : BRepEdge := circleEdge 7 0 0.5 0.3.

Definition midPlate : BRepBody :=
  {| pointContainment := embeddingContainment;
     edges := [widerRim; upperRim; plateEdge; lowerRim] |}.

Lemma chamfer_edge_sound_witness :
  findChamferEdge exactLength midPlate plainSketch xyOrigin 0.44 <> None.
Proof.
  intros Hnone.
  destruct (chamfer_edge_sound exactLength midPlate plainSketch xyOrigin 0.44)
    as (_ & Hfwd & _).
  specialize (Hfwd Hnone).
  destruct (Hfwd upperRim {| px := 0; py := 0; pz := 0.5 |} zUp 0.22) as [H|[H|H]].
  - right. now left.
  - reflexivity.
  - vm_compute in H. discriminate H.
  - vm_compute in H. discriminate H.
  - vm_compute in H. discriminate H.
Defined.

Lemma bottom_edge_sound_witness :
  In floorRim (edges boredPlate) /\
  exists c n r,
    geometry floorRim = Circle3D c n r /\
    Qabs (r - 0.44 / 2.0) <= 0.005 /\
    0.95 <= Qabs (dot n (zAxis (transform plainSketch))).
Proof.
  destruct (bottom_edge_sound exactLength Qsqrt_exact boredPlate plainSketch xyOrigin
              0.44 floorRim) as (Hin & c & n & r & Hgeo & Hr & Hdot & _).
  - vm_compute. reflexivity.
  - split; [exact Hin|]. exists c, n, r. auto.
Defined.

Lemma on_axis_rim_found_witness :
  exists found x,
    findChamferEdge exactLength midPlate plainSketch xyOrigin 0.44 = Some found /\
    In x (chamferCandidates exactLength midPlate plainSketch xyOrigin 0.44) /\
    found = cand_edge x /\
    cand_distance x <= Qabs (- 0.5).
Proof.
  apply (on_axis_rim_found exactLength midPlate plainSketch xyOrigin 0.44 lowerRim
           {| px := 0; py := 0; pz := - 0.5 |} zUp 0.22 (- 0.5)).
  - right. right. right. now left.
  - reflexivity.
  - vm_compute. discriminate.
  - vm_compute. discriminate.
  - reflexivity.
  - reflexivity.
  - reflexivity.
  - reflexivity.
  - reflexivity.
Defined.

Lemma ties_go_to_first_edge_witness :
  findChamferEdge exactLength midPlate plainSketch xyOrigin 0.44 = Some upperRim /\
  bottomEdge exactLength Qsqrt_exact midPlate plainSketch xyOrigin 0.44 = Some upperRim.
Proof.
  destruct (ties_go_to_first_edge exactLength Qsqrt_exact midPlate plainSketch xyOrigin
              0.44 [] [(lowerRim, Qabs (0 * 0 + 0 * 0 + (- 0.5 - 0) * 1))]
              (upperRim, Qabs (0 * 0 + 0 * 0 + (0.5 - 0) * 1))) as (Hentry & Hbottom).
  split.
  - apply Hentry.
    + vm_compute. reflexivity.
    + intros x [].
    + intros x [<-|[]]. vm_compute. discriminate.
  - apply Hbottom.
    + vm_compute. reflexivity.
    + intros x [].
    + intros x [<-|[]]. vm_compute. discriminate.
Defined.

End EdgeLocatorExtras.

(** ** What a batch adds to the design *)

Module OrchestratorExtras.

Import ProfileResolver DirectionInferencer ThroughBore ThroughBoreFacts ThroughBoreExtras.
Import EdgeLocator Orchestrator OrchestratorFacts.
Import ResolverScenarios BodyScenarios OrchestratorScenarios.

Lemma findDistanceThroughBody_range (sketch : Sketch) (circleCenter : Point2D)
  (targetBody : BRepBody) (direction : ExtentDirections) :
  0.4 <= findDistanceThroughBody sketch circleCenter targetBody direction /\
  findDistanceThroughBody sketch circleCenter targetBody direction <= 100.2.
Proof.
  unfold findDistanceThroughBody.
  destruct (march _ _ _ _ false steps) as [d|] eqn:E.
  - apply march_exit_index in E. destruct E as (i & Hi & -> & _).
    destruct (distanceAt_range i Hi). split; lra.
  - split; vm_compute; discriminate.
Qed.

Section Batch.

Variable transformOf : nat -> Matrix3D.
Variable profilesOf : Design -> nat -> list Profile.
Variable targetBodyOf : Design -> BRepBody.
Variable circleArea : Q -> Q.
Variable distanceTo : Point3D -> Point3D -> Q.
Variable vecLength : Vector3D -> Q.
Variable sqrt : Q -> Q.
Variable INSERT_SPECS : gmap string (Q * Q * Q).
Variable settings : Settings.

Abbreviation chamferStep' := (chamferStep transformOf profilesOf targetBodyOf vecLength settings).
Abbreviation bottomRadiusStep' :=
  (bottomRadiusStep transformOf profilesOf targetBodyOf vecLength sqrt settings).
Abbreviation processPoint' :=
  (processPoint transformOf profilesOf targetBodyOf circleArea distanceTo vecLength sqrt
                settings).
Abbreviation processPoints' :=
  (processPoints transformOf profilesOf targetBodyOf circleArea distanceTo vecLength sqrt
                 settings).
Abbreviation notify' :=
  (notify transformOf profilesOf targetBodyOf circleArea distanceTo vecLength sqrt
          INSERT_SPECS settings).

(** A cut as [notify] dimensions it: by the formula for a blind hole, by
    the march through the body otherwise. *)
Definition cutOk (inputs : CommandInputs) (insertLen : Q) (f : ExtrudeFeature) : Prop :=
  if isBlindHole inputs
  then extrude_distance f = (insertLen + blind_hole_extra_depth settings) / 10.0
  else 0.4 <= extrude_distance f /\ extrude_distance f <= 100.2.

Definition chamferOk (c : ChamferFeature) : Prop :=
  chamfer_distance c = chamfer_size settings / 10.0.

Definition filletOk (f : FilletFeature) : Prop :=
  fillet_radius f = bottom_radius_size settings / 10.0.

(** The design [d'] is [d] with the features of [n] bores added. *)
Definition added (inputs : CommandInputs) (insertLen : Q) (d d' : Design) (n : nat)
  : Prop :=
  exists cuts chamfers fillets,
    (extrudeFeatures d' = extrudeFeatures d ++ cuts /\
     length cuts = n /\ Forall (cutOk inputs insertLen) cuts) /\
    (chamferFeatures d' = chamferFeatures d ++ chamfers /\
     (length chamfers <= n)%nat /\ Forall chamferOk chamfers /\
     (addChamfer inputs = false -> chamfers = [])) /\
    (filletFeatures d' = filletFeatures d ++ fillets /\
     (length fillets <= n)%nat /\ Forall filletOk fillets /\
     (addBottomRadius inputs && isBlindHole inputs = false -> fillets = [])).

Lemma added_none inputs insertLen (d d' : Design) :
  extrudeFeatures d' = extrudeFeatures d ->
  chamferFeatures d' = chamferFeatures d ->
  filletFeatures d' = filletFeatures d ->
  added inputs insertLen d d' 0.
Proof.
  intros He Hc Hf. exists [], [], []. rewrite He, Hc, Hf, !app_nil_r.
  repeat split; auto.
Qed.

Lemma added_trans inputs insertLen (d1 d2 d3 : Design) (n m : nat) :
  added inputs insertLen d1 d2 n -> added inputs insertLen d2 d3 m ->
  added inputs insertLen d1 d3 (n + m).
Proof.
  intros (cuts1 & ch1 & fi1 & (He1 & Hl1 & Hok1) & (Hc1 & Hcl1 & Hcok1 & Hcoff1)
          & (Hf1 & Hfl1 & Hfok1 & Hfoff1))
         (cuts2 & ch2 & fi2 & (He2 & Hl2 & Hok2) & (Hc2 & Hcl2 & Hcok2 & Hcoff2)
          & (Hf2 & Hfl2 & Hfok2 & Hfoff2)).
  exists (cuts1 ++ cuts2), (ch1 ++ ch2), (fi1 ++ fi2).
  rewrite He2, He1, Hc2, Hc1, Hf2, Hf1, <- !app_assoc, !length_app.
  split; [|split].
  - split; [reflexivity|]. split; [lia|]. apply Forall_app. auto.
  - split; [reflexivity|]. split; [lia|]. split; [apply Forall_app; auto|].
    intros H. now rewrite Hcoff1, Hcoff2.
  - split; [reflexivity|]. split; [lia|]. split; [apply Forall_app; auto|].
    intros H. now rewrite Hfoff1, Hfoff2.
Qed.

Lemma chamferStep_adds inputs d sid center2d diameter :
  let d' := chamferStep' inputs d sid center2d diameter in
  extrudeFeatures d' = extrudeFeatures d /\
  filletFeatures d' = filletFeatures d /\
  exists chamfers,
    chamferFeatures d' = chamferFeatures d ++ chamfers /\
    (length chamfers <= 1)%nat /\ Forall chamferOk chamfers /\
    (addChamfer inputs = false -> chamfers = []).
Proof.
  unfold chamferStep. destruct (addChamfer inputs) eqn:E; cbv zeta.
  - destruct (findChamferEdge _ _ _ _ _) as [edge|]; simpl.
    + repeat split. eexists. split; [reflexivity|]. simpl.
      split; [lia|]. split; [|discriminate].
      constructor; [reflexivity|constructor].
    + repeat split. exists []. rewrite app_nil_r. simpl. repeat split; auto.
  - repeat split. exists []. rewrite app_nil_r. simpl. repeat split; auto.
Qed.

Lemma bottomRadiusStep_adds inputs d sid center2d diameter :
  let d' := bottomRadiusStep' inputs d sid center2d diameter in
  extrudeFeatures d' = extrudeFeatures d /\
  chamferFeatures d' = chamferFeatures d /\
  exists fillets,
    filletFeatures d' = filletFeatures d ++ fillets /\
    (length fillets <= 1)%nat /\ Forall filletOk fillets /\
    (addBottomRadius inputs && isBlindHole inputs = false -> fillets = []).
Proof.
  unfold bottomRadiusStep, addBottomRadiusToBlindHole.
  destruct (addBottomRadius inputs && isBlindHole inputs) eqn:E; cbv zeta.
  - destruct (bottomEdge _ _ _ _ _ _) as [edge|]; simpl.
    + repeat split. eexists. split; [reflexivity|]. simpl.
      split; [lia|]. split; [|discriminate].
      constructor; [reflexivity|constructor].
    + repeat split. exists []. rewrite app_nil_r. simpl. repeat split; auto.
  - repeat split. exists []. rewrite app_nil_r. simpl. repeat split; auto.
Qed.

(** One turn of the loop adds the features of one bore and counts one
    success, or adds nothing. *)
Lemma processPoint_added inputs holeRadius insertLen b point :
  exists b' k,
    processPoint' inputs holeRadius insertLen b point = Ok b' /\
    successCount b' = (successCount b + k)%nat /\
    added inputs insertLen (design b) (design b') k.
Proof.
  unfold processPoint.
  destruct (addCircleAtPoint circleArea (design b) point holeRadius) as [circle d1] eqn:Hadd.
  assert (He1 : extrudeFeatures d1 = extrudeFeatures (design b))
    by (injection Hadd as _ <-; reflexivity).
  assert (Hc1 : chamferFeatures d1 = chamferFeatures (design b))
    by (injection Hadd as _ <-; reflexivity).
  assert (Hf1 : filletFeatures d1 = filletFeatures (design b))
    by (injection Hadd as _ <-; reflexivity).
  clear Hadd. cbv zeta.
  set (sketch := sketchIn transformOf profilesOf d1 (point_parentSketch point)).
  destruct (findProfileForCircle_returns distanceTo sketch circle) as (found & Hfound).
  rewrite Hfound. destruct found as [sel|].
  - destruct (findExtrudeDirectionFromSketch sketch (point_geometry point)
                (targetBodyOf d1)) as [direction|] eqn:Hdir.
    + eexists. exists 1%nat. split; [reflexivity|]. simpl.
      split; [lia|].
      match goal with
      | |- context [bottomRadiusStep' inputs ?d3 ?sid ?c ?dia] =>
          destruct (bottomRadiusStep_adds inputs d3 sid c dia)
            as (He4 & Hc4 & fillets & Hf4 & Hfl & Hfok & Hfoff);
          destruct (chamferStep_adds inputs
                      (addExtrude d1 {| extrude_profile := sel;
                                        extrude_distance :=
                                          if isBlindHole inputs
                                          then (insertLen + blind_hole_extra_depth settings)
                                               / 10.0
                                          else findDistanceThroughBody sketch
                                                 (point_geometry point) (targetBodyOf d1)
                                                 direction;
                                        extrude_direction := direction |}) sid c dia)
            as (He3 & Hf3 & chamfers & Hc3 & Hcl & Hcok & Hcoff)
      end.
      cbv zeta in *.
      eexists _, chamfers, fillets. split; [|split].
      * rewrite He4, He3. simpl. rewrite He1. split; [reflexivity|]. split; [reflexivity|].
        constructor; [|constructor]. unfold cutOk. simpl.
        destruct (isBlindHole inputs); [reflexivity|].
        apply findDistanceThroughBody_range.
      * rewrite Hc4, Hc3. simpl. rewrite Hc1. auto.
      * rewrite Hf4, Hf3. simpl. rewrite Hf1. auto.
    + eexists. exists 0%nat. split; [reflexivity|]. simpl. split; [lia|].
      now apply added_none.
  - eexists. exists 0%nat. split; [reflexivity|]. simpl. split; [lia|].
    now apply added_none.
Qed.

Lemma processPoints_added inputs holeRadius insertLen points b :
  exists b' k,
    processPoints' inputs holeRadius insertLen b points = Ok b' /\
    successCount b' = (successCount b + k)%nat /\
    added inputs insertLen (design b) (design b') k.
Proof.
  revert b. induction points as [|point points IH]; intros b; simpl.
  - exists b, 0%nat. split; [reflexivity|]. split; [lia|]. now apply added_none.
  - destruct (processPoint_added inputs holeRadius insertLen b point)
      as (b1 & k1 & Hb1 & Hs1 & Ha1).
    rewrite Hb1. destruct (IH b1) as (b' & k & Hb' & Hs & Ha).
    exists b', (k1 + k)%nat. split; [exact Hb'|]. split; [lia|].
    now apply added_trans with (design b1).
Qed.


(** X12. The chamfers and fillets [notify] adds come after those that
    were there, at most one of each per point that succeeded, with the
    sizes of the settings over 10; no chamfer is added when the chamfer
    box is not ticked, and no fillet when the fillet box is not ticked or
    the hole is a through hole. *)
Theorem cosmetic_features (inputs : CommandInputs) (d : Design) (spec : Q * Q * Q) :
  INSERT_SPECS !! insertName inputs = Some spec ->
  exists b chamfers fillets,
    notify' inputs d = Ok b /\
    (chamferFeatures (design b) = chamferFeatures d ++ chamfers /\
     (length chamfers <= successCount b)%nat /\
     Forall (fun c => chamfer_distance c = chamfer_size settings / 10.0) chamfers /\
     (addChamfer inputs = false -> chamfers = [])) /\
    (filletFeatures (design b) = filletFeatures d ++ fillets /\
     (length fillets <= successCount b)%nat /\
     Forall (fun f => fillet_radius f = bottom_radius_size settings / 10.0) fillets /\
     (addBottomRadius inputs = false \/ isBlindHole inputs = false -> fillets = [])).
Proof.
  intros Hspec. unfold notify. rewrite Hspec. destruct spec as [[holeDia insertLen] minWall].
  destruct (processPoints_added inputs (holeDia / 2.0 / 10.0) insertLen
              (selectedPoints inputs)
              {| design := d; successCount := 0; failedCount := 0; reports := [] |})
    as (b & k & Hb & Hs & cuts & chamfers & fillets & _
        & (Hc & Hcl & Hcok & Hcoff) & (Hf & Hfl & Hfok & Hfoff)).
  simpl in Hs, Hc, Hf. exists b, chamfers, fillets. split; [exact Hb|]. split.
  - split; [exact Hc|]. split; [lia|]. split; [exact Hcok|exact Hcoff].
  - split; [exact Hf|]. split; [lia|]. split; [exact Hfok|].
    intros [H|H]; apply Hfoff; rewrite H; [reflexivity|apply andb_false_r].
Qed.

(** X13. The dialog and the cut agree: when [updateInfoText] finds no
    specification for the insert chosen, [notify] stops with the same
    [KeyError] before it draws anything; when the text shows a depth in
    mm, every cut [notify] adds has that depth over 10; and the text shows
    the words for a through hole only in through-hole mode. *)
Theorem info_text_matches_cuts (inputs : CommandInputs) (d : Design) :
  match InfoText.updateInfoText INSERT_SPECS settings inputs with
  | None => notify' inputs d = Raised "KeyError"
  | Some info =>
      exists b cuts,
        notify' inputs d = Ok b /\
        extrudeFeatures (design b) = extrudeFeatures d ++ cuts /\
        match InfoText.info_holeDepth info with
        | InfoText.DepthMm mm => Forall (fun f => extrude_distance f = mm / 10.0) cuts
        | InfoText.ThroughBody => isBlindHole inputs = false
        end
  end.
Proof.
  unfold InfoText.updateInfoText, notify.
  destruct (INSERT_SPECS !! insertName inputs) as [[[holeDia insertLen] minWall]|];
    [|reflexivity].
  destruct (processPoints_added inputs (holeDia / 2.0 / 10.0) insertLen
              (selectedPoints inputs)
              {| design := d; successCount := 0; failedCount := 0; reports := [] |})
    as (b & k & Hb & _ & cuts & _ & _ & (He & _ & Hok) & _).
  simpl in He. exists b, cuts. split; [exact Hb|]. split; [exact He|].
  cbn [InfoText.info_holeDepth]. destruct (isBlindHole inputs) eqn:Hblind;
    [|reflexivity].
  eapply List.Forall_impl; [|exact Hok]. intros f Hf.
  unfold cutOk in Hf. now rewrite Hblind in Hf.
Qed.

End Batch.

(** The same point as [blindM3], as a through hole with both boxes ticked. *)
Definition throughM3 : CommandInputs :=
  {| selectedPoints := [pointOn 1 1];
     insertName := "M3 x 5.7mm (standard)";
     isBlindHole := false; addChamfer := true; addBottomRadius := true |}.


Lemma cosmetic_features_witness :
  exists b chamfers fillets,
    exampleNotify throughM3 emptyDesign = Ok b /\
    (chamferFeatures (design b) = chamferFeatures emptyDesign ++ chamfers /\
     (length chamfers <= successCount b)%nat /\
     Forall (fun c => chamfer_distance c = chamfer_size CONFIG / 10.0) chamfers /\
     (addChamfer throughM3 = false -> chamfers = [])) /\
    (filletFeatures (design b) = filletFeatures emptyDesign ++ fillets /\
     (length fillets <= successCount b)%nat /\
     Forall (fun f => fillet_radius f = bottom_radius_size CONFIG / 10.0) fillets /\
     (addBottomRadius throughM3 = false \/ isBlindHole throughM3 = false -> fillets = [])).
Proof.
  apply (cosmetic_features exampleTransformOf exampleProfilesOf exampleBodyOf
           exampleCircleArea exactDistanceTo exactLength Qsqrt_exact
           get_default_inserts CONFIG throughM3 emptyDesign (4.4, 5.7, 1.6)).
  vm_compute. reflexivity.
Defined.

(** The through hole on the example host: one cut of 13mm through the
    10mm plate, a chamfer, and no fillet although the box is ticked. *)
Example through_M3_outcome :
  match exampleNotify throughM3 emptyDesign with
  | Ok b =>
      map (fun f => Qeq_bool (extrude_distance f) 1.3) (extrudeFeatures (design b))
      = [true] /\
      length (chamferFeatures (design b)) = 1%nat /\
      filletFeatures (design b) = []
  | Raised _ => False
  end.
Proof. vm_compute. repeat split. Qed.

End OrchestratorExtras.

(** ** What [load_config] lets through *)

Module ConfigExtras.

Import NumFacts ConfigLoader LoaderScenarios.

(** A number the range checks of the loader let through: one in the
    range, or nan, for which both comparisons of a check are false. *)
Definition nanOr (P : Q -> Prop) (x : PyFloat) : Prop :=
  match x with
  | Finite q => P q
  | NaN => True
  | PosInf | NegInf => False
  end.

Definition specChecked (spec : InsertSpec) : Prop :=
  nanOr (fun q => 0 < q /\ q <= 50) (fst (fst spec)) /\
  nanOr (fun q => 0 < q /\ q <= 100) (snd (fst spec)) /\
  nanOr (fun q => 0 <= q /\ q <= 20) (snd spec).

Definition settingsChecked (cfg : ConfigDict) : Prop :=
  nanOr (fun q => 0 < q /\ q <= 5.0) (chamfer_size cfg) /\
  nanOr (fun q => 0 <= q /\ q <= 10.0) (blind_hole_extra_depth cfg) /\
  nanOr (fun q => 0 <= q /\ q <= 5.0) (bottom_radius_size cfg).

Lemma open_check (x : PyFloat) (hi : Q) :
  fle x 0 || fgt x hi = false <-> nanOr (fun q => 0 < q /\ q <= hi) x.
Proof.
  rewrite orb_false_iff. destruct x as [q| | |]; simpl.
  - rewrite Qleb_gt, Qgtb_le. reflexivity.
  - split; [intros [_ H]; discriminate | intros []].
  - split; [intros [H _]; discriminate | intros []].
  - split; auto.
Qed.

Lemma closed_check (x : PyFloat) (hi : Q) :
  flt x 0 || fgt x hi = false <-> nanOr (fun q => 0 <= q /\ q <= hi) x.
Proof.
  rewrite orb_false_iff. destruct x as [q| | |]; simpl.
  - rewrite Qltb_ge, Qgtb_le. reflexivity.
  - split; [intros [_ H]; discriminate | intros []].
  - split; [intros [H _]; discriminate | intros []].
  - split; auto.
Qed.

(** *** The dict *)

Lemma dict_get_dict_set {V : Type} (d : list (string * V)) (k : string) (v : V)
  (k' : string) :
  dict_get (dict_set d k v) k' = if String.eqb k k' then Some v else dict_get d k'.
Proof.
  induction d as [|[k0 v0] d IH]; simpl.
  - reflexivity.
  - destruct (String.eqb k0 k) eqn:E; simpl.
    + apply String.eqb_eq in E. subst k0. destruct (String.eqb k k'); reflexivity.
    + destruct (String.eqb k0 k') eqn:E'.
      * apply String.eqb_eq in E'. subst k'.
        rewrite String.eqb_sym, E. reflexivity.
      * exact IH.
Qed.

Lemma keys_dict_set {V : Type} (d : list (string * V)) (k : string) (v : V)
  (k' : string) :
  In k' (keys (dict_set d k v)) <-> k' = k \/ In k' (keys d).
Proof.
  induction d as [|[k0 v0] d IH]; simpl.
  - intuition.
  - destruct (String.eqb k0 k) eqn:E; simpl.
    + apply String.eqb_eq in E. subst k0. intuition.
    + unfold keys in IH. rewrite IH. intuition.
Qed.

Lemma NoDup_dict_set {V : Type} (d : list (string * V)) (k : string) (v : V) :
  List.NoDup (keys d) -> List.NoDup (keys (dict_set d k v)).
Proof.
  induction d as [|[k0 v0] d IH]; simpl; intros Hd.
  - constructor; [intros []|constructor].
  - destruct (String.eqb k0 k) eqn:E; simpl.
    + exact Hd.
    + apply List.NoDup_cons_iff in Hd. destruct Hd as [Hk0 Hd].
      apply List.NoDup_cons_iff. split; [|exact (IH Hd)].
      intros Hin. apply (keys_dict_set d k v k0) in Hin. destruct Hin as [->|Hin].
      * rewrite String.eqb_refl in E. discriminate.
      * exact (Hk0 Hin).
Qed.

Lemma Forall_dict_set {V : Type} (P : V -> Prop) (d : list (string * V)) (k : string)
  (v : V) :
  Forall (fun item => P (snd item)) d -> P v ->
  Forall (fun item => P (snd item)) (dict_set d k v).
Proof.
  intros Hd Hv. induction d as [|[k0 v0] d IH]; simpl.
  - constructor; [exact Hv|constructor].
  - apply List.Forall_cons_iff in Hd. destruct Hd as [H0 Hd].
    destruct (String.eqb k0 k); constructor; auto.
Qed.

Lemma dict_get_keys {V : Type} (d : list (string * V)) (k : string) (v : V) :
  dict_get d k = Some v -> In k (keys d).
Proof.
  induction d as [|[k0 v0] d IH]; simpl; [discriminate|].
  destruct (String.eqb k0 k) eqn:E.
  - apply String.eqb_eq in E. auto.
  - auto.
Qed.

Lemma dict_set_nonempty {V : Type} (d : list (string * V)) (k : string) (v : V) :
  dict_set d k v <> [].
Proof.
  destruct d as [|[k0 v0] d]; simpl; [discriminate|].
  destruct (String.eqb k0 k); discriminate.
Qed.

(** *** The defaults *)

(** The defaults of the loader are the catalog the engine is run on. *)
Lemma default_items_catalog :
  (list_to_map default_items : gmap string (Q * Q * Q)) = Config.get_default_inserts.
Proof. reflexivity. Qed.

Lemma default_inserts_NoDup : List.NoDup (keys default_inserts).
Proof.
  unfold default_inserts, default_items, keys. cbn [map fst].
  repeat (apply List.NoDup_cons; [cbn [In]; intuition discriminate|]).
  apply List.NoDup_nil.
Qed.

Lemma default_inserts_checked :
  Forall (fun item => specChecked (snd item)) default_inserts.
Proof.
  unfold default_inserts, default_items. cbn [map fst snd finiteSpec].
  repeat (apply List.Forall_cons; [unfold specChecked; cbn [fst snd nanOr]; lra|]).
  apply List.Forall_nil.
Qed.

Section Loading.

Variable strip : string -> string.
Variable float : string -> option PyFloat.
Variable boolean : string -> option bool.

Abbreviation load_insert' := (load_insert strip float).
Abbreviation load_inserts' := (load_inserts strip float).
Abbreviation load_settings' := (load_settings float boolean).
Abbreviation load_config' := (load_config strip float boolean).

(** A line the loop passes over without a word. *)
Definition commentLine (config : RawConfigParser) (name : string) : Prop :=
  startswith_hash name = true \/
  exists values,
    get config "Inserts" name = Some values /\
    (strip values = ""%string \/ startswith_hash (strip values) = true).

(** A line that reaches [INSERT_SPECS[name] = ...] with the numbers [spec]. *)
Definition acceptedLine (config : RawConfigParser) (name : string) (spec : InsertSpec)
  : Prop :=
  startswith_hash name = false /\
  exists values part0 part1 part2,
    get config "Inserts" name = Some values /\
    strip values <> ""%string /\
    startswith_hash (strip values) = false /\
    map strip (split_comma values) = [part0; part1; part2] /\
    float part0 = Some (fst (fst spec)) /\
    float part1 = Some (snd (fst spec)) /\
    float part2 = Some (snd spec) /\
    specChecked spec.

(** The three ways a turn of the loop can end. *)
Lemma load_insert_cases (config : RawConfigParser) (specs : list (string * InsertSpec))
  (warned : list Warning) (name : string) :
  (commentLine config name /\ load_insert' config (specs, warned) name = (specs, warned))
  \/ (exists w, warnedInsert w = Some name /\
                load_insert' config (specs, warned) name = (specs, warned ++ [w]))
  \/ (exists spec, specChecked spec /\
                   load_insert' config (specs, warned) name
                   = (dict_set specs name spec, warned)).
Proof.
  unfold load_insert, commentLine.
  destruct (startswith_hash name) eqn:Hname; [left; auto|].
  destruct (get config "Inserts" name) as [values|] eqn:Hget;
    [|right; left; eexists; split; [|reflexivity]; reflexivity].
  destruct (String.eqb (strip values) "") eqn:Hempty.
  { apply String.eqb_eq in Hempty. left. split; [|reflexivity].
    right. exists values. auto. }
  destruct (startswith_hash (strip values)) eqn:Hcomment.
  { left. split; [|reflexivity]. right. exists values. auto. }
  cbn [orb]. cbv zeta.
  destruct (map strip (split_comma values)) as [|part0 [|part1 [|part2 [|part3 rest]]]];
    try (right; left; eexists; split; [|reflexivity]; reflexivity).
  destruct (float part0) as [hole_dia|];
    [|right; left; eexists; split; [|reflexivity]; reflexivity].
  destruct (float part1) as [insert_len|];
    [|right; left; eexists; split; [|reflexivity]; reflexivity].
  destruct (float part2) as [min_wall|];
    [|right; left; eexists; split; [|reflexivity]; reflexivity].
  destruct (fle hole_dia 0 || fgt hole_dia 50) eqn:H0;
    [right; left; eexists; split; [|reflexivity]; reflexivity|].
  destruct (fle insert_len 0 || fgt insert_len 100) eqn:H1;
    [right; left; eexists; split; [|reflexivity]; reflexivity|].
  destruct (flt min_wall 0 || fgt min_wall 20) eqn:H2;
    [right; left; eexists; split; [|reflexivity]; reflexivity|].
  right; right. exists (hole_dia, insert_len, min_wall). split; [|reflexivity].
  unfold specChecked. cbn [fst snd].
  apply open_check in H0. apply open_check in H1. apply closed_check in H2. auto.
Qed.

Lemma load_insert_accepts (config : RawConfigParser) (specs : list (string * InsertSpec))
  (warned : list Warning) (name : string) (spec : InsertSpec) :
  acceptedLine config name spec ->
  load_insert' config (specs, warned) name = (dict_set specs name spec, warned).
Proof.
  intros (Hname & values & part0 & part1 & part2 & Hget & Hempty & Hcomment & Hparts
          & Hf0 & Hf1 & Hf2 & H0 & H1 & H2).
  destruct spec as [[hole_dia insert_len] min_wall]. cbn [fst snd] in *.
  apply open_check in H0. apply open_check in H1. apply closed_check in H2.
  unfold load_insert. rewrite Hname, Hget, Hcomment.
  apply String.eqb_neq in Hempty. rewrite Hempty. cbn [orb]. cbv zeta.
  rewrite Hparts, Hf0, Hf1, Hf2, H0, H1, H2. reflexivity.
Qed.

(** What the loop keeps true of the catalog it builds. *)
Definition catalogChecked (specs : list (string * InsertSpec)) : Prop :=
  List.NoDup (keys specs) /\ Forall (fun item => specChecked (snd item)) specs.

Lemma load_insert_checked (config : RawConfigParser)
  (st : list (string * InsertSpec) * list Warning) (name : string) :
  catalogChecked (fst st) -> catalogChecked (fst (load_insert' config st name)).
Proof.
  destruct st as [specs warned]. intros [Hnd Hall].
  destruct (load_insert_cases config specs warned name)
    as [[_ ->]|[(w & _ & ->)|(spec & Hspec & ->)]]; cbn [fst].
  - split; assumption.
  - split; assumption.
  - split; [now apply NoDup_dict_set|now apply Forall_dict_set].
Qed.

Lemma load_inserts_checked (config : RawConfigParser) (names : list string)
  (st : list (string * InsertSpec) * list Warning) :
  catalogChecked (fst st) ->
  catalogChecked (fst (fold_left (load_insert' config) names st)).
Proof.
  revert st. induction names as [|name names IH]; intros st Hst; simpl.
  - exact Hst.
  - apply IH. now apply load_insert_checked.
Qed.

(** Names and warnings are only added. *)
Lemma load_insert_grows (config : RawConfigParser)
  (st : list (string * InsertSpec) * list Warning) (name : string) :
  incl (keys (fst st)) (keys (fst (load_insert' config st name))) /\
  incl (snd st) (snd (load_insert' config st name)).
Proof.
  destruct st as [specs warned].
  destruct (load_insert_cases config specs warned name)
    as [[_ ->]|[(w & _ & ->)|(spec & Hspec & ->)]]; cbn [fst snd].
  - split; apply incl_refl.
  - split; [apply incl_refl|apply incl_appl, incl_refl].
  - split; [|apply incl_refl]. intros k Hk. apply keys_dict_set. auto.
Qed.

Lemma load_inserts_grows (config : RawConfigParser) (names : list string)
  (st : list (string * InsertSpec) * list Warning) :
  incl (keys (fst st)) (keys (fst (fold_left (load_insert' config) names st))) /\
  incl (snd st) (snd (fold_left (load_insert' config) names st)).
Proof.
  revert st. induction names as [|name names IH]; intros st; simpl.
  - split; apply incl_refl.
  - destruct (load_insert_grows config st name) as [Hk Hw].
    destruct (IH (load_insert' config st name)) as [Hk' Hw'].
    split; eapply incl_tran; eassumption.
Qed.

Definition accounted (config : RawConfigParser) (name : string)
  (st : list (string * InsertSpec) * list Warning) : Prop :=
  commentLine config name \/
  In name (keys (fst st)) \/
  exists w, In w (snd st) /\ warnedInsert w = Some name.

Lemma load_inserts_accounted (config : RawConfigParser) (names : list string)
  (st : list (string * InsertSpec) * list Warning) (name : string) :
  In name names ->
  accounted config name (fold_left (load_insert' config) names st).
Proof.
  revert st. induction names as [|name' names IH]; intros st Hin; simpl.
  - destruct Hin.
  - destruct Hin as [->|Hin]; [|now apply IH].
    destruct (load_inserts_grows config names (load_insert' config st name))
      as [Hk Hw].
    destruct st as [specs warned].
    destruct (load_insert_cases config specs warned name)
      as [[Hc _]|[(w & Hwn & E)|(spec & Hspec & E)]].
    + left. exact Hc.
    + right; right. exists w. split; [|exact Hwn].
      apply Hw. rewrite E. cbn [snd]. apply in_or_app. right. left. reflexivity.
    + right; left. apply Hk. rewrite E. cbn [fst]. apply keys_dict_set. auto.
Qed.

Lemma load_insert_keeps_value (config : RawConfigParser)
  (st : list (string * InsertSpec) * list Warning) (name name' : string)
  (spec : InsertSpec) :
  acceptedLine config name spec ->
  dict_get (fst st) name = Some spec \/ name' = name ->
  dict_get (fst (load_insert' config st name')) name = Some spec.
Proof.
  intros Hacc Hst. destruct st as [specs warned].
  destruct (String.string_dec name' name) as [->|Hne].
  - rewrite (load_insert_accepts config specs warned name spec Hacc). cbn [fst].
    rewrite dict_get_dict_set, String.eqb_refl. reflexivity.
  - destruct Hst as [Hst|Heq]; [|contradiction]. cbn [fst] in Hst.
    destruct (load_insert_cases config specs warned name')
      as [[_ ->]|[(w & _ & ->)|(spec' & _ & ->)]]; cbn [fst]; try exact Hst.
    rewrite dict_get_dict_set. apply String.eqb_neq in Hne. now rewrite Hne.
Qed.

Lemma load_inserts_keeps_value (config : RawConfigParser) (names : list string)
  (st : list (string * InsertSpec) * list Warning) (name : string) (spec : InsertSpec) :
  acceptedLine config name spec ->
  dict_get (fst st) name = Some spec \/ In name names ->
  dict_get (fst (fold_left (load_insert' config) names st)) name = Some spec.
Proof.
  intros Hacc. revert st. induction names as [|name' names IH]; intros st Hst; simpl.
  - destruct Hst as [Hst|[]]. exact Hst.
  - destruct Hst as [Hst|[Heq|Hin]].
    + apply IH. left. apply load_insert_keeps_value; auto.
    + apply IH. left. apply load_insert_keeps_value; auto.
    + apply IH. right. exact Hin.
Qed.

Lemma get_options (config : RawConfigParser) (section name value : string) :
  get config section name = Some value ->
  has_section config section = true /\ In name (options config section).
Proof.
  unfold get, has_section, options.
  destruct (dict_get config section) as [opts|]; [|discriminate].
  intros H. split; [reflexivity|]. now apply dict_get_keys in H.
Qed.

Lemma options_has_section (config : RawConfigParser) (section name : string) :
  In name (options config section) -> has_section config section = true.
Proof.
  unfold has_section, options.
  destruct (dict_get config section); [reflexivity|intros []].
Qed.

Lemma load_inserts_start_checked (config : RawConfigParser) :
  catalogChecked (fst (load_inserts' config)).
Proof.
  unfold load_inserts.
  destruct (has_section config "Inserts").
  - apply load_inserts_checked. split; constructor.
  - split; constructor.
Qed.

(** X14. Whatever the file holds, and also when reading it fails,
    [load_config] leaves a catalog that is not empty, has no name twice,
    and in which every number is within its range (hole diameter in
    (0, 50], insert length in (0, 100], minimum wall in [0, 20]) or is
    nan. *)
Theorem loaded_catalog_checked (file : Result RawConfigParser) (cfg : ConfigDict) :
  INSERT_SPECS (load_config' file cfg) <> [] /\
  List.NoDup (keys (INSERT_SPECS (load_config' file cfg))) /\
  Forall (fun item => specChecked (snd item)) (INSERT_SPECS (load_config' file cfg)).
Proof.
  unfold load_config. destruct file as [config|what].
  - destruct (load_settings' config cfg) as [cfg' w1].
    pose proof (load_inserts_start_checked config) as [Hnd Hall].
    destruct (load_inserts' config) as [specs w2]. cbn [fst] in Hnd, Hall.
    destruct specs as [|item specs]; cbn [INSERT_SPECS].
    + split; [discriminate|]. split;
        [exact default_inserts_NoDup|exact default_inserts_checked].
    + split; [discriminate|]. split; assumption.
  - cbn [INSERT_SPECS]. split; [discriminate|].
    split; [exact default_inserts_NoDup|exact default_inserts_checked].
Qed.

(** X15. A line of [Inserts] that is not a comment, splits at its commas
    into three parts that [float] reads, each number within its range or
    nan, is in the catalog after [load_config] under its name and with
    those numbers. *)
Theorem accepted_insert_loaded (config : RawConfigParser) (cfg : ConfigDict)
  (name : string) (spec : InsertSpec) :
  acceptedLine config name spec ->
  dict_get (INSERT_SPECS (load_config' (Ok config) cfg)) name = Some spec.
Proof.
  intros Hacc.
  assert (Hopt : has_section config "Inserts" = true /\
                 In name (options config "Inserts")).
  { destruct Hacc as (_ & values & _ & _ & _ & Hget & _). exact (get_options _ _ _ _ Hget). }
  destruct Hopt as [Hsec Hin].
  pose proof (load_inserts_keeps_value config (options config "Inserts") ([], [])
                name spec Hacc (or_intror Hin)) as Hval.
  unfold load_config. destruct (load_settings' config cfg) as [cfg' w1].
  unfold load_inserts. rewrite Hsec.
  destruct (fold_left (load_insert' config) (options config "Inserts") ([], []))
    as [specs w2]. cbn [fst] in Hval.
  destruct specs as [|item specs]; [discriminate|]. exact Hval.
Qed.

(** X16. No line of [Inserts] is dropped without a word: after
    [load_config] its name is in the catalog, or a warning names it, or
    it is a comment (a name that starts with [#], or a value that is
    empty or starts with [#] once stripped). *)
Theorem no_insert_dropped_silently (config : RawConfigParser) (cfg : ConfigDict)
  (name : string) :
  In name (options config "Inserts") ->
  commentLine config name \/
  In name (keys (INSERT_SPECS (load_config' (Ok config) cfg))) \/
  exists w, In w (warnings (load_config' (Ok config) cfg)) /\ warnedInsert w = Some name.
Proof.
  intros Hin.
  pose proof (load_inserts_accounted config (options config "Inserts") ([], []) name Hin)
    as Hacc.
  unfold load_config. destruct (load_settings' config cfg) as [cfg' w1].
  unfold load_inserts. rewrite (options_has_section _ _ _ Hin).
  destruct (fold_left (load_insert' config) (options config "Inserts") ([], []))
    as [specs w2].
  destruct Hacc as [Hc|[Hk|(w & Hw & Hwn)]]; cbn [fst snd] in *.
  - left. exact Hc.
  - destruct specs as [|item specs]; [destruct Hk|]. right; left. exact Hk.
  - right; right. exists w. split; [|exact Hwn].
    destruct specs as [|item specs]; cbn [warnings]; rewrite !in_app_iff; auto.
Qed.

(** What a numeric key of [Settings] is set to: the number read if
    [float] reads one that the range check lets through, the default if
    the key is missing, the value unreadable or the number out of range. *)
Definition settled (read : option string) (inRange : Q -> Prop) (default : Q)
  (result : PyFloat) : Prop :=
  match read with
  | None => result = Finite default
  | Some value =>
      match float value with
      | None => result = Finite default
      | Some x =>
          (nanOr inRange x /\ result = x) \/
          (~ nanOr inRange x /\ result = Finite default)
      end
  end.

Lemma load_chamfer_size_settled (config : RawConfigParser) :
  settled (get config "Settings" "chamfer_size") (fun q => 0 < q /\ q <= 5.0) 0.5
          (fst (load_chamfer_size float config)).
Proof.
  unfold settled, load_chamfer_size, getfloat.
  destruct (get config "Settings" "chamfer_size") as [value|]; [|reflexivity].
  destruct (float value) as [x|]; [|reflexivity].
  destruct (fle x 0 || fgt x 5.0) eqn:E; cbn [fst].
  - right. split; [|reflexivity]. intros H. apply open_check in H. congruence.
  - left. split; [now apply open_check|reflexivity].
Qed.

Lemma load_blind_hole_extra_depth_settled (config : RawConfigParser) :
  settled (get config "Settings" "blind_hole_extra_depth")
          (fun q => 0 <= q /\ q <= 10.0) 1.0
          (fst (load_blind_hole_extra_depth float config)).
Proof.
  unfold settled, load_blind_hole_extra_depth, getfloat.
  destruct (get config "Settings" "blind_hole_extra_depth") as [value|]; [|reflexivity].
  destruct (float value) as [x|]; [|reflexivity].
  destruct (flt x 0 || fgt x 10.0) eqn:E; cbn [fst].
  - right. split; [|reflexivity]. intros H. apply closed_check in H. congruence.
  - left. split; [now apply closed_check|reflexivity].
Qed.

Lemma load_bottom_radius_size_settled (config : RawConfigParser) :
  settled (get config "Settings" "bottom_radius_size") (fun q => 0 <= q /\ q <= 5.0) 0.5
          (fst (load_bottom_radius_size float config)).
Proof.
  unfold settled, load_bottom_radius_size, getfloat.
  destruct (get config "Settings" "bottom_radius_size") as [value|]; [|reflexivity].
  destruct (float value) as [x|]; [|reflexivity].
  destruct (flt x 0 || fgt x 5.0) eqn:E; cbn [fst].
  - right. split; [|reflexivity]. intros H. apply closed_check in H. congruence.
  - left. split; [now apply closed_check|reflexivity].
Qed.

(** A setting that is settled is within its check. *)
Lemma settled_checked (read : option string) (inRange : Q -> Prop) (default : Q)
  (result : PyFloat) :
  inRange default -> settled read inRange default result -> nanOr inRange result.
Proof.
  unfold settled. intros Hd H.
  destruct read as [value|]; [|now subst result].
  destruct (float value) as [x|]; [|now subst result].
  destruct H as [[Hx ->]|[_ ->]]; [exact Hx|exact Hd].
Qed.

(** What [load_config] does to the three numeric settings. *)
Definition settingsLoaded (file : Result RawConfigParser) (cfg cfg' : ConfigDict) : Prop :=
  match file with
  | Ok config =>
      if has_section config "Settings" then
        settled (get config "Settings" "chamfer_size")
                (fun q => 0 < q /\ q <= 5.0) 0.5 (chamfer_size cfg') /\
        settled (get config "Settings" "blind_hole_extra_depth")
                (fun q => 0 <= q /\ q <= 10.0) 1.0 (blind_hole_extra_depth cfg') /\
        settled (get config "Settings" "bottom_radius_size")
                (fun q => 0 <= q /\ q <= 5.0) 0.5 (bottom_radius_size cfg')
      else cfg' = cfg
  | Raised _ => cfg' = cfg
  end.

Lemma load_settings_loaded (config : RawConfigParser) (cfg : ConfigDict) :
  settingsLoaded (Ok config) cfg (fst (load_settings' config cfg)).
Proof.
  unfold settingsLoaded, load_settings.
  destruct (has_section config "Settings"); [|reflexivity].
  pose proof (load_chamfer_size_settled config) as H1.
  pose proof (load_blind_hole_extra_depth_settled config) as H2.
  pose proof (load_bottom_radius_size_settled config) as H3.
  destruct (load_chamfer_size float config) as [chamfer w1].
  destruct (load_blind_hole_extra_depth float config) as [extra_depth w2].
  destruct (load_boolean boolean config "chamfer_enabled_default" true _) as [b3 w3].
  destruct (load_bottom_radius_size float config) as [bottom_radius w4].
  destruct (load_boolean boolean config "bottom_radius_enabled_default" false _)
    as [b5 w5].
  destruct (load_boolean boolean config "show_success_message" true _) as [b6 w6].
  destruct (load_boolean boolean config "hole_type_blind" true _) as [b7 w7].
  destruct (load_boolean boolean config "enable_logging" false _) as [b8 w8].
  cbn [fst] in *. cbn [chamfer_size blind_hole_extra_depth bottom_radius_size]. auto.
Qed.

(** X17. With a [Settings] section, [load_config] sets each of
    chamfer_size, blind_hole_extra_depth and bottom_radius_size to the
    number read when [float] reads one within the range of the key
    ((0, 5], [0, 10], [0, 5]) or nan, and to its default (0.5, 1.0, 0.5)
    when the key is missing, the value unreadable or the number out of
    range; without the section, or when reading the file fails, [CONFIG]
    is left as it was.  So settings that are within their checks before
    the call are within them after it. *)
Theorem settings_stay_checked (file : Result RawConfigParser) (cfg : ConfigDict) :
  settingsChecked cfg ->
  settingsLoaded file cfg (loadedCONFIG (load_config' file cfg)) /\
  settingsChecked (loadedCONFIG (load_config' file cfg)).
Proof.
  intros Hcfg.
  assert (Hload : settingsLoaded file cfg (loadedCONFIG (load_config' file cfg))).
  { unfold load_config. destruct file as [config|what]; [|reflexivity].
    pose proof (load_settings_loaded config cfg) as H.
    destruct (load_settings' config cfg) as [cfg' w1]. cbn [fst] in H.
    destruct (load_inserts' config) as [specs w2].
    destruct specs; exact H. }
  split; [exact Hload|].
  unfold settingsLoaded in Hload. destruct file as [config|what].
  - destruct (has_section config "Settings").
    + destruct Hload as (H1 & H2 & H3). unfold settingsChecked.
      split; [|split].
      * eapply settled_checked; [|exact H1]. cbv beta. lra.
      * eapply settled_checked; [|exact H2]. cbv beta. lra.
      * eapply settled_checked; [|exact H3]. cbv beta. lra.
    + now rewrite Hload.
  - now rewrite Hload.
Qed.

End Loading.

(** *** The dropdown *)

Definition itemFor (lastSelected name : string) : ListItem :=
  {| item_name := name; isSelected := String.eqb name lastSelected |}.

Lemma addItem_fold (lastSelected : string) (names : list string)
  (insertList : list ListItem) (found : bool) :
  fold_left (addItem lastSelected) names (insertList, found)
  = (insertList ++ map (itemFor lastSelected) names,
     found || existsb (fun name => String.eqb name lastSelected) names).
Proof.
  revert insertList found. induction names as [|name names IH]; intros insertList found.
  - simpl. now rewrite app_nil_r, orb_false_r.
  - cbn [fold_left addItem]. rewrite IH. cbn [map existsb]. rewrite <- app_assoc.
    cbn [app]. unfold itemFor.
    destruct (String.eqb name lastSelected); cbn [orb]; rewrite ?orb_true_r; reflexivity.
Qed.

Lemma none_selected (lastSelected : string) (names : list string) :
  ~ In lastSelected names ->
  List.filter isSelected (map (itemFor lastSelected) names) = [] /\
  existsb (fun name => String.eqb name lastSelected) names = false.
Proof.
  induction names as [|name names IH]; intros Hnot; [auto|].
  cbn [map List.filter existsb itemFor isSelected].
  destruct (String.eqb name lastSelected) eqn:E.
  - apply String.eqb_eq in E. subst name. exfalso. apply Hnot. left. reflexivity.
  - apply IH. intros Hin. apply Hnot. right. exact Hin.
Qed.

Lemma last_selected (lastSelected : string) (names : list string) :
  List.NoDup names -> In lastSelected names ->
  List.filter isSelected (map (itemFor lastSelected) names)
  = [{| item_name := lastSelected; isSelected := true |}] /\
  existsb (fun name => String.eqb name lastSelected) names = true.
Proof.
  induction names as [|name names IH]; intros Hnd Hin; [destruct Hin|].
  apply List.NoDup_cons_iff in Hnd. destruct Hnd as [Hname Hnd].
  cbn [map List.filter existsb itemFor isSelected].
  destruct (String.eqb name lastSelected) eqn:E.
  - apply String.eqb_eq in E. subst name.
    destruct (none_selected lastSelected names Hname) as [-> _].
    unfold itemFor. rewrite String.eqb_refl. split; reflexivity.
  - destruct Hin as [->|Hin]; [rewrite String.eqb_refl in E; discriminate|].
    apply IH; assumption.
Qed.

Lemma insertDropdown_selected (cfg : ConfigDict) (specs : list (string * InsertSpec)) :
  List.NoDup (keys specs) -> specs <> [] ->
  let lastSelected :=
    match last_selected_insert cfg with
    | Some name => name
    | None => "M3 x 5.7mm (standard)"%string
    end in
  exists chosen,
    List.filter isSelected (insertDropdown cfg specs)
    = [{| item_name := chosen; isSelected := true |}] /\
    In chosen (keys specs) /\
    (In lastSelected (keys specs) -> chosen = lastSelected) /\
    (~ In lastSelected (keys specs) -> Some chosen = head (keys specs)) /\
    map item_name (insertDropdown cfg specs) = keys specs.
Proof.
  intros Hnd Hne lastSelected. unfold insertDropdown. fold lastSelected.
  rewrite addItem_fold. cbn [app orb].
  assert (Hnames : map item_name (map (itemFor lastSelected) (keys specs)) = keys specs).
  { rewrite map_map. cbn [itemFor item_name]. apply map_id. }
  destruct (in_dec String.string_dec lastSelected (keys specs)) as [Hin|Hnot].
  - destruct (last_selected lastSelected (keys specs) Hnd Hin) as [Hsel ->].
    cbn [negb andb]. exists lastSelected. repeat split; auto. contradiction.
  - destruct (none_selected lastSelected (keys specs) Hnot) as [_ ->].
    cbn [negb andb]. destruct specs as [|[name spec] specs]; [contradiction|].
    cbn [keys map fst length Nat.ltb Nat.leb selectFirst itemFor item_name] in *.
    cbn [List.filter isSelected].
    assert (Htail : ~ In lastSelected (map fst specs))
      by (intros H; apply Hnot; right; exact H).
    destruct (none_selected lastSelected (map fst specs) Htail) as [-> _].
    exists name. split; [reflexivity|]. split; [left; reflexivity|].
    split; [intros Hin; contradiction|]. split; [reflexivity|exact Hnames].
Qed.

(** X18. When the dialog is created after [load_config], exactly one
    item of the insert dropdown is selected, whatever the file holds; it
    names an insert of the catalog: the remembered one if the catalog has
    it, the first of the catalog otherwise; and the items are the names of
    the catalog in its order. *)
Theorem dialog_selects_loaded_insert (strip : string -> string)
  (float : string -> option PyFloat) (boolean : string -> option bool)
  (file : Result RawConfigParser) (cfg : ConfigDict) :
  let loaded := load_config strip float boolean file cfg in
  let lastSelected :=
    match last_selected_insert (loadedCONFIG loaded) with
    | Some name => name
    | None => "M3 x 5.7mm (standard)"%string
    end in
  exists chosen,
    List.filter isSelected (insertDropdown (loadedCONFIG loaded) (INSERT_SPECS loaded))
    = [{| item_name := chosen; isSelected := true |}] /\
    In chosen (keys (INSERT_SPECS loaded)) /\
    (In lastSelected (keys (INSERT_SPECS loaded)) -> chosen = lastSelected) /\
    (~ In lastSelected (keys (INSERT_SPECS loaded)) ->
     Some chosen = head (keys (INSERT_SPECS loaded))) /\
    map item_name (insertDropdown (loadedCONFIG loaded) (INSERT_SPECS loaded))
    = keys (INSERT_SPECS loaded).
Proof.
  intros loaded lastSelected.
  assert (Hcat : catalogChecked (INSERT_SPECS loaded) /\ INSERT_SPECS loaded <> []).
  { unfold loaded, load_config. destruct file as [config|what].
    - destruct (load_settings float boolean config cfg) as [cfg' w1].
      pose proof (load_inserts_start_checked strip float config) as Hchk.
      destruct (load_inserts strip float config) as [specs w2]. cbn [fst] in Hchk.
      destruct specs as [|item specs]; cbn [INSERT_SPECS].
      + split; [|discriminate]. split;
          [exact default_inserts_NoDup|exact default_inserts_checked].
      + split; [exact Hchk|discriminate].
    - cbn [INSERT_SPECS]. split; [|discriminate]. split;
        [exact default_inserts_NoDup|exact default_inserts_checked]. }
  destruct Hcat as [[Hnd _] Hne].
  exact (insertDropdown_selected (loadedCONFIG loaded) (INSERT_SPECS loaded) Hnd Hne).
Qed.

(** The file with [nan] for every number: the line is accepted. *)
Lemma accepted_insert_loaded_witness :
  acceptedLine exampleStrip exampleFloat nanFile "Odd" (NaN, NaN, NaN) /\
  dict_get (INSERT_SPECS (exampleLoad (Ok nanFile) CONFIG)) "Odd" = Some (NaN, NaN, NaN).
Proof.
  assert (H : acceptedLine exampleStrip exampleFloat nanFile "Odd" (NaN, NaN, NaN)).
  { split; [reflexivity|].
    exists "nan, nan, nan"%string, "nan"%string, "nan"%string, "nan"%string.
    repeat split; try reflexivity. vm_compute. discriminate. }
  split; [exact H|].
  exact (accepted_insert_loaded exampleStrip exampleFloat exampleBoolean nanFile CONFIG
           "Odd" (NaN, NaN, NaN) H).
Defined.

Lemma no_insert_dropped_silently_witness :
  In "Short"%string (options editedFile "Inserts") /\
  (commentLine exampleStrip editedFile "Short" \/
   In "Short"%string (keys (INSERT_SPECS (exampleLoad (Ok editedFile) CONFIG))) \/
   exists w, In w (warnings (exampleLoad (Ok editedFile) CONFIG)) /\
             warnedInsert w = Some "Short"%string).
Proof.
  assert (H : In "Short"%string (options editedFile "Inserts")).
  { vm_compute. auto 6. }
  split; [exact H|].
  exact (no_insert_dropped_silently exampleStrip exampleFloat exampleBoolean editedFile
           CONFIG "Short" H).
Defined.

(** The edited file: the chamfer size of 7.5 is out of range and falls
    back to 0.5, the extra depth of 2.0 is taken, the bottom radius is
    missing and gets 0.5. *)
Lemma settings_stay_checked_witness :
  settingsChecked CONFIG /\
  chamfer_size (loadedCONFIG (exampleLoad (Ok editedFile) CONFIG)) = Finite 0.5 /\
  blind_hole_extra_depth (loadedCONFIG (exampleLoad (Ok editedFile) CONFIG)) = Finite 2.0 /\
  bottom_radius_size (loadedCONFIG (exampleLoad (Ok editedFile) CONFIG)) = Finite 0.5 /\
  settingsChecked (loadedCONFIG (exampleLoad (Ok editedFile) CONFIG)).
Proof.
  assert (H : settingsChecked CONFIG).
  { unfold settingsChecked. cbn. lra. }
  split; [exact H|].
  destruct (settings_stay_checked exampleStrip exampleFloat exampleBoolean (Ok editedFile)
              CONFIG H) as ((H1 & H2 & H3) & Hchk).
  split; [|split; [|split; [exact H3|exact Hchk]]].
  - destruct H1 as [[Hin _]|[_ Heq]]; [|exact Heq]. exfalso.
    vm_compute in Hin. exact (proj2 Hin eq_refl).
  - destruct H2 as [[_ Heq]|[Hout _]]; [exact Heq|]. exfalso. apply Hout.
    vm_compute. split; discriminate.
Defined.

(** The edited file: two inserts loaded, three warnings, the chamfer size
    back at its default, the remembered insert selected. *)
Example edited_file_outcome :
  keys (INSERT_SPECS (exampleLoad (Ok editedFile) CONFIG)) = ["M2 x 3mm"; "My M3"]%string /\
  warnings (exampleLoad (Ok editedFile) CONFIG)
  = [UnusualChamferSize (Finite 7.5); WrongValueCount "Short" 2;
     InvalidInsertLength "Long" (Finite 400)] /\
  chamfer_size (loadedCONFIG (exampleLoad (Ok editedFile) CONFIG)) = Finite 0.5 /\
  map isSelected
      (insertDropdown (loadedCONFIG (exampleLoad (Ok editedFile) CONFIG))
                      (INSERT_SPECS (exampleLoad (Ok editedFile) CONFIG)))
  = [false; true].
Proof. vm_compute. repeat split. Qed.

End ConfigExtras.
